(** * 3D chess: board model, move generation and the session controller

    A shallow embedding of [src/lib/gameLogic.ts] (initializeBoardState,
    isWithinBounds, calculateValidMoves) and of the state handlers of
    [src/App.tsx] (executeMove, handleSquareClick, handlePromotion and the
    effect that recomputes validMoves).

    Conventions of the embedding.
    - JavaScript numbers that index the board are integers, modelled in [Z].
    - A cell of the board is only ever tested for truthiness, so [null],
      [undefined] and an array hole are one value: [None].
    - [a[i]] on [undefined] raises a TypeError.  Functions that can raise it
      return [option] (pure code) or an [Outcome] (state handlers).
    - React state setters called in one handler are applied together; a
      handler is a function from the rendered snapshot to the next state. *)

From Stdlib Require Import Ascii String SpecFloat.
From stdpp Require Import gmap list strings.

Local Open Scope Z_scope.

(** ** Data model (src/types, imported by every file) *)

(** Modelled from the spec: the constant SIZE of '../types' is not in the
    sources; the spec gives the side length N = 8 (and App.tsx hard-codes
    the ranks 7 and 0). *)
Definition SIZE : Z := 8.

(** Piece['type']: 'P' | 'R' | 'N' | 'B' | 'Q' | 'K'. *)
Inductive PieceType := Pawn | Rook | Knight | Bishop | Queen | King.

Inductive Color := white | black.

#[global] Instance PieceType_eq_dec : EqDecision PieceType.
Proof. solve_decision. Defined.

#[global] Instance Color_eq_dec : EqDecision Color.
Proof. solve_decision. Defined.

Module Piece.
Record t := mk {
  type : PieceType;
  color : Color;
  x : Z;
  y : Z;
  z : Z;
  hasMoved : bool
}.
End Piece.

#[global] Instance Piece_eq_dec : EqDecision Piece.t.
Proof. solve_decision. Defined.

(** The optional castle tag of a Move: 'king' or 'queen'. *)
Inductive CastleSide := kingSide | queenSide.

Module Move.
Record t := mk {
  x : Z;
  y : Z;
  z : Z;
  capture : bool;
  castle : option CastleSide
}.
End Move.

#[global] Instance CastleSide_eq_dec : EqDecision CastleSide.
Proof. solve_decision. Defined.

#[global] Instance Move_eq_dec : EqDecision Move.t.
Proof. solve_decision. Defined.

(** The innermost JavaScript array of the board, [boardState[x][y]]: its
    truthy elements by integer key, and its length.  A key outside
    [0, len) is an ordinary property of the array object (what [a[-1] = v]
    creates). *)
Record Column := mkColumn {
  cells : gmap Z Piece.t;
  len : Z
}.

Abbreviation BoardState := (list (list Column)).

(** [a[i]] on an outer array: [None] is [undefined]. *)
Definition idx {A} (l : list A) (i : Z) : option A :=
  if decide (0 ≤ i) then l !! Z.to_nat i else None.

(** [b[x][y][z]]: the outer [None] is a TypeError, the inner one a falsy
    cell. *)
Definition at3 (b : BoardState) (x y z : Z) : option (option Piece.t) :=
  row ← idx b x;
  col ← idx row y;
  Some (cells col !! z).

(** [col[z] = v]. *)
Definition colSet (col : Column) (z : Z) (v : option Piece.t) : Column :=
  {| cells := match v with
              | Some p => <[z := p]> (cells col)
              | None => delete z (cells col)
              end;
     len := if decide (0 ≤ z) then Z.max (len col) (z + 1) else len col |}.

(** [b[x][y][z] = v]: [None] is a TypeError. *)
Definition set3 (b : BoardState) (x y z : Z) (v : option Piece.t)
  : option BoardState :=
  row ← idx b x;
  col ← idx row y;
  Some (<[Z.to_nat x := <[Z.to_nat y := colSet col z v]> row]> b).

(** JSON.parse(JSON.stringify(board)): array elements only, other
    properties are dropped. *)
Definition colCopy (col : Column) : Column :=
  {| cells := filter (λ kv, 0 ≤ kv.1 < len col) (cells col);
     len := len col |}.

Definition jsonCopy (b : BoardState) : BoardState :=
  map (map colCopy) b.

(** ** src/lib/gameLogic.ts *)

Definition emptyColumn : Column := {| cells := ∅; len := SIZE |}.

Definition emptyBoard : BoardState :=
  replicate (Z.to_nat SIZE) (replicate (Z.to_nat SIZE) emptyColumn).

Definition MAJOR_PIECE_PATTERN : list string :=
  [ "rnbrrbnr"; "nnbqqbnn"; "bbbqqbbb"; "rqqqkqqr";
    "rqqqqqqr"; "bbbqqbbb"; "nnbqqbnn"; "rnbrrbnr" ]%string.

Definition PAWN_ROW : string := "pppppppp".

(** [char.toUpperCase() as Piece['type']].  The cast is a role only on
    these six letters; the two patterns hold no other letter, so the
    [None] of the last line is never reached from initializeBoardState. *)
Definition pieceKey (c : ascii) : option PieceType :=
  match c with
  | "p"%char => Some Pawn
  | "r"%char => Some Rook
  | "n"%char => Some Knight
  | "b"%char => Some Bishop
  | "q"%char => Some Queen
  | "k"%char => Some King
  | _ => None
  end.

Definition layerPattern (z : Z) : option (list string) :=
  if decide (z = 0) then Some MAJOR_PIECE_PATTERN
  else if decide (z = 1) then Some (replicate (Z.to_nat SIZE) PAWN_ROW)
  else if decide (z = 6) then Some (replicate (Z.to_nat SIZE) PAWN_ROW)
  else if decide (z = 7) then Some MAJOR_PIECE_PATTERN
  else None.

(** [for (let i = 0; i < SIZE; i++)]. *)
Definition upto (n : Z) : list Z := seqZ 0 n.

(** A loop whose body may raise. *)
Fixpoint forM {A S} (body : S → A → option S) (l : list A) (s : S)
  : option S :=
  match l with
  | [] => Some s
  | a :: l' => s' ← body s a; forM body l' s'
  end.

Definition placeCell (z : Z) (rowString : string) (y : Z)
    (state : BoardState) (x : Z) : option BoardState :=
  c ← String.get (Z.to_nat x) rowString;
  if decide (c = " "%char) then Some state
  else
    ty ← pieceKey c;
    set3 state x y z
      (Some {| Piece.type := ty;
               Piece.color := if decide (z < 4) then white else black;
               Piece.x := x; Piece.y := y; Piece.z := z;
               Piece.hasMoved := false |}).

Definition placeRow (z : Z) (pattern : list string)
    (state : BoardState) (y : Z) : option BoardState :=
  rowString ← idx pattern y;
  forM (placeCell z rowString y) (upto SIZE) state.

Definition placeLayer (state : BoardState) (z : Z) : option BoardState :=
  match layerPattern z with
  | Some pattern => forM (placeRow z pattern) (upto SIZE) state
  | None => Some state
  end.

Definition initializeBoardState (_ : unit) : option BoardState :=
  forM placeLayer (upto SIZE) emptyBoard.

Definition isWithinBounds (x y z : Z) : bool :=
  bool_decide (0 ≤ x) && bool_decide (x < SIZE) &&
  bool_decide (0 ≤ y) && bool_decide (y < SIZE) &&
  bool_decide (0 ≤ z) && bool_decide (z < SIZE).

(** An object literal [{ x, y, z, capture }]: no castle property. *)
Definition mkMove (x y z : Z) (capture : bool) : Move.t :=
  {| Move.x := x; Move.y := y; Move.z := z;
     Move.capture := capture; Move.castle := None |}.

(** The moves pushed by a loop over [l], in order; a TypeError in one
    iteration aborts the call. *)
Fixpoint pushAll {A} (body : A → option (list Move.t)) (l : list A)
  : option (list Move.t) :=
  match l with
  | [] => Some []
  | a :: l' => ms ← body a; rest ← pushAll body l'; Some (ms ++ rest)
  end.

Definition zDirOf (color : Color) : Z :=
  match color with white => 1 | black => -1 end.

Definition startLayerOf (color : Color) : Z :=
  match color with white => 1 | black => 6 end.

(** Lines 64-75: the forward step and the double step. *)
Definition pawnForward (b : BoardState) (startX startY startZ : Z)
    (color : Color) : option (list Move.t) :=
  let zDir := zDirOf color in
  let moveZ := startZ + zDir in
  if isWithinBounds startX startY moveZ then
    t1 ← at3 b startX startY moveZ;
    match t1 with
    | Some _ => Some []
    | None =>
      let single := mkMove startX startY moveZ false in
      if decide (startZ = startLayerOf color) then
        let doubleMoveZ := startZ + zDir * 2 in
        if isWithinBounds startX startY doubleMoveZ then
          t2 ← at3 b startX startY doubleMoveZ;
          match t2 with
          | Some _ => Some [single]
          | None => Some [single; mkMove startX startY doubleMoveZ false]
          end
        else Some [single]
      else Some [single]
    end
  else Some [].

(** Lines 76-82. *)
Definition threeDDirections (zDir : Z) : list (Z * Z * Z) :=
  dx ← [-1; 0; 1];
  dy ← [-1; 0; 1];
  if bool_decide (dx = 0) && bool_decide (dy = 0) then []
  else [(dx, dy, zDir)].

(** Lines 84-94: one diagonal capture. *)
Definition pawnCapture (b : BoardState) (startX startY startZ : Z)
    (color : Color) (d : Z * Z * Z) : option (list Move.t) :=
  let '(dx, dy, dz) := d in
  let tx := startX + dx in
  let ty := startY + dy in
  let tz := startZ + dz in
  if isWithinBounds tx ty tz then
    targetPiece ← at3 b tx ty tz;
    match targetPiece with
    | Some q =>
        if decide (Piece.color q ≠ color) then Some [mkMove tx ty tz true]
        else Some []
    | None => Some []
    end
  else Some [].

(** Lines 96-103. *)
Definition permutations : list (Z * Z * Z) :=
  [ (2, 1, 0); (2, -1, 0); (-2, 1, 0); (-2, -1, 0);
    (1, 2, 0); (1, -2, 0); (-1, 2, 0); (-1, -2, 0);
    (2, 0, 1); (2, 0, -1); (-2, 0, 1); (-2, 0, -1);
    (1, 0, 2); (1, 0, -2); (-1, 0, 2); (-1, 0, -2);
    (0, 2, 1); (0, 2, -1); (0, -2, 1); (0, -2, -1);
    (0, 1, 2); (0, 1, -2); (0, -1, 2); (0, -1, -2) ].

(** Lines 105-113: one knight leap. *)
Definition knightLeap (b : BoardState) (startX startY startZ : Z)
    (color : Color) (d : Z * Z * Z) : option (list Move.t) :=
  let '(dx, dy, dz) := d in
  let tx := startX + dx in
  let ty := startY + dy in
  let tz := startZ + dz in
  if isWithinBounds tx ty tz then
    targetPiece ← at3 b tx ty tz;
    match targetPiece with
    | Some q =>
        if decide (Piece.color q ≠ color) then Some [mkMove tx ty tz true]
        else Some []
    | None => Some [mkMove tx ty tz false]
    end
  else Some [].

(** Lines 115-123. *)
Definition all3DDirections : list (Z * Z * Z) :=
  dx ← [-1; 0; 1];
  dy ← [-1; 0; 1];
  dz ← [-1; 0; 1];
  if bool_decide (dx = 0) && bool_decide (dy = 0) && bool_decide (dz = 0)
  then []
  else [(dx, dy, dz)].

Definition absSum (d : Z * Z * Z) : Z :=
  let '(dx, dy, dz) := d in Z.abs dx + Z.abs dy + Z.abs dz.

(** [Array.from(new Set(...))]: first occurrences, in insertion order.
    The keys [d.join(',')] are in bijection with the integer triples. *)
Fixpoint uniqueDirections (seen l : list (Z * Z * Z)) : list (Z * Z * Z) :=
  match l with
  | [] => []
  | d :: l' =>
      if bool_decide (d ∈ seen) then uniqueDirections seen l'
      else d :: uniqueDirections (d :: seen) l'
  end.

(** Lines 125-134. *)
Definition rayDirections (type : PieceType) : list (Z * Z * Z) :=
  let orth :=
    if bool_decide (type = Rook ∨ type = Queen ∨ type = King)
    then filter (λ d, absSum d = 1) all3DDirections else [] in
  let diag :=
    if bool_decide (type = Bishop ∨ type = Queen ∨ type = King)
    then filter (λ d, absSum d > 1) all3DDirections else [] in
  uniqueDirections [] (orth ++ diag).

Definition maxDistance (type : PieceType) : Z :=
  if decide (type = King) then 1 else SIZE.

(** Lines 139-151: the inner loop, from step [k] with [fuel] iterations
    left ([k <= maxDistance]). *)
Fixpoint walkRay (b : BoardState) (startX startY startZ : Z) (color : Color)
    (d : Z * Z * Z) (fuel : nat) (k : Z) : option (list Move.t) :=
  match fuel with
  | O => Some []
  | S fuel' =>
      let '(dx, dy, dz) := d in
      let tx := startX + dx * k in
      let ty := startY + dy * k in
      let tz := startZ + dz * k in
      if negb (isWithinBounds tx ty tz) then Some []
      else
        targetPiece ← at3 b tx ty tz;
        match targetPiece with
        | Some q =>
            if decide (Piece.color q ≠ color)
            then Some [mkMove tx ty tz true]
            else Some []
        | None =>
            rest ← walkRay b startX startY startZ color d fuel' (k + 1);
            Some (mkMove tx ty tz false :: rest)
        end
  end.

Definition calculateValidMoves (piece : Piece.t) (boardState : BoardState)
  : option (list Move.t) :=
  let startX := Piece.x piece in
  let startY := Piece.y piece in
  let startZ := Piece.z piece in
  let color := Piece.color piece in
  match Piece.type piece with
  | Pawn =>
      fwd ← pawnForward boardState startX startY startZ color;
      caps ← pushAll (pawnCapture boardState startX startY startZ color)
                     (threeDDirections (zDirOf color));
      Some (fwd ++ caps)
  | Knight =>
      pushAll (knightLeap boardState startX startY startZ color) permutations
  | type =>
      pushAll (λ d, walkRay boardState startX startY startZ color d
                      (Z.to_nat (maxDistance type)) 1)
              (rayDirections type)
  end.

(** ** src/App.tsx: the session state and its handlers *)

Module Captured.
(** capturedPieces: { white: Piece[], black: Piece[] }. *)
Record t := mk {
  white : list Piece.t;
  black : list Piece.t
}.
End Captured.

Module PromotionData.
(** promotionData: { piece, x, y, z }. *)
Record t := mk {
  piece : Piece.t;
  x : Z;
  y : Z;
  z : Z
}.
End PromotionData.

(** The state hooks of the App component that carry game state
    (sidebarWidth is layout only). *)
Record State := mkState {
  boardState : BoardState;
  turn : Color;
  selectedPiece : option Piece.t;
  validMoves : list Move.t;
  capturedPieces : Captured.t;
  gameStatus : string;
  promotionData : option PromotionData.t
}.

Definition setBoardState (b : BoardState) (s : State) : State :=
  mkState b (turn s) (selectedPiece s) (validMoves s) (capturedPieces s)
          (gameStatus s) (promotionData s).

Definition setTurn (f : Color → Color) (s : State) : State :=
  mkState (boardState s) (f (turn s)) (selectedPiece s) (validMoves s)
          (capturedPieces s) (gameStatus s) (promotionData s).

Definition setSelectedPiece (p : option Piece.t) (s : State) : State :=
  mkState (boardState s) (turn s) p (validMoves s) (capturedPieces s)
          (gameStatus s) (promotionData s).

Definition setValidMoves (ms : list Move.t) (s : State) : State :=
  mkState (boardState s) (turn s) (selectedPiece s) ms (capturedPieces s)
          (gameStatus s) (promotionData s).

Definition setCapturedPieces (f : Captured.t → Captured.t) (s : State)
  : State :=
  mkState (boardState s) (turn s) (selectedPiece s) (validMoves s)
          (f (capturedPieces s)) (gameStatus s) (promotionData s).

Definition setGameStatus (g : string) (s : State) : State :=
  mkState (boardState s) (turn s) (selectedPiece s) (validMoves s)
          (capturedPieces s) g (promotionData s).

Definition setPromotionData (d : option PromotionData.t) (s : State)
  : State :=
  mkState (boardState s) (turn s) (selectedPiece s) (validMoves s)
          (capturedPieces s) (gameStatus s) d.

(** What a handler leaves behind: it returned, or it raised a TypeError
    after the setters called so far. *)
Inductive Outcome :=
| Done (s : State)
| TypeError (s : State).

Definition stateOf (o : Outcome) : State :=
  match o with Done s | TypeError s => s end.

Definition opponentOf (color : Color) : Color :=
  match color with white => black | black => white end.

(** [t => t === 'white' ? 'black' : 'white']. *)
Definition flipTurn (t : Color) : Color := opponentOf t.

(** [color.toUpperCase()]. *)
Definition toUpperCase (color : Color) : string :=
  match color with white => "WHITE" | black => "BLACK" end.

Definition winsStatus (color : Color) : string :=
  (toUpperCase color ++ " WINS!")%string.

(** [prev => ({ ...prev, [opponentColor]: [...prev[opponentColor], p] })]. *)
Definition addCaptured (opponentColor : Color) (p : Piece.t)
    (prev : Captured.t) : Captured.t :=
  match opponentColor with
  | white => Captured.mk (Captured.white prev ++ [p]) (Captured.black prev)
  | black => Captured.mk (Captured.white prev) (Captured.black prev ++ [p])
  end.

(** Lines 38-47 and 116-125: the capture bookkeeping. *)
Definition recordCapture (color : Color) (targetPiece : option Piece.t)
    (s : State) : State :=
  match targetPiece with
  | Some t =>
      let s1 := if decide (Piece.type t = King)
                then setGameStatus (winsStatus color) s else s in
      setCapturedPieces (addCaptured (opponentOf color) t) s1
  | None => s
  end.

Definition promotionRank (color : Color) : Z :=
  match color with white => 7 | black => 0 end.

(** [{ ...piece, x: targetX, y: targetY, z: targetZ, hasMoved: true }]. *)
Definition movedTo (piece : Piece.t) (targetX targetY targetZ : Z)
  : Piece.t :=
  {| Piece.type := Piece.type piece; Piece.color := Piece.color piece;
     Piece.x := targetX; Piece.y := targetY; Piece.z := targetZ;
     Piece.hasMoved := true |}.

(** Lines 56-62 and 64-70: the rook found at the edge column [edgeX] is
    taken out, gets [x = newX] and hasMoved, and is written at [newX]. *)
Definition relocateRook (nb : BoardState) (edgeX newX targetY targetZ : Z)
  : option BoardState :=
  rook ← at3 nb edgeX targetY targetZ;
  match rook with
  | Some r =>
      nb1 ← set3 nb edgeX targetY targetZ None;
      set3 nb1 newX targetY targetZ
        (Some {| Piece.type := Piece.type r; Piece.color := Piece.color r;
                 Piece.x := newX; Piece.y := Piece.y r; Piece.z := Piece.z r;
                 Piece.hasMoved := true |})
  | None => Some nb
  end.

(** Lines 49-75: the writes to the copied board. *)
Definition writeMove (nb : BoardState) (piece : Piece.t)
    (targetX targetY targetZ : Z) (move : Move.t) : option BoardState :=
  nb1 ← set3 nb (Piece.x piece) (Piece.y piece) (Piece.z piece) None;
  nb2 ← set3 nb1 targetX targetY targetZ
           (Some (movedTo piece targetX targetY targetZ));
  match Move.castle move with
  | Some kingSide => relocateRook nb2 7 (targetX - 1) targetY targetZ
  | Some queenSide => relocateRook nb2 0 (targetX + 1) targetY targetZ
  | None => Some nb2
  end.

Definition executeMove (s : State) (piece : Piece.t)
    (targetX targetY targetZ : Z) (move : Move.t) : Outcome :=
  let color := Piece.color piece in
  if bool_decide (Piece.type piece = Pawn) &&
     bool_decide (targetZ = promotionRank color)
  then Done (setPromotionData
               (Some (PromotionData.mk piece targetX targetY targetZ)) s)
  else
    let newBoardState := jsonCopy (boardState s) in
    match at3 newBoardState targetX targetY targetZ with
    | None => TypeError s
    | Some targetPiece =>
        let s1 := recordCapture color targetPiece s in
        match writeMove newBoardState piece targetX targetY targetZ move with
        | None => TypeError s1
        | Some nb =>
            Done (setSelectedPiece None (setTurn flipTurn
                    (setBoardState nb s1)))
        end
    end.

Definition isTarget (x y z : Z) (m : Move.t) : bool :=
  bool_decide (Move.x m = x) && bool_decide (Move.y m = y) &&
  bool_decide (Move.z m = z).

(** [clickedPiece && clickedPiece.color === turn]. *)
Definition ownPiece (clickedPiece : option Piece.t) (t : Color) : bool :=
  match clickedPiece with
  | Some c => bool_decide (Piece.color c = t)
  | None => false
  end.

Definition handleSquareClick (s : State) (x y z : Z) : Outcome :=
  if negb (String.eqb (gameStatus s) "active") ||
     bool_decide (is_Some (promotionData s))
  then Done s
  else
    match at3 (boardState s) x y z with
    | None => TypeError s
    | Some clickedPiece =>
        match selectedPiece s with
        | Some sel =>
            match List.find (isTarget x y z) (validMoves s) with
            | Some move => executeMove s sel x y z move
            | None =>
                if ownPiece clickedPiece (turn s)
                then Done (setSelectedPiece clickedPiece s)
                else Done (setSelectedPiece None s)
            end
        | None =>
            if ownPiece clickedPiece (turn s)
            then Done (setSelectedPiece clickedPiece s)
            else Done s
        end
    end.

Definition handlePromotion (s : State) (promotedTo : PieceType) : Outcome :=
  match promotionData s with
  | None => Done s
  | Some pd =>
      let piece := PromotionData.piece pd in
      let x := PromotionData.x pd in
      let y := PromotionData.y pd in
      let z := PromotionData.z pd in
      let newBoardState := jsonCopy (boardState s) in
      match set3 newBoardState (Piece.x piece) (Piece.y piece)
                 (Piece.z piece) None with
      | None => TypeError s
      | Some nb1 =>
          match at3 nb1 x y z with
          | None => TypeError s
          | Some targetPiece =>
              let s1 := recordCapture (Piece.color piece) targetPiece s in
              match set3 nb1 x y z
                      (Some {| Piece.type := promotedTo;
                               Piece.color := Piece.color piece;
                               Piece.x := x; Piece.y := y; Piece.z := z;
                               Piece.hasMoved := true |}) with
              | None => TypeError s1
              | Some nb =>
                  Done (setPromotionData None (setSelectedPiece None
                          (setTurn flipTurn (setBoardState nb s1))))
              end
          end
      end
  end.

(** Lines 18-24, the effect on [selectedPiece, boardState]; [None] when
    calculateValidMoves raises. *)
Definition validMovesEffect (s : State) : option State :=
  match selectedPiece s with
  | Some sel =>
      ms ← calculateValidMoves sel (boardState s);
      Some (setValidMoves ms s)
  | None => Some (setValidMoves [] s)
  end.

(** The state at mount (the useState initialisers). *)
Definition initialState : option State :=
  b ← initializeBoardState tt;
  Some {| boardState := b; turn := white; selectedPiece := None;
          validMoves := []; capturedPieces := Captured.mk [] [];
          gameStatus := "active"; promotionData := None |}.

(** The states the session can be in: the handlers are applied from the
    mounted state, executeMove with any arguments (handleSquareClick is
    one of its callers), and the effect may run in between. *)
Inductive reachable : State → Prop :=
| reach_init s :
    initialState = Some s → reachable s
| reach_click s x y z :
    reachable s → reachable (stateOf (handleSquareClick s x y z))
| reach_move s piece x y z move :
    reachable s → reachable (stateOf (executeMove s piece x y z move))
| reach_promotion s promotedTo :
    reachable s → reachable (stateOf (handlePromotion s promotedTo))
| reach_effect s s' :
    reachable s → validMovesEffect s = Some s' → reachable s'.

(** ** JavaScript numbers

    A JavaScript number is an IEEE 754 binary64 value.  Its arithmetic is
    the Standard Library's specification of floating-point arithmetic
    (SpecFloat) at precision 53 and maximal exponent 1024: rounding to
    nearest, ties to even, one NaN, comparisons false on NaN. *)
Module JsNumber.
Definition t : Type := spec_float.
Definition add : t → t → t := SFadd 53 1024.
Definition sub : t → t → t := SFsub 53 1024.
Definition ltb : t → t → bool := SFltb.
(** An integer literal. *)
Definition ofZ (n : Z) : t := binary_normalize 53 1024 n 0 false.
End JsNumber.

(** ** src/App.tsx, lines 140-161: resizing the sidebar

    The sidebarWidth hook is the only state involved; it starts at 350
    (line 15).  clientX is a number of the mouse event. *)

(** The mousemove listener of one drag (lines 145-152): [startWidth] and
    [startX] are fixed at mousedown; the result is the sidebarWidth after
    the event. *)
Definition doDrag (startWidth startX : JsNumber.t)
    (sidebarWidth clientX : JsNumber.t) : JsNumber.t :=
  let newWidth := JsNumber.sub (JsNumber.add startWidth clientX) startX in
  let minWidth := JsNumber.ofZ 280 in
  let maxWidth := JsNumber.ofZ 600 in
  if JsNumber.ltb minWidth newWidth && JsNumber.ltb newWidth maxWidth
  then newWidth
  else sidebarWidth.

(** One drag: mousedown at [startX] on the separator, the mousemove
    events at [moves], mouseup. *)
Definition startResizing (sidebarWidth startX : JsNumber.t)
    (moves : list JsNumber.t) : JsNumber.t :=
  foldl (doDrag sidebarWidth startX) sidebarWidth moves.

(** The width after a sequence of drags. *)
Definition resized (drags : list (JsNumber.t * list JsNumber.t))
  : JsNumber.t :=
  foldl (λ sidebarWidth d, startResizing sidebarWidth d.1 d.2)
        (JsNumber.ofZ 350) drags.

(** ** src/lib/threeUtils.ts, lines 47-80, and src/components/ThreeScene
    (src/unnamed/part_002, lines 133-161): the piece meshes of the scene

    Of a THREE.Object3D the scene code sets and reads the name and the
    userData; these two are modelled.  A name is a literal (the empty
    string by default) or the template [`piece_${x}_${y}_${z}`], kept as
    the three numbers it prints.  userData is the piece, or the default
    empty object [{}]. *)
Inductive ObjectName :=
| literalName (s : string)
| pieceName (x y z : Z).

Module Object3D.
Record t := mk {
  name : ObjectName;
  userData : option Piece.t
}.
End Object3D.

(** [new THREE.Group()]. *)
Definition newGroup : Object3D.t :=
  Object3D.mk (literalName EmptyString) None.

(** pieceModels: Record<string, THREE.Object3D>, read at the roles;
    None is a missing key. *)
Definition PieceModels : Type := PieceType → option Object3D.t.

(** threeUtils.ts, lines 47-80. *)
Definition createPieceMesh (pieceData : Piece.t) (pieceModels : PieceModels)
  : Object3D.t :=
  match pieceModels (Piece.type pieceData) with
  | None => newGroup
  | Some model =>
      let pieceGroup := model in
      let pieceGroup := Object3D.mk (Object3D.name pieceGroup)
                                    (Some pieceData) in
      Object3D.mk (pieceName (Piece.x pieceData) (Piece.y pieceData)
                             (Piece.z pieceData))
                  (Object3D.userData pieceGroup)
  end.

(** [row.forEach(piece => { if (piece) ... })]: forEach visits the
    elements 0..length-1, here the truthy ones. *)
Definition rowPieces (row : Column) : list Piece.t :=
  omap (λ z, cells row !! z) (seqZ 0 (len row)).

(** part_002, lines 142-147: the pieces reached by the three nested
    forEach, in the order they are reached. *)
Definition visitedPieces (b : BoardState) : list Piece.t :=
  plane ← b; row ← plane; rowPieces row.

(** part_002, lines 134-148, the effect on [boardState, assetsLoaded].
    [piecesGroupRef] is the children of the pieces group (None as long
    as the group does not exist); the result is the children after the
    effect. *)
Definition syncPieces (assetsLoaded : bool)
    (pieceModelsRef : option PieceModels)
    (piecesGroupRef : option (list Object3D.t)) (boardState : BoardState)
  : option (list Object3D.t) :=
  if negb assetsLoaded then piecesGroupRef
  else
    match pieceModelsRef with
    | None => piecesGroupRef
    | Some models =>
        match piecesGroupRef with
        | None => None
        | Some _ =>
            let removed : list Object3D.t := [] in
            Some (removed ++
                  ((λ piece, createPieceMesh piece models)
                     <$> visitedPieces boardState))
        end
    end.

(** The test of the highlight effect (part_002, line 156) for one child
    of the pieces group; a property missing from userData is
    undefined and equals no number. *)
Definition isSelected (selectedPiece : option Piece.t)
    (pieceMesh : Object3D.t) : bool :=
  match selectedPiece with
  | Some sel =>
      match Object3D.userData pieceMesh with
      | Some userData =>
          bool_decide (Piece.x userData = Piece.x sel) &&
          bool_decide (Piece.y userData = Piece.y sel) &&
          bool_decide (Piece.z userData = Piece.z sel)
      | None => false
      end
  | None => false
  end.

(** ** src/unnamed/part_000: the App component before promotion and
    castling were added *)

Module Legacy.

(** Lines 24-48: executeMove without the promotion test and the castle
    branch. *)
Definition executeMove (s : State) (piece : Piece.t)
    (targetX targetY targetZ : Z) : Outcome :=
  let newBoardState := jsonCopy (boardState s) in
  match at3 newBoardState targetX targetY targetZ with
  | None => TypeError s
  | Some targetPiece =>
      let s1 := recordCapture (Piece.color piece) targetPiece s in
      match
        nb1 ← set3 newBoardState (Piece.x piece) (Piece.y piece)
                   (Piece.z piece) None;
        set3 nb1 targetX targetY targetZ
          (Some (movedTo piece targetX targetY targetZ))
      with
      | None => TypeError s1
      | Some nb =>
          Done (setSelectedPiece None (setTurn flipTurn
                  (setBoardState nb s1)))
      end
  end.

(** Lines 51-73. *)
Definition handleSquareClick (s : State) (x y z : Z) : Outcome :=
  if negb (String.eqb (gameStatus s) "active") then Done s
  else
    match at3 (boardState s) x y z with
    | None => TypeError s
    | Some clickedPiece =>
        match selectedPiece s with
        | Some sel =>
            if existsb (isTarget x y z) (validMoves s)
            then executeMove s sel x y z
            else if ownPiece clickedPiece (turn s)
                 then Done (setSelectedPiece clickedPiece s)
                 else Done (setSelectedPiece None s)
        | None =>
            if ownPiece clickedPiece (turn s)
            then Done (setSelectedPiece clickedPiece s)
            else Done s
        end
    end.

End Legacy.

(** * Vocabulary of the statements *)

(** Columns as initializeBoardState builds them: SIZE elements and no
    other property. *)
Definition wfColumn (col : Column) : Prop :=
  len col = SIZE ∧ ∀ k p, cells col !! k = Some p → 0 ≤ k < SIZE.

(** The outer shape of a board: SIZE rows of SIZE columns. *)
Definition dims (b : BoardState) : Prop :=
  length b = Z.to_nat SIZE ∧ Forall (λ row, length row = Z.to_nat SIZE) b.

(** A board of SIZE x SIZE well-formed columns. *)
Definition wfBoard (b : BoardState) : Prop :=
  dims b ∧ Forall (Forall wfColumn) b.

(** What calculateValidMoves finds at a square: inside the cube and
    falsy, or inside the cube and holding a piece of the other colour. *)
Definition emptyAt (b : BoardState) (x y z : Z) : Prop :=
  isWithinBounds x y z = true ∧ at3 b x y z = Some None.

Definition enemyAt (b : BoardState) (color : Color) (x y z : Z) : Prop :=
  isWithinBounds x y z = true ∧
  ∃ q, at3 b x y z = Some (Some q) ∧ Piece.color q ≠ color.

(** A target of the piece: [k] steps along [d] from its square. *)
Definition onRay (p : Piece.t) (d : Z * Z * Z) (k : Z) (x y z : Z) : Prop :=
  x = Piece.x p + d.1.1 * k ∧
  y = Piece.y p + d.1.2 * k ∧
  z = Piece.z p + d.2 * k.

Definition sliding (type : PieceType) : Prop :=
  type = Rook ∨ type = Bishop ∨ type = Queen ∨ type = King.

(** Every ray direction is a non-zero vector of the 3x3x3 neighbourhood. *)
Definition unitStep (d : Z * Z * Z) : Prop :=
  -1 ≤ d.1.1 ≤ 1 ∧ -1 ≤ d.1.2 ≤ 1 ∧ -1 ≤ d.2 ≤ 1 ∧ 1 ≤ absSum d.

#[local] Instance unitStep_dec d : Decision (unitStep d).
Proof. unfold unitStep. apply _. Defined.

(** The two board writes of a move without castle tag (lines 49 and
    73-74). *)
Definition plainWrites (nb : BoardState) (piece : Piece.t)
    (targetX targetY targetZ : Z) : option BoardState :=
  nb1 ← set3 nb (Piece.x piece) (Piece.y piece) (Piece.z piece) None;
  set3 nb1 targetX targetY targetZ
    (Some (movedTo piece targetX targetY targetZ)).

(** The major-piece layer as a table of roles: row y, then column x. *)
Definition majorLayer : list (list PieceType) :=
  [ [Rook; Knight; Bishop; Rook; Rook; Bishop; Knight; Rook];
    [Knight; Knight; Bishop; Queen; Queen; Bishop; Knight; Knight];
    [Bishop; Bishop; Bishop; Queen; Queen; Bishop; Bishop; Bishop];
    [Rook; Queen; Queen; Queen; King; Queen; Queen; Rook];
    [Rook; Queen; Queen; Queen; Queen; Queen; Queen; Rook];
    [Bishop; Bishop; Bishop; Queen; Queen; Bishop; Bishop; Bishop];
    [Knight; Knight; Bishop; Queen; Queen; Bishop; Knight; Knight];
    [Rook; Knight; Bishop; Rook; Rook; Bishop; Knight; Rook] ].

(** The starting layout of section 3 of the specification: major pieces
    on layers 0 and 7, pawns on 1 and 6, nothing on 2..5; White on 0-1,
    Black on 6-7; nothing has moved. *)
Definition startingCell (x y z : Z) : option Piece.t :=
  let fresh type color :=
    {| Piece.type := type; Piece.color := color;
       Piece.x := x; Piece.y := y; Piece.z := z;
       Piece.hasMoved := false |} in
  let major color :=
    row ← idx majorLayer y; type ← idx row x; Some (fresh type color) in
  if decide (z = 0) then major white
  else if decide (z = 1) then Some (fresh Pawn white)
  else if decide (z = 6) then Some (fresh Pawn black)
  else if decide (z = 7) then major black
  else None.

Definition cubeAll (f : Z → Z → Z → bool) : bool :=
  forallb (λ x, forallb (λ y, forallb (f x y) (upto SIZE)) (upto SIZE))
          (upto SIZE).

#[local] Instance wfColumn_dec col : Decision (wfColumn col).
Proof.
  refine (cast_if (decide (len col = SIZE ∧
            map_Forall (λ k _, 0 ≤ k < SIZE) (cells col))));
    unfold wfColumn, map_Forall in *; tauto.
Defined.

#[local] Instance dims_dec b : Decision (dims b).
Proof. unfold dims. apply _. Defined.

#[local] Instance wfBoard_dec b : Decision (wfBoard b).
Proof. unfold wfBoard. apply _. Defined.

(** The board that initializeBoardState returns, evaluated. *)
Definition startBoard : BoardState :=
  Eval vm_compute in default [] (initializeBoardState tt).

(** Every piece stores the coordinates of the cell that holds it. *)
Definition boardInv (b : BoardState) : Prop :=
  ∀ x y z p, at3 b x y z = Some (Some p) →
    Piece.x p = x ∧ Piece.y p = y ∧ Piece.z p = z.

(** What the handlers keep: the outer shape of the board and the
    coordinates stored in its pieces. *)
Definition goodBoard (b : BoardState) : Prop := dims b ∧ boardInv b.

(** The promotion test of executeMove (line 30). *)
Definition promotes (piece : Piece.t) (targetZ : Z) : Prop :=
  Piece.type piece = Pawn ∧ targetZ = promotionRank (Piece.color piece).

(** The piece that handlePromotion writes (lines 127-132). *)
Definition promotedPiece (pd : PromotionData.t) (promotedTo : PieceType)
  : Piece.t :=
  {| Piece.type := promotedTo;
     Piece.color := Piece.color (PromotionData.piece pd);
     Piece.x := PromotionData.x pd;
     Piece.y := PromotionData.y pd;
     Piece.z := PromotionData.z pd;
     Piece.hasMoved := true |}.

(** * Worked positions *)

Definition promoPawn : Piece.t := Piece.mk Pawn white 3 3 6 true.
Definition promoKing : Piece.t := Piece.mk King black 4 3 7 false.

(** A white pawn on (3,3,6) next to the black king on (4,3,7). *)
Definition promoBoard : BoardState :=
  default emptyBoard
    (b1 ← set3 emptyBoard 3 3 6 (Some promoPawn);
     set3 b1 4 3 7 (Some promoKing)).

Definition promoMove : Move.t := mkMove 4 3 7 true.

(** White to move, the pawn selected, the effect has run. *)
Definition promoState : State :=
  {| boardState := promoBoard; turn := white;
     selectedPiece := Some promoPawn;
     validMoves := [mkMove 3 3 7 false; promoMove];
     capturedPieces := Captured.mk [] [];
     gameStatus := "active"; promotionData := None |}.

(** The same session after the click on (4,3,7). *)
Definition promoPending : State :=
  setPromotionData (Some (PromotionData.mk promoPawn 4 3 7)) promoState.

(** A white rook on (3,3,3) and a black pawn on (3,3,6). *)
Definition rookPiece : Piece.t := Piece.mk Rook white 3 3 3 true.

Definition rookBoard : BoardState :=
  default emptyBoard
    (b1 ← set3 emptyBoard 3 3 3 (Some rookPiece);
     set3 b1 3 3 6 (Some (Piece.mk Pawn black 3 3 6 false))).

(** The white pawn of the starting position on (0,1,1). *)
Definition startPawn : Piece.t := Piece.mk Pawn white 0 1 1 false.

(** A white rook on (3,3,3) facing the black king on (3,3,6). *)
Definition huntBoard : BoardState :=
  default emptyBoard
    (b1 ← set3 emptyBoard 3 3 3 (Some rookPiece);
     set3 b1 3 3 6 (Some (Piece.mk King black 3 3 6 false))).

Definition huntState : State :=
  {| boardState := huntBoard; turn := white;
     selectedPiece := Some rookPiece;
     validMoves := default [] (calculateValidMoves rookPiece huntBoard);
     capturedPieces := Captured.mk [] [];
     gameStatus := "active"; promotionData := None |}.

(** The opening (0,1,1)-(0,1,3) from the mounted state: select the pawn,
    let the effect run, click the double step. *)
Definition mountedState : State :=
  {| boardState := startBoard; turn := white; selectedPiece := None;
     validMoves := []; capturedPieces := Captured.mk [] [];
     gameStatus := "active"; promotionData := None |}.

Definition pawnSelected : State :=
  default mountedState
    (validMovesEffect (stateOf (handleSquareClick mountedState 0 1 1))).

Definition openingState : State :=
  stateOf (handleSquareClick pawnSelected 0 1 3).

(** * Vocabulary of the further properties *)

(** The offsets of a knight leap: one step of 2, one of 1, one of 0. *)
Definition leapOffset (d : Z * Z * Z) : Prop :=
  d.1.1 * d.1.1 + d.1.2 * d.1.2 + d.2 * d.2 = 5.

(** The same piece with another role. *)
Definition withType (type : PieceType) (p : Piece.t) : Piece.t :=
  {| Piece.type := type; Piece.color := Piece.color p;
     Piece.x := Piece.x p; Piece.y := Piece.y p; Piece.z := Piece.z p;
     Piece.hasMoved := Piece.hasMoved p |}.

(** What a generated move finds at its target, as its capture flag
    tells it. *)
Definition landsOn (b : BoardState) (color : Color) (m : Move.t) : Prop :=
  isWithinBounds (Move.x m) (Move.y m) (Move.z m) = true ∧
  Move.castle m = None ∧
  ((Move.capture m = false ∧
    at3 b (Move.x m) (Move.y m) (Move.z m) = Some None) ∨
   (Move.capture m = true ∧
    ∃ q, at3 b (Move.x m) (Move.y m) (Move.z m) = Some (Some q) ∧
         Piece.color q ≠ color)).

(** The castle branch of executeMove: the edge column searched for the
    rook (lines 56 and 64) and the column it is written to (lines 61 and
    69). *)
Definition castleEdge (side : CastleSide) : Z :=
  match side with kingSide => 7 | queenSide => 0 end.

Definition castleRookX (side : CastleSide) (targetX : Z) : Z :=
  match side with kingSide => targetX - 1 | queenSide => targetX + 1 end.

(** [rook.x = newX; rook.hasMoved = true]. *)
Definition relocated (r : Piece.t) (newX : Z) : Piece.t :=
  {| Piece.type := Piece.type r; Piece.color := Piece.color r;
     Piece.x := newX; Piece.y := Piece.y r; Piece.z := Piece.z r;
     Piece.hasMoved := true |}.

(** The states of a played session: from the mounted state, every
    square click and every promotion choice is handled, and the effect
    on [selectedPiece, boardState] has run before the next event. *)
Inductive session : State → Prop :=
| session_mount s :
    initialState = Some s → session s
| session_click s x y z s' :
    session s →
    validMovesEffect (stateOf (handleSquareClick s x y z)) = Some s' →
    session s'
| session_promote s promotedTo s' :
    session s →
    validMovesEffect (stateOf (handlePromotion s promotedTo)) = Some s' →
    session s'.

(** The number of pieces on the board. *)
Definition pieceCount (b : BoardState) : nat :=
  sum_list_with (sum_list_with (λ col, size (cells col))) b.

Definition occupied (c : option Piece.t) : nat :=
  match c with Some _ => 1%nat | None => 0%nat end.

Definition capturedOf (cp : Captured.t) (color : Color) : list Piece.t :=
  match color with
  | white => Captured.white cp
  | black => Captured.black cp
  end.

(** What holds of every state of a session. *)
Definition sessionInv (s : State) : Prop :=
  wfBoard (boardState s) ∧
  boardInv (boardState s) ∧
  (∀ p, selectedPiece s = Some p →
     at3 (boardState s) (Piece.x p) (Piece.y p) (Piece.z p)
       = Some (Some p) ∧
     Piece.color p = turn s) ∧
  validMovesEffect s = Some s ∧
  (∀ pd, promotionData s = Some pd →
     gameStatus s = "active"%string ∧
     selectedPiece s = Some (PromotionData.piece pd) ∧
     promotes (PromotionData.piece pd) (PromotionData.z pd) ∧
     ∃ m, m ∈ validMoves s ∧
          isTarget (PromotionData.x pd) (PromotionData.y pd)
                   (PromotionData.z pd) m = true) ∧
  (∀ color q, q ∈ capturedOf (capturedPieces s) color →
              Piece.color q = color) ∧
  (pieceCount (boardState s)
   + length (Captured.white (capturedPieces s))
   + length (Captured.black (capturedPieces s)) = 256)%nat ∧
  ((gameStatus s = "active"%string ∧
    ∀ color q, q ∈ capturedOf (capturedPieces s) color →
               Piece.type q ≠ King) ∨
   (∃ winner k,
      gameStatus s = winsStatus winner ∧
      promotionData s = None ∧
      k ∈ capturedOf (capturedPieces s) (opponentOf winner) ∧
      Piece.type k = King)).

(** How one event changes a session: nothing of the game changes, or a
    piece of the side to move leaves its square and the turn passes. *)
Definition quietStep (s s' : State) : Prop :=
  boardState s' = boardState s ∧ turn s' = turn s ∧
  capturedPieces s' = capturedPieces s ∧ gameStatus s' = gameStatus s.

Definition moveStep (s s' : State) : Prop :=
  turn s' = flipTurn (turn s) ∧
  selectedPiece s' = None ∧ validMoves s' = [] ∧ promotionData s' = None ∧
  ∃ p, at3 (boardState s) (Piece.x p) (Piece.y p) (Piece.z p)
         = Some (Some p) ∧
       Piece.color p = turn s ∧
       at3 (boardState s') (Piece.x p) (Piece.y p) (Piece.z p) = Some None.

(** A sequence of square clicks, the effect running after each. *)
Definition clicks (l : list (Z * Z * Z)) (s : State) : State :=
  foldl (λ s c,
           default s (validMovesEffect
                        (stateOf (handleSquareClick s c.1.1 c.1.2 c.2))))
        s l.

(** A short game: White (0,1,1)-(0,1,3), Black (1,1,6)-(1,1,4), White
    (0,1,3)x(1,1,4). *)
Definition shortGame : list (Z * Z * Z) :=
  [(0, 1, 1); (0, 1, 3); (1, 1, 6); (1, 1, 4); (0, 1, 3); (1, 1, 4)].

Definition afterCapture : State := clicks shortGame mountedState.

(** A game that brings a white pawn to its far rank: the pawn of
    (0,1,1) advances and takes on (1,1,6) and then on (0,1,7), while
    Black pushes pawns on the other side of the board. *)
Definition promotionGame : list (Z * Z * Z) :=
  [ (0, 1, 1); (0, 1, 3);  (7, 7, 6); (7, 7, 4);
    (0, 1, 3); (0, 1, 4);  (7, 6, 6); (7, 6, 4);
    (0, 1, 4); (0, 1, 5);  (6, 7, 6); (6, 7, 4);
    (0, 1, 5); (1, 1, 6);  (6, 6, 6); (6, 6, 4);
    (1, 1, 6); (0, 1, 7) ].

(** The session with the promotion pending, and after Queen is
    chosen. *)
Definition pendingSession : State := clicks promotionGame mountedState.

Definition promotedSession : State :=
  default pendingSession
    (validMovesEffect (stateOf (handlePromotion pendingSession Queen))).

(** The white knight of the starting position on (1,0,0) and the white
    King on (4,3,0), and a king-side castle move to (6,3,0). *)
Definition startKnight : Piece.t := Piece.mk Knight white 1 0 0 false.
Definition startKing : Piece.t := Piece.mk King white 4 3 0 false.
Definition startRook : Piece.t := Piece.mk Rook white 7 3 0 false.

Definition castleMove : Move.t := Move.mk 6 3 0 false (Some kingSide).

(** ** The sidebar *)

(** Number.isFinite. *)
Definition isFinite (x : JsNumber.t) : bool :=
  match x with
  | S754_nan | S754_infinity _ => false
  | _ => true
  end.

(** Strictly between the bounds of the sidebar. *)
Definition withinSidebarBounds (w : JsNumber.t) : Prop :=
  JsNumber.ltb (JsNumber.ofZ 280) w = true ∧
  JsNumber.ltb w (JsNumber.ofZ 600) = true.

(** A drag at integer pixel positions. *)
Definition integerDrag (d : Z * list Z) : JsNumber.t * list JsNumber.t :=
  (JsNumber.ofZ d.1, JsNumber.ofZ <$> d.2).

Definition pixelRange (n : Z) : Prop := Z.abs n ≤ 2 ^ 51.

(** The mantissa of the positive integer [p] as a double: [p] shifted to
    53 bits. *)
Definition mant (p : positive) : positive :=
  Z.to_pos (Z.pos p * 2 ^ (53 - Z.pos (digits2_pos p))).

(** The double of a non-zero integer below 2^53 in magnitude, by sign
    and absolute value. *)
Definition normalDouble (s : bool) (p : positive) : spec_float :=
  S754_finite s (mant p) (Z.pos (digits2_pos p) - 53).

(** * Properties *)

(** ** Array access *)

Section Access.
Context {A : Type}.
Implicit Types (l : list A) (i j : Z).

Lemma idx_Some l i a :
  idx l i = Some a ↔ 0 ≤ i ∧ l !! Z.to_nat i = Some a.
Proof.
  unfold idx. case_decide; split; try tauto; try done.
Qed.

Lemma idx_insert l i j a a0 :
  idx l i = Some a0 →
  idx (<[Z.to_nat i := a]> l) j = if decide (i = j) then Some a else idx l j.
Proof.
  intros [Hi Hl]%idx_Some. unfold idx.
  destruct (decide (i = j)) as [<-|Hij].
  - rewrite decide_True by done.
    apply list_lookup_insert_eq. by eapply lookup_lt_Some.
  - case_decide; [|done].
    apply list_lookup_insert_ne. lia.
Qed.

Lemma idx_in_range l i :
  0 ≤ i < Z.of_nat (length l) → is_Some (idx l i).
Proof.
  intros Hi. unfold idx. rewrite decide_True by lia.
  apply lookup_lt_is_Some. lia.
Qed.
End Access.

#[local] Arguments colSet : simpl never.
#[local] Arguments colCopy : simpl never.

Lemma colSet_lookup col z v z' :
  cells (colSet col z v) !! z' = if decide (z = z') then v else cells col !! z'.
Proof.
  unfold colSet. destruct v as [p|]; simpl.
  - rewrite lookup_insert. by repeat case_decide.
  - rewrite lookup_delete. by repeat case_decide.
Qed.

Lemma at3_Some b x y z c :
  at3 b x y z = Some c ↔
  ∃ row col, idx b x = Some row ∧ idx row y = Some col ∧ c = cells col !! z.
Proof.
  unfold at3. split.
  - destruct (idx b x) as [row|] eqn:Hr; [|done]. simpl.
    destruct (idx row y) as [col|] eqn:Hc; [|done]. simpl.
    intros [= <-]. eauto.
  - intros (row & col & -> & Hc & ->). simpl. by rewrite Hc.
Qed.

Lemma set3_Some b x y z v b' :
  set3 b x y z v = Some b' ↔
  ∃ row col, idx b x = Some row ∧ idx row y = Some col ∧
    b' = <[Z.to_nat x := <[Z.to_nat y := colSet col z v]> row]> b.
Proof.
  unfold set3. split.
  - destruct (idx b x) as [row|] eqn:Hr; [|done]. simpl.
    destruct (idx row y) as [col|] eqn:Hc; [|done]. simpl.
    intros [= <-]. eauto.
  - intros (row & col & -> & Hc & ->). simpl. by rewrite Hc.
Qed.

(** Reading after a write: the written cell holds the written value and
    every other cell is as before. *)
Lemma at3_set3 b x y z v b' x' y' z' :
  set3 b x y z v = Some b' →
  at3 b' x' y' z' =
    if decide (x = x' ∧ y = y' ∧ z = z') then Some v else at3 b x' y' z'.
Proof.
  intros (row & col & Hr & Hc & ->)%set3_Some.
  unfold at3. rewrite (idx_insert _ _ x' _ _ Hr).
  destruct (decide (x = x')) as [<-|Hx]; simpl.
  - rewrite Hr. simpl. rewrite (idx_insert _ _ y' _ _ Hc).
    destruct (decide (y = y')) as [<-|Hy]; simpl.
    + rewrite Hc. simpl. pose proof (colSet_lookup col z v z') as Hl.
      unfold colSet in Hl. simpl in Hl. rewrite Hl.
      destruct (decide (z = z')) as [<-|Hz].
      * by rewrite decide_True.
      * rewrite decide_False; [done|]. tauto.
    + rewrite decide_False; [done|]. tauto.
  - rewrite decide_False; [done|]. tauto.
Qed.

(** A write succeeds exactly where a read does. *)
Lemma set3_is_Some b x y z z' v :
  is_Some (at3 b x y z') → is_Some (set3 b x y z v).
Proof.
  intros [c (row & col & Hr & Hc & _)%at3_Some].
  eexists. apply set3_Some. eauto.
Qed.

Lemma idx_fmap {A B} (f : A → B) (l : list A) i :
  idx (map f l) i = f <$> idx l i.
Proof. unfold idx. case_decide; [apply list_lookup_fmap|done]. Qed.

Lemma at3_jsonCopy b x y z :
  at3 (jsonCopy b) x y z =
  row ← idx b x; col ← idx row y; Some (cells (colCopy col) !! z).
Proof.
  unfold at3, jsonCopy. rewrite idx_fmap.
  destruct (idx b x) as [row|]; [|done]. simpl.
  rewrite idx_fmap. by destruct (idx row y).
Qed.

(** The copy holds a piece only where the original holds it. *)
Lemma at3_jsonCopy_piece b x y z p :
  at3 (jsonCopy b) x y z = Some (Some p) → at3 b x y z = Some (Some p).
Proof.
  rewrite at3_jsonCopy. unfold at3.
  destruct (idx b x) as [row|]; [|done]. simpl.
  destruct (idx row y) as [col|]; [|done]. simpl.
  intros [= Hp]. f_equal.
  unfold colCopy in Hp. simpl in Hp.
  by apply map_lookup_filter_Some in Hp as [? _].
Qed.

Lemma at3_jsonCopy_is_Some b x y z z' :
  is_Some (at3 b x y z) → is_Some (at3 (jsonCopy b) x y z').
Proof.
  rewrite at3_jsonCopy. unfold at3.
  destruct (idx b x) as [row|]; [|by intros [? ?]]. simpl.
  destruct (idx row y) as [col|]; [|by intros [? ?]]. simpl. eauto.
Qed.

Lemma colCopy_wf col : wfColumn col → colCopy col = col.
Proof.
  intros [Hlen Hkeys]. destruct col as [m n]. unfold colCopy. simpl in *.
  f_equal. apply map_filter_id. intros k p Hk. simpl.
  rewrite Hlen. eauto.
Qed.

Lemma isWithinBounds_true x y z :
  isWithinBounds x y z = true ↔
  0 ≤ x < SIZE ∧ 0 ≤ y < SIZE ∧ 0 ≤ z < SIZE.
Proof.
  unfold isWithinBounds.
  rewrite !andb_true_iff, !bool_decide_eq_true. tauto.
Qed.

Lemma at3_in_range b x y z :
  dims b → 0 ≤ x < SIZE → 0 ≤ y < SIZE → is_Some (at3 b x y z).
Proof.
  intros [Hl Hrows] Hx Hy.
  destruct (idx_in_range b x) as [row Hr]; [lia|].
  assert (length row = Z.to_nat SIZE) as Hlr.
  { apply idx_Some in Hr as [_ Hr].
    rewrite Forall_forall in Hrows. eapply Hrows.
    by eapply list_elem_of_lookup_2. }
  destruct (idx_in_range row y) as [col Hc]; [lia|].
  eexists. apply at3_Some. eauto.
Qed.

Lemma dims_set3 b x y z v b' :
  dims b → set3 b x y z v = Some b' → dims b'.
Proof.
  intros [Hl Hrows] (row & col & Hr & Hc & ->)%set3_Some. split.
  - by rewrite length_insert.
  - apply Forall_insert; [done|]. rewrite length_insert.
    apply idx_Some in Hr as [_ Hr].
    rewrite Forall_forall in Hrows. eapply Hrows.
    by eapply list_elem_of_lookup_2.
Qed.

Lemma dims_jsonCopy b : dims b → dims (jsonCopy b).
Proof.
  intros [Hl Hrows]. split.
  - unfold jsonCopy. by rewrite length_map.
  - unfold jsonCopy. apply Forall_fmap.
    eapply Forall_impl; [exact Hrows|]. intros row Hrow. simpl.
    by rewrite length_map.
Qed.

Lemma jsonCopy_wf b : wfBoard b → jsonCopy b = b.
Proof.
  intros [_ Hcols]. unfold jsonCopy.
  induction Hcols as [|row b Hrow _ IH]; [done|]. simpl. f_equal; [|done].
  clear IH. induction Hrow as [|col row Hcol _ IH]; [done|].
  simpl. f_equal; [|done]. by apply colCopy_wf.
Qed.

(** ** Move generation *)

Lemma pushAll_elem {A} (body : A → option (list Move.t)) l ms m :
  pushAll body l = Some ms →
  m ∈ ms ↔ ∃ a ms', a ∈ l ∧ body a = Some ms' ∧ m ∈ ms'.
Proof.
  revert ms. induction l as [|a l IH]; intros ms; simpl.
  - intros [= <-]. split; [by intros ?%elem_of_nil|].
    by intros (? & ? & ?%elem_of_nil & _).
  - destruct (body a) as [ms1|] eqn:Ha; [|done]. simpl.
    destruct (pushAll body l) as [rest|]; [|done]. simpl.
    intros [= <-]. rewrite elem_of_app, (IH rest eq_refl). split.
    + intros [Hm|(a' & ms' & Ha' & Hb & Hm)].
      * exists a, ms1. split; [left|]; done.
      * exists a', ms'. split; [by right|]; done.
    + intros (a' & ms' & Ha' & Hb & Hm).
      apply elem_of_cons in Ha' as [->|Ha'].
      * left. congruence.
      * right. eauto.
Qed.

Lemma pushAll_is_Some {A} (body : A → option (list Move.t)) l :
  (∀ a, a ∈ l → is_Some (body a)) → is_Some (pushAll body l).
Proof.
  induction l as [|a l IH]; intros Hall; simpl; [by eexists|].
  destruct (Hall a) as [ms1 ->]; [by left|]. simpl.
  destruct IH as [rest ->]; [|by eexists].
  intros a' Ha'. apply Hall. by right.
Qed.

(** The walk along one ray, from step [k]: a move to step [j] is pushed
    exactly when steps [k..j-1] are empty and step [j] is empty (no
    capture) or holds an opposing piece (capture). *)
Lemma walkRay_elem b p d fuel k ms m :
  walkRay b (Piece.x p) (Piece.y p) (Piece.z p) (Piece.color p) d fuel k
    = Some ms →
  m ∈ ms ↔
  ∃ j x y z, k ≤ j < k + Z.of_nat fuel ∧ onRay p d j x y z ∧
    (∀ i xi yi zi, k ≤ i < j → onRay p d i xi yi zi → emptyAt b xi yi zi) ∧
    ((emptyAt b x y z ∧ m = mkMove x y z false) ∨
     (enemyAt b (Piece.color p) x y z ∧ m = mkMove x y z true)).
Proof.
  destruct d as [[dx dy] dz].
  revert k ms. induction fuel as [|fuel IH]; intros k ms; simpl.
  { intros [= <-]. split; [by intros ?%elem_of_nil|].
    intros (j & ? & ? & ? & ? & _). lia. }
  set (tx := Piece.x p + dx * k). set (ty := Piece.y p + dy * k).
  set (tz := Piece.z p + dz * k).
  assert (onRay p (dx, dy, dz) k tx ty tz) as Hk by done.
  assert (∀ j x y z, k ≤ j < k + Z.of_nat (S fuel) →
            onRay p (dx, dy, dz) j x y z →
            (∀ i xi yi zi, k ≤ i < j → onRay p (dx, dy, dz) i xi yi zi →
                           emptyAt b xi yi zi) →
            j = k ∧ x = tx ∧ y = ty ∧ z = tz ∨
            k + 1 ≤ j < k + 1 + Z.of_nat fuel ∧ emptyAt b tx ty tz)
    as Hsplit.
  { intros j x y z Hj (-> & -> & ->) Hclear.
    destruct (decide (j = k)) as [->|Hne]; [by left|].
    right. split; [lia|]. apply (Hclear k); [lia|done]. }
  destruct (isWithinBounds tx ty tz) eqn:Hin; simpl.
  2:{ intros [= <-]. split; [by intros ?%elem_of_nil|].
      intros (j & x & y & z & Hj & Hray & Hclear & Hland).
      destruct (Hsplit j x y z Hj Hray Hclear)
        as [(-> & -> & -> & ->)|[_ [Hin' _]]]; [|congruence].
      destruct Hland as [[[Hin' _] _]|[[Hin' _] _]]; congruence. }
  destruct (at3 b tx ty tz) as [[q|]|] eqn:Hat; simpl; [| |done].
  - destruct (decide (Piece.color q ≠ Piece.color p)) as [Hc|Hc].
    + intros [= <-]. rewrite list_elem_of_singleton. split.
      * intros ->. exists k, tx, ty, tz. split; [lia|]. split; [done|].
        split; [intros; lia|]. right. split; [|done]. split; [done|]. eauto.
      * intros (j & x & y & z & Hj & Hray & Hclear & Hland).
        destruct (Hsplit j x y z Hj Hray Hclear)
          as [(-> & -> & -> & ->)|[_ [_ He]]]; [|congruence].
        destruct Hland as [[[_ He] _]|[_ ->]]; [congruence|done].
    + intros [= <-]. split; [by intros ?%elem_of_nil|].
      intros (j & x & y & z & Hj & Hray & Hclear & Hland).
      destruct (Hsplit j x y z Hj Hray Hclear)
        as [(-> & -> & -> & ->)|[_ [_ He]]]; [|congruence].
      destruct Hland as [[[_ He] _]|[[_ (q' & Hq' & Hc')] _]]; [congruence|].
      rewrite Hat in Hq'. injection Hq' as <-. done.
  - destruct (walkRay b _ _ _ _ _ fuel (k + 1)) as [rest|] eqn:Hrest;
      [|done]. simpl.
    intros [= <-]. rewrite elem_of_cons, (IH _ _ Hrest). split.
    + intros [->|(j & x & y & z & Hj & Hray & Hclear & Hland)].
      * exists k, tx, ty, tz. split; [lia|]. split; [done|].
        split; [intros; lia|]. left. done.
      * exists j, x, y, z. split; [lia|]. split; [done|]. split; [|done].
        intros i xi yi zi Hi Hri.
        destruct (decide (i = k)) as [->|Hne].
        -- destruct Hri as (-> & -> & ->). done.
        -- apply (Hclear i); [lia|done].
    + intros (j & x & y & z & Hj & Hray & Hclear & Hland).
      destruct (Hsplit j x y z Hj Hray Hclear)
        as [(-> & -> & -> & ->)|[Hj' He]].
      * left. destruct Hland as [[_ ->]|[[_ (q' & Hq' & _)] _]];
          [done|congruence].
      * right. exists j, x, y, z. split; [done|]. split; [done|].
        split; [|done]. intros i xi yi zi Hi. apply Hclear. lia.
Qed.

(** A ray whose squares can all be read is walked to its end. *)
Lemma walkRay_is_Some b sx sy sz color d fuel k :
  dims b → is_Some (walkRay b sx sy sz color d fuel k).
Proof.
  intros Hd. destruct d as [[dx dy] dz].
  revert k. induction fuel as [|fuel IH]; intros k; simpl; [by eexists|].
  destruct (isWithinBounds _ _ _) eqn:Hin; simpl; [|by eexists].
  apply isWithinBounds_true in Hin as (Hx & Hy & Hz).
  destruct (at3_in_range b _ _ (sz + dz * k) Hd Hx Hy) as [c ->]. simpl.
  destruct c as [q|].
  - case_decide; by eexists.
  - destruct (IH (k + 1)) as [rest ->]. by eexists.
Qed.

Lemma calculateValidMoves_sliding p b :
  sliding (Piece.type p) →
  calculateValidMoves p b =
  pushAll (λ d, walkRay b (Piece.x p) (Piece.y p) (Piece.z p)
                  (Piece.color p) d
                  (Z.to_nat (maxDistance (Piece.type p))) 1)
          (rayDirections (Piece.type p)).
Proof.
  unfold calculateValidMoves.
  intros [Ht|[Ht|[Ht|Ht]]]; by rewrite Ht.
Qed.

Lemma rayDirections_unitStep type d :
  d ∈ rayDirections type → unitStep d.
Proof.
  assert (Forall unitStep (rayDirections type)) as Hall.
  { destruct type; apply (bool_decide_unpack _); by vm_compute. }
  rewrite Forall_forall in Hall. apply Hall.
Qed.

(** The rook's six rays, the bishop's twenty, and all 26 for queen and
    king. *)
Lemma rayDirections_spec type d :
  sliding type →
  d ∈ rayDirections type ↔
  unitStep d ∧
  (type = Rook → absSum d = 1) ∧ (type = Bishop → absSum d > 1).
Proof.
  intros Hs. split.
  - intros Hd. split; [by eapply rayDirections_unitStep|].
    revert d Hd. apply Forall_forall.
    destruct Hs as [->|[->|[->| ->]]]; apply (bool_decide_unpack _);
      by vm_compute.
  - destruct d as [[dx dy] dz]. unfold unitStep, absSum. simpl.
    intros ((Hx & Hy & Hz & Hn) & Hr & Hb).
    assert (dx = -1 ∨ dx = 0 ∨ dx = 1) as Hdx by lia.
    assert (dy = -1 ∨ dy = 0 ∨ dy = 1) as Hdy by lia.
    assert (dz = -1 ∨ dz = 0 ∨ dz = 1) as Hdz by lia.
    destruct Hs as [->|[->|[->| ->]]];
      try (specialize (Hr eq_refl)); try (specialize (Hb eq_refl));
      destruct Hdx as [->|[->| ->]], Hdy as [->|[->| ->]],
               Hdz as [->|[->| ->]];
      try (exfalso; simpl in *; lia);
      apply (bool_decide_unpack _); by vm_compute.
Qed.

(** The distance of a target is its largest coordinate offset. *)
Lemma unitStep_distance dx dy dz k :
  unitStep (dx, dy, dz) → 1 ≤ k →
  Z.max (Z.abs (dx * k)) (Z.max (Z.abs (dy * k)) (Z.abs (dz * k))) = k.
Proof.
  unfold unitStep, absSum. simpl. intros (Hx & Hy & Hz & Hn) Hk.
  assert (dx = -1 ∨ dx = 0 ∨ dx = 1) as [-> | [-> | ->]] by lia;
  assert (dy = -1 ∨ dy = 0 ∨ dy = 1) as [-> | [-> | ->]] by lia;
  assert (dz = -1 ∨ dz = 0 ∨ dz = 1) as [-> | [-> | ->]] by lia;
  clear Hx Hy Hz; lia.
Qed.

(** A target determines its ray and its distance. *)
Lemma onRay_unique p d d' k k' x y z :
  unitStep d → unitStep d' → 1 ≤ k → 1 ≤ k' →
  onRay p d k x y z → onRay p d' k' x y z → d = d' ∧ k = k'.
Proof.
  destruct d as [[dx dy] dz], d' as [[dx' dy'] dz'].
  intros Hu Hu' Hk Hk'. unfold onRay. simpl.
  intros (-> & -> & ->) (Ex & Ey & Ez).
  assert (dx * k = dx' * k') as Ex' by lia.
  assert (dy * k = dy' * k') as Ey' by lia.
  assert (dz * k = dz' * k') as Ez' by lia.
  clear Ex Ey Ez.
  pose proof (unitStep_distance dx dy dz k Hu Hk) as Hmax.
  pose proof (unitStep_distance dx' dy' dz' k' Hu' Hk') as Hmax'.
  rewrite Ex', Ey', Ez', Hmax' in Hmax. subst k'.
  split; [|done].
  apply Z.mul_reg_r in Ex'; [|lia].
  apply Z.mul_reg_r in Ey'; [|lia].
  apply Z.mul_reg_r in Ez'; [|lia].
  by subst.
Qed.

(** A walk that starts and ends inside the cube is at most SIZE steps
    long. *)
Lemma walk_within_cube px py pz dx dy dz k :
  -1 ≤ dx ≤ 1 → -1 ≤ dy ≤ 1 → -1 ≤ dz ≤ 1 →
  1 ≤ Z.abs dx + Z.abs dy + Z.abs dz →
  1 ≤ k →
  isWithinBounds (px + dx * 1) (py + dy * 1) (pz + dz * 1) = true →
  isWithinBounds (px + dx * k) (py + dy * k) (pz + dz * k) = true →
  k ≤ SIZE.
Proof.
  rewrite !isWithinBounds_true. unfold SIZE.
  intros Hx Hy Hz Hn Hk H1 Hk'.
  assert (dx = -1 ∨ dx = 0 ∨ dx = 1) as [-> | [-> | ->]] by lia;
  assert (dy = -1 ∨ dy = 0 ∨ dy = 1) as [-> | [-> | ->]] by lia;
  assert (dz = -1 ∨ dz = 0 ∨ dz = 1) as [-> | [-> | ->]] by lia;
  clear Hx Hy Hz; lia.
Qed.

(** The ray walk in coordinates: the rays of a piece are the non-zero
    vectors of the 3x3x3 neighbourhood, with one non-zero axis for the
    Rook and more than one for the Bishop; the walk is cut at one step
    for the King and by the cube alone for the others. *)
Lemma ray_walk_in_coordinates p b m :
  sliding (Piece.type p) →
  (∃ d k x y z,
     d ∈ rayDirections (Piece.type p) ∧
     1 ≤ k ≤ maxDistance (Piece.type p) ∧
     onRay p d k x y z ∧
     (∀ i xi yi zi, 1 ≤ i < k → onRay p d i xi yi zi → emptyAt b xi yi zi) ∧
     ((emptyAt b x y z ∧ m = mkMove x y z false) ∨
      (enemyAt b (Piece.color p) x y z ∧ m = mkMove x y z true))) ↔
  (∃ dx dy dz k,
     -1 ≤ dx ≤ 1 ∧ -1 ≤ dy ≤ 1 ∧ -1 ≤ dz ≤ 1 ∧
     1 ≤ Z.abs dx + Z.abs dy + Z.abs dz ∧
     (Piece.type p = Rook → Z.abs dx + Z.abs dy + Z.abs dz = 1) ∧
     (Piece.type p = Bishop → 1 < Z.abs dx + Z.abs dy + Z.abs dz) ∧
     1 ≤ k ∧ (Piece.type p = King → k = 1) ∧
     (∀ i, 1 ≤ i < k →
        emptyAt b (Piece.x p + dx * i) (Piece.y p + dy * i)
                  (Piece.z p + dz * i)) ∧
     ((emptyAt b (Piece.x p + dx * k) (Piece.y p + dy * k)
                 (Piece.z p + dz * k) ∧
       m = mkMove (Piece.x p + dx * k) (Piece.y p + dy * k)
                  (Piece.z p + dz * k) false) ∨
      (enemyAt b (Piece.color p) (Piece.x p + dx * k) (Piece.y p + dy * k)
                 (Piece.z p + dz * k) ∧
       m = mkMove (Piece.x p + dx * k) (Piece.y p + dy * k)
                  (Piece.z p + dz * k) true))).
Proof.
  intros Hs. split.
  - intros ([[dx dy] dz] & k & x & y & z & Hin & Hk & Hray & Hclear & Hland).
    apply (rayDirections_spec _ _ Hs) in Hin as (Hu & Hr & Hb).
    unfold unitStep, absSum in Hu, Hr, Hb. simpl in Hu, Hr, Hb.
    destruct Hu as (Hx & Hy & Hz & Hn).
    unfold onRay in Hray. simpl in Hray. destruct Hray as (-> & -> & ->).
    exists dx, dy, dz, k.
    split; [exact Hx|]. split; [exact Hy|]. split; [exact Hz|].
    split; [exact Hn|]. split; [exact Hr|].
    split; [intros Ht; specialize (Hb Ht); lia|].
    split; [lia|]. split.
    { intros Hking. rewrite Hking in Hk. unfold maxDistance in Hk.
      rewrite decide_True in Hk by done. lia. }
    split; [|exact Hland].
    intros i Hi. by apply (Hclear i).
  - intros (dx & dy & dz & k & Hx & Hy & Hz & Hn & Hr & Hb & Hk & Hking
            & Hclear & Hland).
    exists (dx, dy, dz), k, (Piece.x p + dx * k), (Piece.y p + dy * k),
           (Piece.z p + dz * k).
    split.
    { apply (rayDirections_spec _ _ Hs). unfold unitStep, absSum. simpl.
      split; [done|]. split; [exact Hr|].
      intros Ht. specialize (Hb Ht). lia. }
    split.
    { split; [exact Hk|]. unfold maxDistance.
      destruct (decide (Piece.type p = King)) as [Ht|Ht].
      { rewrite (Hking Ht). lia. }
      destruct (decide (k = 1)) as [->|Hk1]; [unfold SIZE; lia|].
      apply (walk_within_cube (Piece.x p) (Piece.y p) (Piece.z p)
               dx dy dz k Hx Hy Hz Hn Hk).
      - destruct (Hclear 1) as [Hin _]; [lia|exact Hin].
      - destruct Hland as [[[Hin _] _]|[[Hin _] _]]; exact Hin. }
    split; [done|]. split; [|exact Hland].
    intros i xi yi zi Hi (-> & -> & ->). by apply Hclear.
Qed.

(** C1. For a Rook, Bishop, Queen or King on a board of SIZE x SIZE
    columns, calculateValidMoves returns exactly the moves of the ray
    walk.  The rays are the non-zero vectors (dx, dy, dz) with
    coordinates in -1..1: the 6 with one non-zero axis for the Rook, the
    20 with more than one for the Bishop, all 26 for Queen and King.  A
    move to the k-th square of a ray (k >= 1, and k = 1 for the King;
    for the others only the cube bounds k) is generated iff squares
    1..k-1 of the ray are inside the cube and empty and square k is
    inside the cube and either empty (then capture = false) or holds an
    opposing piece (then capture = true): the walk goes on over empty
    squares as far as the cube reaches, and nothing is generated on or
    behind an own piece, behind a capture, or outside the cube.  Every
    King move is to a neighbouring square.  Consequently a generated move
    at distance k > 1 along a ray has only empty squares before it on
    that ray. *)
Theorem sliding_moves_walk_rays (p : Piece.t) (b : BoardState) :
  sliding (Piece.type p) →
  dims b →
  ∃ ms, calculateValidMoves p b = Some ms ∧
    (∀ m, m ∈ ms ↔
       ∃ dx dy dz k,
         -1 ≤ dx ≤ 1 ∧ -1 ≤ dy ≤ 1 ∧ -1 ≤ dz ≤ 1 ∧
         1 ≤ Z.abs dx + Z.abs dy + Z.abs dz ∧
         (Piece.type p = Rook → Z.abs dx + Z.abs dy + Z.abs dz = 1) ∧
         (Piece.type p = Bishop → 1 < Z.abs dx + Z.abs dy + Z.abs dz) ∧
         1 ≤ k ∧ (Piece.type p = King → k = 1) ∧
         (∀ i, 1 ≤ i < k →
            emptyAt b (Piece.x p + dx * i) (Piece.y p + dy * i)
                      (Piece.z p + dz * i)) ∧
         ((emptyAt b (Piece.x p + dx * k) (Piece.y p + dy * k)
                     (Piece.z p + dz * k) ∧
           m = mkMove (Piece.x p + dx * k) (Piece.y p + dy * k)
                      (Piece.z p + dz * k) false) ∨
          (enemyAt b (Piece.color p) (Piece.x p + dx * k)
                     (Piece.y p + dy * k) (Piece.z p + dz * k) ∧
           m = mkMove (Piece.x p + dx * k) (Piece.y p + dy * k)
                      (Piece.z p + dz * k) true))) ∧
    (Piece.type p = King →
       ∀ m, m ∈ ms →
         Z.abs (Move.x m - Piece.x p) ≤ 1 ∧
         Z.abs (Move.y m - Piece.y p) ≤ 1 ∧
         Z.abs (Move.z m - Piece.z p) ≤ 1) ∧
    (∀ m dx dy dz k, m ∈ ms →
       -1 ≤ dx ≤ 1 → -1 ≤ dy ≤ 1 → -1 ≤ dz ≤ 1 →
       1 ≤ Z.abs dx + Z.abs dy + Z.abs dz →
       1 < k →
       Move.x m = Piece.x p + dx * k →
       Move.y m = Piece.y p + dy * k →
       Move.z m = Piece.z p + dz * k →
       ∀ i, 1 ≤ i < k →
         emptyAt b (Piece.x p + dx * i) (Piece.y p + dy * i)
                   (Piece.z p + dz * i)).
Proof.
  intros Hs Hd.
  rewrite (calculateValidMoves_sliding p b Hs).
  destruct (pushAll_is_Some
              (λ d, walkRay b (Piece.x p) (Piece.y p) (Piece.z p)
                      (Piece.color p) d
                      (Z.to_nat (maxDistance (Piece.type p))) 1)
              (rayDirections (Piece.type p))) as [ms Hms].
  { intros d _. by apply walkRay_is_Some. }
  exists ms. split; [done|].
  assert (0 ≤ maxDistance (Piece.type p)) as Hmax.
  { unfold maxDistance, SIZE. case_decide; lia. }
  assert (∀ m, m ∈ ms ↔
       ∃ d k x y z,
         d ∈ rayDirections (Piece.type p) ∧
         1 ≤ k ≤ maxDistance (Piece.type p) ∧
         onRay p d k x y z ∧
         (∀ i xi yi zi, 1 ≤ i < k → onRay p d i xi yi zi →
                        emptyAt b xi yi zi) ∧
         ((emptyAt b x y z ∧ m = mkMove x y z false) ∨
          (enemyAt b (Piece.color p) x y z ∧ m = mkMove x y z true)))
    as Hchar.
  { intros m. rewrite (pushAll_elem _ _ _ m Hms). split.
    - intros (d & ms' & Hin & Hw & Hm).
      apply (walkRay_elem b p d _ 1 ms' m Hw) in Hm
        as (j & x & y & z & Hj & Hray & Hclear & Hland).
      exists d, j, x, y, z. split; [done|]. split; [lia|]. done.
    - intros (d & k & x & y & z & Hin & Hk & Hray & Hclear & Hland).
      destruct (walkRay_is_Some b (Piece.x p) (Piece.y p) (Piece.z p)
                  (Piece.color p) d
                  (Z.to_nat (maxDistance (Piece.type p))) 1 Hd)
        as [ms' Hw].
      exists d, ms'. split; [done|]. split; [done|].
      apply (walkRay_elem b p d _ 1 ms' m Hw).
      exists k, x, y, z. split; [lia|]. done. }
  split.
  { intros m. rewrite (Hchar m). by apply ray_walk_in_coordinates. }
  split.
  - intros Hking m (d & k & x & y & z & Hin & Hk & Hray & _ & Hland)%Hchar.
    rewrite Hking in Hk. unfold maxDistance in Hk.
    rewrite decide_True in Hk by done.
    assert (k = 1) as -> by lia.
    apply rayDirections_unitStep in Hin.
    destruct d as [[dx dy] dz]. unfold unitStep in Hin. simpl in Hin.
    unfold onRay in Hray. simpl in Hray. destruct Hray as (-> & -> & ->).
    assert (Move.x m = Piece.x p + dx * 1 ∧ Move.y m = Piece.y p + dy * 1 ∧
            Move.z m = Piece.z p + dz * 1) as (-> & -> & ->).
    { by destruct Hland as [[_ ->]|[_ ->]]. }
    clear Hland Hchar Hms. lia.
  - intros m dx dy dz k
      (d' & k' & x & y & z & Hin' & Hk' & Hray' & Hclear & Hland)%Hchar
      Hx Hy Hz Hn Hk Ex Ey Ez i Hi.
    assert (Move.x m = x ∧ Move.y m = y ∧ Move.z m = z) as (Ex' & Ey' & Ez').
    { by destruct Hland as [[_ ->]|[_ ->]]. }
    destruct (onRay_unique p (dx, dy, dz) d' k k' x y z) as [<- <-].
    + unfold unitStep, absSum. simpl. done.
    + by eapply rayDirections_unitStep.
    + lia.
    + lia.
    + unfold onRay. simpl. rewrite <- Ex', <- Ey', <- Ez'. done.
    + exact Hray'.
    + by apply (Hclear i).
Qed.

(** ** Pawn and knight moves *)

Lemma pawnForward_elem b sx sy sz color ms m :
  pawnForward b sx sy sz color = Some ms →
  m ∈ ms ↔
  (emptyAt b sx sy (sz + zDirOf color) ∧
   m = mkMove sx sy (sz + zDirOf color) false) ∨
  (sz = startLayerOf color ∧
   emptyAt b sx sy (sz + zDirOf color) ∧
   emptyAt b sx sy (sz + zDirOf color * 2) ∧
   m = mkMove sx sy (sz + zDirOf color * 2) false).
Proof.
  unfold pawnForward, emptyAt.
  destruct (isWithinBounds sx sy (sz + zDirOf color)) eqn:Hin1; simpl.
  2:{ intros [= <-]. split; [by intros ?%elem_of_nil|].
      intros [[[? _] _]|(_ & [? _] & _)]; congruence. }
  destruct (at3 b sx sy (sz + zDirOf color)) as [[q|]|] eqn:H1; simpl;
    [| |done].
  { intros [= <-]. split; [by intros ?%elem_of_nil|].
    intros [[[_ ?] _]|(_ & [_ ?] & _)]; congruence. }
  case_decide as Hstart.
  2:{ intros [= <-]. rewrite list_elem_of_singleton. split.
      - intros ->. by left.
      - intros [[_ ->]|(? & _)]; done. }
  destruct (isWithinBounds sx sy (sz + zDirOf color * 2)) eqn:Hin2; simpl.
  2:{ intros [= <-]. rewrite list_elem_of_singleton. split.
      - intros ->. by left.
      - intros [[_ ->]|(_ & _ & [? _] & _)]; [done|congruence]. }
  destruct (at3 b sx sy (sz + zDirOf color * 2)) as [[q|]|] eqn:H2; simpl;
    [| |done].
  - intros [= <-]. rewrite list_elem_of_singleton. split.
    + intros ->. by left.
    + intros [[_ ->]|(_ & _ & [_ ?] & _)]; [done|congruence].
  - intros [= <-]. rewrite elem_of_cons, list_elem_of_singleton. split.
    + intros [-> | ->]; [by left|by right].
    + intros [[_ ->]|(_ & _ & _ & ->)]; [by left|by right].
Qed.

Lemma pawnForward_is_Some b sx sy sz color :
  dims b → is_Some (pawnForward b sx sy sz color).
Proof.
  intros Hd. unfold pawnForward.
  destruct (isWithinBounds _ _ _) eqn:Hin1; simpl; [|by eexists].
  apply isWithinBounds_true in Hin1 as (Hx & Hy & _).
  destruct (at3_in_range b sx sy (sz + zDirOf color) Hd Hx Hy) as [c ->].
  simpl. destruct c; [by eexists|].
  case_decide; [|by eexists].
  destruct (isWithinBounds _ _ _); simpl; [|by eexists].
  destruct (at3_in_range b sx sy (sz + zDirOf color * 2) Hd Hx Hy)
    as [c ->].
  simpl. destruct c; by eexists.
Qed.

(** One offset of a capture or leap loop: what is pushed for a square
    holding an opposing piece, and (for the knight) for an empty one. *)
Lemma pawnCapture_elem b sx sy sz color d ms m :
  pawnCapture b sx sy sz color d = Some ms →
  m ∈ ms ↔
  enemyAt b color (sx + d.1.1) (sy + d.1.2) (sz + d.2) ∧
  m = mkMove (sx + d.1.1) (sy + d.1.2) (sz + d.2) true.
Proof.
  destruct d as [[dx dy] dz]. unfold pawnCapture, enemyAt. simpl.
  destruct (isWithinBounds _ _ _) eqn:Hin; simpl.
  2:{ intros [= <-]. split; [by intros ?%elem_of_nil|].
      intros [[? _] _]; congruence. }
  destruct (at3 b _ _ _) as [[q|]|] eqn:Hat; simpl; [| |done].
  - case_decide as Hc; intros [= <-].
    + rewrite list_elem_of_singleton. split; [|by intros [_ ->]].
      intros ->. eauto.
    + split; [by intros ?%elem_of_nil|].
      intros [[_ (q' & [= <-] & ?)] _]. done.
  - intros [= <-]. split; [by intros ?%elem_of_nil|].
    intros [[_ (q' & ? & _)] _]. congruence.
Qed.

Lemma knightLeap_elem b sx sy sz color d ms m :
  knightLeap b sx sy sz color d = Some ms →
  m ∈ ms ↔
  (emptyAt b (sx + d.1.1) (sy + d.1.2) (sz + d.2) ∧
   m = mkMove (sx + d.1.1) (sy + d.1.2) (sz + d.2) false) ∨
  (enemyAt b color (sx + d.1.1) (sy + d.1.2) (sz + d.2) ∧
   m = mkMove (sx + d.1.1) (sy + d.1.2) (sz + d.2) true).
Proof.
  destruct d as [[dx dy] dz]. unfold knightLeap, enemyAt, emptyAt. simpl.
  destruct (isWithinBounds _ _ _) eqn:Hin; simpl.
  2:{ intros [= <-]. split; [by intros ?%elem_of_nil|].
      intros [[[? _] _]|[[? _] _]]; congruence. }
  destruct (at3 b _ _ _) as [[q|]|] eqn:Hat; simpl; [| |done].
  - case_decide as Hc; intros [= <-].
    + rewrite list_elem_of_singleton. split.
      * intros ->. right. eauto.
      * intros [[[_ ?] _]|[_ ->]]; [congruence|done].
    + split; [by intros ?%elem_of_nil|].
      intros [[[_ ?] _]|[[_ (q' & [= <-] & ?)] _]]; [congruence|done].
  - intros [= <-]. rewrite list_elem_of_singleton. split.
    + intros ->. by left.
    + intros [[_ ->]|[[_ (q' & ? & _)] _]]; [done|congruence].
Qed.

Lemma pawnCapture_is_Some b sx sy sz color d :
  dims b → is_Some (pawnCapture b sx sy sz color d).
Proof.
  intros Hd. destruct d as [[dx dy] dz]. unfold pawnCapture.
  destruct (isWithinBounds _ _ _) eqn:Hin; simpl; [|by eexists].
  apply isWithinBounds_true in Hin as (Hx & Hy & _).
  destruct (at3_in_range b _ _ (sz + dz) Hd Hx Hy) as [c ->]. simpl.
  destruct c; [case_decide|]; by eexists.
Qed.

Lemma knightLeap_is_Some b sx sy sz color d :
  dims b → is_Some (knightLeap b sx sy sz color d).
Proof.
  intros Hd. destruct d as [[dx dy] dz]. unfold knightLeap.
  destruct (isWithinBounds _ _ _) eqn:Hin; simpl; [|by eexists].
  apply isWithinBounds_true in Hin as (Hx & Hy & _).
  destruct (at3_in_range b _ _ (sz + dz) Hd Hx Hy) as [c ->]. simpl.
  destruct c; [case_decide|]; by eexists.
Qed.

Lemma threeDDirections_elem zDir d :
  d ∈ threeDDirections zDir ↔
  -1 ≤ d.1.1 ≤ 1 ∧ -1 ≤ d.1.2 ≤ 1 ∧ ¬ (d.1.1 = 0 ∧ d.1.2 = 0) ∧ d.2 = zDir.
Proof.
  destruct d as [[dx dy] dz].
  change (threeDDirections zDir) with
    [(-1, -1, zDir); (-1, 0, zDir); (-1, 1, zDir); (0, -1, zDir);
     (0, 1, zDir); (1, -1, zDir); (1, 0, zDir); (1, 1, zDir)].
  rewrite !elem_of_cons, elem_of_nil. simpl. split.
  - intros Hd. repeat destruct Hd as [Hd|Hd]; try done;
      injection Hd as -> -> ->; lia.
  - intros (Hx & Hy & Hn & ->).
    assert (dx = -1 ∨ dx = 0 ∨ dx = 1) as [-> | [-> | ->]] by lia;
    assert (dy = -1 ∨ dy = 0 ∨ dy = 1) as [-> | [-> | ->]] by lia;
    tauto.
Qed.

(** All the moves of a pawn. *)
Lemma pawn_moves_elem p b ms m :
  Piece.type p = Pawn →
  calculateValidMoves p b = Some ms →
  m ∈ ms ↔
  (∃ fwd, pawnForward b (Piece.x p) (Piece.y p) (Piece.z p) (Piece.color p)
            = Some fwd ∧ m ∈ fwd) ∨
  (∃ dx dy,
     -1 ≤ dx ≤ 1 ∧ -1 ≤ dy ≤ 1 ∧ ¬ (dx = 0 ∧ dy = 0) ∧
     enemyAt b (Piece.color p) (Piece.x p + dx) (Piece.y p + dy)
             (Piece.z p + zDirOf (Piece.color p)) ∧
     m = mkMove (Piece.x p + dx) (Piece.y p + dy)
                (Piece.z p + zDirOf (Piece.color p)) true).
Proof.
  intros Ht. unfold calculateValidMoves. rewrite Ht.
  remember (threeDDirections (zDirOf (Piece.color p))) as dirs eqn:Hdirs.
  destruct (pawnForward _ _ _ _ _) as [fwd|] eqn:Hf; [|done]. simpl.
  destruct (pushAll _ dirs) as [caps|] eqn:Hc; [|done]. simpl.
  intros [= <-]. rewrite elem_of_app, (pushAll_elem _ _ _ m Hc).
  subst dirs.
  split.
  - intros [Hm|(d & ms' & Hd & Hb & Hm)]; [left; eauto|right].
    apply threeDDirections_elem in Hd as (Hx & Hy & Hn & Hz).
    apply (pawnCapture_elem _ _ _ _ _ _ _ _ Hb) in Hm as [He ->].
    exists d.1.1, d.1.2. rewrite Hz in *. done.
  - intros [(fwd' & [= <-] & Hm)|(dx & dy & Hx & Hy & Hn & He & ->)];
      [by left|right].
    destruct (pawnCapture b (Piece.x p) (Piece.y p) (Piece.z p)
                (Piece.color p) (dx, dy, zDirOf (Piece.color p)))
      as [ms'|] eqn:Hb.
    + exists (dx, dy, zDirOf (Piece.color p)), ms'.
      split; [by apply threeDDirections_elem|]. split; [done|].
      by apply (pawnCapture_elem _ _ _ _ _ _ _ _ Hb).
    + exfalso. destruct He as [Hin (q & Hq & _)].
      unfold pawnCapture in Hb. rewrite Hin, Hq in Hb. simpl in Hb.
      by case_decide.
Qed.

Lemma calculateValidMoves_is_Some p b :
  dims b → is_Some (calculateValidMoves p b).
Proof.
  intros Hd. unfold calculateValidMoves.
  assert (∀ type, is_Some
    (pushAll (λ d, walkRay b (Piece.x p) (Piece.y p) (Piece.z p)
                     (Piece.color p) d (Z.to_nat (maxDistance type)) 1)
             (rayDirections type))) as Hrays.
  { intros type. apply pushAll_is_Some. intros d _.
    by apply walkRay_is_Some. }
  destruct (Piece.type p); try apply Hrays.
  - destruct (pawnForward_is_Some b (Piece.x p) (Piece.y p) (Piece.z p)
                (Piece.color p) Hd) as [fwd ->].
    destruct (pushAll_is_Some
                (pawnCapture b (Piece.x p) (Piece.y p) (Piece.z p)
                   (Piece.color p))
                (threeDDirections (zDirOf (Piece.color p)))) as [caps ->].
    + intros d _. by apply pawnCapture_is_Some.
    + by eexists.
  - apply pushAll_is_Some. intros d _. by apply knightLeap_is_Some.
Qed.

(** Every generated move is an object literal without castle tag, to a
    square inside the cube that the generator has read. *)
Lemma moves_shape p b ms m :
  calculateValidMoves p b = Some ms → m ∈ ms →
  ∃ x y z capture,
    m = mkMove x y z capture ∧ isWithinBounds x y z = true ∧
    is_Some (at3 b x y z).
Proof.
  assert (∀ x y z, emptyAt b x y z →
            isWithinBounds x y z = true ∧ is_Some (at3 b x y z)) as Hempty.
  { intros x y z [Hin Hat]. split; [done|]. by eexists. }
  assert (∀ c x y z, enemyAt b c x y z →
            isWithinBounds x y z = true ∧ is_Some (at3 b x y z)) as Henemy.
  { intros c x y z [Hin (q & Hat & _)]. split; [done|]. by eexists. }
  assert (∀ type,
    pushAll (λ d, walkRay b (Piece.x p) (Piece.y p) (Piece.z p)
                    (Piece.color p) d (Z.to_nat (maxDistance type)) 1)
            (rayDirections type) = Some ms → m ∈ ms →
    ∃ x y z capture,
      m = mkMove x y z capture ∧ isWithinBounds x y z = true ∧
      is_Some (at3 b x y z)) as Hrays.
  { intros type Hms (d & ms' & _ & Hw & Hm)%(pushAll_elem _ _ _ m Hms).
    apply (walkRay_elem b p d _ 1 ms' m Hw) in Hm
      as (j & x & y & z & _ & _ & _ & [[He ->]|[He ->]]).
    - exists x, y, z, false. split; [done|]. by apply Hempty.
    - exists x, y, z, true. split; [done|]. by eapply Henemy. }
  destruct (Piece.type p) eqn:Ht;
    try (unfold calculateValidMoves; rewrite Ht; apply Hrays).
  - intros Hms Hm. apply (pawn_moves_elem p b ms m Ht Hms) in Hm
      as [(fwd & Hf & Hm)|(dx & dy & _ & _ & _ & He & ->)].
    + apply (pawnForward_elem _ _ _ _ _ _ _ Hf) in Hm
        as [[He ->]|(_ & _ & He & ->)].
      * eexists _, _, _, _. split; [done|]. by apply Hempty.
      * eexists _, _, _, _. split; [done|]. by apply Hempty.
    + eexists _, _, _, _. split; [done|]. by eapply Henemy.
  - unfold calculateValidMoves. rewrite Ht.
    intros Hms (d & ms' & _ & Hk & Hm)%(pushAll_elem _ _ _ m Hms).
    apply (knightLeap_elem _ _ _ _ _ _ _ _ Hk) in Hm as [[He ->]|[He ->]].
    + eexists _, _, _, _. split; [done|]. by apply Hempty.
    + eexists _, _, _, _. split; [done|]. by eapply Henemy.
Qed.



(** C9. For every piece of every role and every board, every move that
    calculateValidMoves returns has its three coordinates in [0, SIZE),
    SIZE = 8, and the board can be indexed at that target (the read
    [boardState[x][y][z]] does not raise); on a board of SIZE x SIZE
    columns calculateValidMoves does return. *)
Theorem generated_moves_within_bounds (p : Piece.t) (b : BoardState) :
  (dims b → is_Some (calculateValidMoves p b)) ∧
  ∀ ms m,
    calculateValidMoves p b = Some ms → m ∈ ms →
    (0 ≤ Move.x m < 8 ∧ 0 ≤ Move.y m < 8 ∧ 0 ≤ Move.z m < 8) ∧
    isWithinBounds (Move.x m) (Move.y m) (Move.z m) = true ∧
    is_Some (at3 b (Move.x m) (Move.y m) (Move.z m)).
Proof.
  split; [apply calculateValidMoves_is_Some|].
  intros ms m Hms Hm.
  destruct (moves_shape p b ms m Hms Hm)
    as (x & y & z & capture & -> & Hin & Hat).
  simpl. split; [|done]. by apply isWithinBounds_true.
Qed.

(** C10. For every piece and every board, no move returned by
    calculateValidMoves carries a castle tag; hence move application with
    a generated move never enters the rook-relocation branch: whatever
    the copied board, the piece and the target, its board writes are the
    two writes of a plain move. *)
Theorem generated_moves_have_no_castle_tag (p : Piece.t) (b : BoardState) :
  (dims b → is_Some (calculateValidMoves p b)) ∧
  ∀ ms m,
    calculateValidMoves p b = Some ms → m ∈ ms →
    Move.castle m = None ∧
    ∀ nb piece targetX targetY targetZ,
      writeMove nb piece targetX targetY targetZ m =
      plainWrites nb piece targetX targetY targetZ.
Proof.
  split; [apply calculateValidMoves_is_Some|].
  intros ms m Hms Hm.
  destruct (moves_shape p b ms m Hms Hm)
    as (x & y & z & capture & -> & _ & _).
  split; [done|]. intros nb piece tx ty tz.
  unfold writeMove, plainWrites. simpl.
  destruct (set3 nb _ _ _ None) as [nb1|]; [|done]. simpl.
  by destruct (set3 nb1 _ _ _ _).
Qed.

(** ** The starting layout *)

Lemma cubeAll_true f x y z :
  cubeAll f = true →
  0 ≤ x < SIZE → 0 ≤ y < SIZE → 0 ≤ z < SIZE → f x y z = true.
Proof.
  unfold cubeAll, upto. rewrite forallb_forall. intros Hf Hx Hy Hz.
  specialize (Hf x). rewrite forallb_forall in Hf.
  specialize (Hf ltac:(apply list_elem_of_In, elem_of_seqZ; lia) y).
  rewrite forallb_forall in Hf.
  apply Hf; apply list_elem_of_In, elem_of_seqZ; lia.
Qed.

Lemma initializeBoardState_value u : initializeBoardState u = Some startBoard.
Proof. destruct u. vm_compute. reflexivity. Qed.

Lemma startBoard_wf : wfBoard startBoard.
Proof. apply (bool_decide_unpack _). by vm_compute. Qed.

Lemma startBoard_cells :
  cubeAll (λ x y z,
    bool_decide (at3 startBoard x y z = Some (startingCell x y z))) = true.
Proof. by vm_compute. Qed.

(** On a well-formed board pieces only sit inside the cube. *)
Lemma wfBoard_piece_in_range b x y z p :
  wfBoard b → at3 b x y z = Some (Some p) →
  0 ≤ x < SIZE ∧ 0 ≤ y < SIZE ∧ 0 ≤ z < SIZE.
Proof.
  intros [[Hl Hrows] Hcols] (row & col & Hr & Hc & Hp)%at3_Some.
  apply idx_Some in Hr as [Hx Hr]. apply idx_Some in Hc as [Hy Hc].
  pose proof (lookup_lt_Some _ _ _ Hr) as Hlx.
  rewrite Forall_forall in Hrows.
  pose proof (Hrows row (list_elem_of_lookup_2 _ _ _ Hr)) as Hlr.
  pose proof (lookup_lt_Some _ _ _ Hc) as Hly.
  rewrite Forall_forall in Hcols.
  pose proof (Hcols row (list_elem_of_lookup_2 _ _ _ Hr)) as Hwr.
  rewrite Forall_forall in Hwr.
  destruct (Hwr col (list_elem_of_lookup_2 _ _ _ Hc)) as [_ Hkeys].
  split; [lia|]. split; [lia|]. by eapply Hkeys.
Qed.

(** C4. initializeBoardState takes no input and draws no randomness, so
    every call returns the same board: SIZE x SIZE columns of SIZE cells
    where layers z = 0 and z = 7 hold the fixed major-piece pattern,
    layers z = 1 and z = 6 hold a pawn on every square, layers z = 2..5
    are empty, every piece on layers 0-1 is White and every piece on
    layers 6-7 is Black, every piece has hasMoved = false (and stores
    the coordinates of its cell). *)
Theorem initial_board_layout :
  ∃ b, (∀ u, initializeBoardState u = Some b) ∧
    wfBoard b ∧
    (∀ x y z, 0 ≤ x < SIZE → 0 ≤ y < SIZE → 0 ≤ z < SIZE →
       at3 b x y z = Some (startingCell x y z)) ∧
    (∀ x y z p, at3 b x y z = Some (Some p) →
       Piece.hasMoved p = false ∧
       (z = 0 ∨ z = 1 ∨ z = 6 ∨ z = 7) ∧
       (z = 1 ∨ z = 6 → Piece.type p = Pawn) ∧
       (Piece.color p = white ↔ z = 0 ∨ z = 1) ∧
       (Piece.color p = black ↔ z = 6 ∨ z = 7)) ∧
    (∀ x y z, 0 ≤ x < SIZE → 0 ≤ y < SIZE → 2 ≤ z ≤ 5 →
       at3 b x y z = Some None) ∧
    (∀ x y z, 0 ≤ x < SIZE → 0 ≤ y < SIZE → z = 1 ∨ z = 6 →
       ∃ p, at3 b x y z = Some (Some p) ∧ Piece.type p = Pawn).
Proof.
  exists startBoard.
  pose proof startBoard_wf as Hwf.
  assert (∀ x y z, 0 ≤ x < SIZE → 0 ≤ y < SIZE → 0 ≤ z < SIZE →
            at3 startBoard x y z = Some (startingCell x y z)) as Hcells.
  { intros x y z Hx Hy Hz.
    pose proof (cubeAll_true _ x y z startBoard_cells Hx Hy Hz) as Hc.
    by apply bool_decide_eq_true in Hc. }
  split; [apply initializeBoardState_value|]. split; [done|]. split; [done|].
  split; [|split].
  - intros x y z p Hp.
    destruct (wfBoard_piece_in_range _ x y z p Hwf Hp) as (Hx & Hy & Hz).
    rewrite (Hcells x y z Hx Hy Hz) in Hp. injection Hp as Hp.
    unfold startingCell in Hp.
    repeat case_decide; try done; subst z;
      repeat match type of Hp with
      | (?o ≫= _) = Some _ => destruct o; simpl in Hp; [|done]
      end;
      injection Hp as <-; simpl; repeat split; intros; (done || lia).
  - intros x y z Hx Hy Hz. rewrite Hcells by (unfold SIZE in *; lia).
    unfold startingCell. repeat case_decide; try lia. done.
  - intros x y z Hx Hy Hz. rewrite Hcells by (unfold SIZE in *; lia).
    unfold startingCell.
    destruct Hz as [-> | ->]; repeat case_decide; try lia; by eexists.
Qed.

(** ** The board invariant *)

Lemma boardInv_jsonCopy b : boardInv b → boardInv (jsonCopy b).
Proof. intros Hb x y z p Hp. by apply Hb, at3_jsonCopy_piece. Qed.

Lemma boardInv_set3 b x y z v b' :
  boardInv b → set3 b x y z v = Some b' →
  (∀ p, v = Some p → Piece.x p = x ∧ Piece.y p = y ∧ Piece.z p = z) →
  boardInv b'.
Proof.
  intros Hb Hset Hv x' y' z' p. rewrite (at3_set3 _ _ _ _ _ _ _ _ _ Hset).
  case_decide as Heq.
  - destruct Heq as (<- & <- & <-). intros [= ->]. by apply Hv.
  - apply Hb.
Qed.

Lemma boardInv_relocateRook nb edgeX newX targetY targetZ nb' :
  boardInv nb →
  relocateRook nb edgeX newX targetY targetZ = Some nb' →
  boardInv nb'.
Proof.
  intros Hb. unfold relocateRook.
  destruct (at3 nb edgeX targetY targetZ) as [[r|]|] eqn:Hr; simpl;
    [| by intros [= <-] | done].
  destruct (set3 nb edgeX targetY targetZ None) as [nb1|] eqn:H1;
    [|done]. simpl.
  intros H2.
  destruct (Hb _ _ _ _ Hr) as (_ & Hy & Hz).
  eapply boardInv_set3; [|exact H2|].
  - eapply boardInv_set3; [exact Hb|exact H1|done].
  - by intros p [= <-].
Qed.

Lemma boardInv_writeMove nb piece targetX targetY targetZ move nb' :
  boardInv nb →
  writeMove nb piece targetX targetY targetZ move = Some nb' →
  boardInv nb'.
Proof.
  intros Hb. unfold writeMove.
  destruct (set3 nb _ _ _ None) as [nb1|] eqn:H1; [|done]. simpl.
  destruct (set3 nb1 _ _ _ _) as [nb2|] eqn:H2; [|done]. simpl.
  assert (boardInv nb2) as Hb2.
  { eapply boardInv_set3; [|exact H2|by intros p [= <-]].
    eapply boardInv_set3; [exact Hb|exact H1|done]. }
  destruct (Move.castle move) as [[|]|].
  - by apply boardInv_relocateRook.
  - by apply boardInv_relocateRook.
  - by intros [= <-].
Qed.

Lemma dims_relocateRook nb edgeX newX targetY targetZ nb' :
  dims nb → relocateRook nb edgeX newX targetY targetZ = Some nb' →
  dims nb'.
Proof.
  intros Hd. unfold relocateRook.
  destruct (at3 nb edgeX targetY targetZ) as [[r|]|]; simpl;
    [| by intros [= <-] | done].
  destruct (set3 nb edgeX targetY targetZ None) as [nb1|] eqn:H1;
    [|done]. simpl.
  intros H2. eapply dims_set3; [|exact H2]. by eapply dims_set3.
Qed.

Lemma dims_writeMove nb piece targetX targetY targetZ move nb' :
  dims nb → writeMove nb piece targetX targetY targetZ move = Some nb' →
  dims nb'.
Proof.
  intros Hd. unfold writeMove.
  destruct (set3 nb _ _ _ None) as [nb1|] eqn:H1; [|done]. simpl.
  destruct (set3 nb1 _ _ _ _) as [nb2|] eqn:H2; [|done]. simpl.
  assert (dims nb2) as Hd2.
  { eapply dims_set3; [|exact H2]. by eapply dims_set3. }
  destruct (Move.castle move) as [[|]|].
  - by apply dims_relocateRook.
  - by apply dims_relocateRook.
  - by intros [= <-].
Qed.

(** The capture bookkeeping does not touch the board. *)
Lemma boardState_recordCapture color targetPiece s :
  boardState (recordCapture color targetPiece s) = boardState s.
Proof.
  unfold recordCapture. destruct targetPiece as [t|]; [|done].
  by case_decide.
Qed.

Lemma goodBoard_executeMove s piece x y z move :
  goodBoard (boardState s) →
  goodBoard (boardState (stateOf (executeMove s piece x y z move))).
Proof.
  intros [Hd Hb]. unfold executeMove.
  destruct (_ && _); [done|].
  destruct (at3 (jsonCopy (boardState s)) x y z) as [targetPiece|];
    [|done].
  destruct (writeMove _ _ _ _ _ _) as [nb|] eqn:Hw; simpl.
  - split.
    + eapply dims_writeMove; [|exact Hw]. by apply dims_jsonCopy.
    + eapply boardInv_writeMove; [|exact Hw]. by apply boardInv_jsonCopy.
  - by rewrite boardState_recordCapture.
Qed.

Lemma goodBoard_handleSquareClick s x y z :
  goodBoard (boardState s) →
  goodBoard (boardState (stateOf (handleSquareClick s x y z))).
Proof.
  intros Hg. unfold handleSquareClick.
  destruct (_ || _); [done|].
  destruct (at3 (boardState s) x y z) as [clickedPiece|]; [|done].
  destruct (selectedPiece s) as [sel|].
  - destruct (find _ _) as [move|]; [by apply goodBoard_executeMove|].
    by destruct (ownPiece _ _).
  - by destruct (ownPiece _ _).
Qed.

Lemma goodBoard_handlePromotion s promotedTo :
  goodBoard (boardState s) →
  goodBoard (boardState (stateOf (handlePromotion s promotedTo))).
Proof.
  intros [Hd Hb]. unfold handlePromotion.
  destruct (promotionData s) as [pd|]; [|done].
  destruct (set3 (jsonCopy (boardState s)) _ _ _ None) as [nb1|] eqn:H1;
    [|done].
  destruct (at3 nb1 _ _ _) as [targetPiece|]; [|done].
  destruct (set3 nb1 _ _ _ (Some _)) as [nb|] eqn:H2; simpl.
  - split.
    + eapply dims_set3; [|exact H2]. eapply dims_set3; [|exact H1].
      by apply dims_jsonCopy.
    + eapply boardInv_set3; [|exact H2|by intros p [= <-]].
      eapply boardInv_set3; [|exact H1|done]. by apply boardInv_jsonCopy.
  - by rewrite boardState_recordCapture.
Qed.

Lemma boardState_validMovesEffect s s' :
  validMovesEffect s = Some s' → boardState s' = boardState s.
Proof.
  unfold validMovesEffect. destruct (selectedPiece s) as [sel|].
  - destruct (calculateValidMoves _ _); [|done]. by intros [= <-].
  - by intros [= <-].
Qed.

Lemma goodBoard_startBoard : goodBoard startBoard.
Proof.
  pose proof startBoard_wf as Hwf. split; [apply Hwf|].
  intros x y z p Hp.
  destruct (wfBoard_piece_in_range _ x y z p Hwf Hp) as (Hx & Hy & Hz).
  pose proof (cubeAll_true _ x y z startBoard_cells Hx Hy Hz) as Hc.
  apply bool_decide_eq_true in Hc. rewrite Hc in Hp. injection Hp as Hp.
  unfold startingCell in Hp.
  repeat case_decide; try done;
    repeat match type of Hp with
    | (?o ≫= _) = Some _ => destruct o; simpl in Hp; [|done]
    end;
    by injection Hp as <-.
Qed.

Lemma reachable_goodBoard s : reachable s → goodBoard (boardState s).
Proof.
  induction 1 as [s Hinit| | | |s s' _ IH Heff].
  - unfold initialState in Hinit.
    rewrite initializeBoardState_value in Hinit. injection Hinit as <-.
    apply goodBoard_startBoard.
  - by apply goodBoard_handleSquareClick.
  - by apply goodBoard_executeMove.
  - by apply goodBoard_handlePromotion.
  - by rewrite (boardState_validMovesEffect _ _ Heff).
Qed.

(** C8. Every board reachable from the initial board by move application
    (with any piece, target and move, castle tag included) or promotion
    completion keeps its SIZE x SIZE columns; reading a cell gives at
    most one piece; every piece stores the (x, y, z) of the cell that
    holds it (the relocated rook of the castle branch and the piece that
    promotion creates included); so no piece sits in two cells. *)
Theorem reachable_board_coordinates (s : State) :
  reachable s →
  dims (boardState s) ∧
  (∀ x y z p q,
     at3 (boardState s) x y z = Some p → at3 (boardState s) x y z = Some q →
     p = q) ∧
  (∀ x y z p,
     at3 (boardState s) x y z = Some (Some p) →
     Piece.x p = x ∧ Piece.y p = y ∧ Piece.z p = z) ∧
  (∀ x y z x' y' z' p,
     at3 (boardState s) x y z = Some (Some p) →
     at3 (boardState s) x' y' z' = Some (Some p) →
     x = x' ∧ y = y' ∧ z = z').
Proof.
  intros [Hd Hb]%reachable_goodBoard.
  split; [done|]. split; [congruence|]. split; [exact Hb|].
  intros x y z x' y' z' p Hp Hp'.
  destruct (Hb _ _ _ _ Hp) as (<- & <- & <-).
  destruct (Hb _ _ _ _ Hp') as (<- & <- & <-). done.
Qed.

(** ** Move application, promotion and the terminal status *)

Lemma set3_jsonCopy_is_Some b x y z z' v :
  is_Some (at3 b x y z') → is_Some (set3 (jsonCopy b) x y z v).
Proof.
  intros H. apply (set3_is_Some _ _ _ _ z').
  by apply (at3_jsonCopy_is_Some _ _ _ z').
Qed.

(** After the writes of a move the target cell holds the moved piece, or
    nothing when the castle branch has taken it for the rook. *)
Lemma writeMove_target nb piece x y z move nb' :
  writeMove nb piece x y z move = Some nb' →
  at3 nb' x y z = Some (Some (movedTo piece x y z)) ∨
  at3 nb' x y z = Some None.
Proof.
  unfold writeMove.
  destruct (set3 nb _ _ _ None) as [nb1|] eqn:H1; [|done]. simpl.
  destruct (set3 nb1 _ _ _ _) as [nb2|] eqn:H2; [|done]. simpl.
  assert (at3 nb2 x y z = Some (Some (movedTo piece x y z))) as Ht.
  { rewrite (at3_set3 _ _ _ _ _ _ _ _ _ H2). by rewrite decide_True. }
  assert (∀ edgeX newX,
            newX ≠ x →
            relocateRook nb2 edgeX newX y z = Some nb' →
            at3 nb' x y z = Some (Some (movedTo piece x y z)) ∨
            at3 nb' x y z = Some None) as Hrook.
  { intros edgeX newX Hne. unfold relocateRook.
    destruct (at3 nb2 edgeX y z) as [[r|]|]; simpl;
      [| intros [= <-]; by left | done].
    destruct (set3 nb2 edgeX y z None) as [nb3|] eqn:H3; [|done]. simpl.
    intros H4. rewrite (at3_set3 _ _ _ _ _ _ _ _ _ H4).
    rewrite decide_False by (intros (? & _); done).
    rewrite (at3_set3 _ _ _ _ _ _ _ _ _ H3).
    case_decide; [by right|by left]. }
  destruct (Move.castle move) as [[|]|].
  - apply Hrook. lia.
  - apply Hrook. lia.
  - intros [= <-]. by left.
Qed.

Lemma plainWrites_is_Some b piece x y z z1 z2 :
  is_Some (at3 b (Piece.x piece) (Piece.y piece) z1) →
  is_Some (at3 b x y z2) →
  is_Some (plainWrites (jsonCopy b) piece x y z).
Proof.
  intros Ho Ht. unfold plainWrites.
  destruct (set3_jsonCopy_is_Some b _ _ (Piece.z piece) _ None Ho)
    as [nb1 H1].
  rewrite H1. simpl. eapply set3_is_Some.
  rewrite (at3_set3 _ _ _ _ _ _ _ _ z H1).
  case_decide; [by eexists|]. by eapply at3_jsonCopy_is_Some.
Qed.

(** A status other than 'active' makes handleSquareClick return at its
    first line. *)
Lemma handleSquareClick_terminal s x y z :
  gameStatus s ≠ "active"%string → handleSquareClick s x y z = Done s.
Proof.
  intros Hs. unfold handleSquareClick.
  destruct (String.eqb_spec (gameStatus s) "active"); done.
Qed.

(** C6. If the moving piece is a Pawn and the destination z is the far
    rank of its side (7 for White, 0 for Black), executeMove returns at
    once, whatever the destination holds and whatever the castle tag:
    board, turn, selection, valid moves, capture tallies and game status
    are unchanged, and promotionData records the piece and the
    destination. *)
Theorem promotion_halts_before_mutation
    (s : State) (piece : Piece.t) (targetX targetY targetZ : Z)
    (move : Move.t) :
  Piece.type piece = Pawn →
  targetZ = promotionRank (Piece.color piece) →
  (promotionRank white = SIZE - 1 ∧ promotionRank black = 0) ∧
  ∃ s', executeMove s piece targetX targetY targetZ move = Done s' ∧
    boardState s' = boardState s ∧
    turn s' = turn s ∧
    capturedPieces s' = capturedPieces s ∧
    gameStatus s' = gameStatus s ∧
    selectedPiece s' = selectedPiece s ∧
    validMoves s' = validMoves s ∧
    promotionData s' =
      Some (PromotionData.mk piece targetX targetY targetZ).
Proof.
  intros Ht Hz. split; [done|].
  unfold executeMove. rewrite !bool_decide_eq_true_2 by done. simpl.
  by eexists.
Qed.

(** C5, as the code has it.  A move that is not a pawn's move to its far
    rank, applied on a well-formed board to a destination holding a
    King: when executeMove returns, the status is the mover's
    "<COLOUR> WINS!" and the destination no longer holds the captured
    King (it holds the moved piece, or nothing after a castle
    relocation); executeMove does return for a move without castle tag
    whose origin and destination columns exist.  (For a pawn reaching its
    far rank the capture and the win are recorded by handlePromotion.)
    Once the status is not 'active', handleSquareClick returns the state
    as it is: board, turn and selection are unchanged. *)
Theorem king_capture_ends_game :
  (∀ s piece x y z move k,
     wfBoard (boardState s) →
     at3 (boardState s) x y z = Some (Some k) →
     Piece.type k = King →
     ¬ promotes piece z →
     (∀ s', executeMove s piece x y z move = Done s' →
        gameStatus s' = winsStatus (Piece.color piece) ∧
        gameStatus s' ≠ "active"%string ∧
        (at3 (boardState s') x y z = Some (Some (movedTo piece x y z)) ∨
         at3 (boardState s') x y z = Some None)) ∧
     (Move.castle move = None →
      is_Some (at3 (boardState s) (Piece.x piece) (Piece.y piece)
                   (Piece.z piece)) →
      ∃ s', executeMove s piece x y z move = Done s')) ∧
  (∀ s promotedTo pd k,
     wfBoard (boardState s) →
     promotionData s = Some pd →
     at3 (boardState s) (PromotionData.x pd) (PromotionData.y pd)
         (PromotionData.z pd) = Some (Some k) →
     Piece.type k = King →
     (Piece.x (PromotionData.piece pd), Piece.y (PromotionData.piece pd),
      Piece.z (PromotionData.piece pd))
       ≠ (PromotionData.x pd, PromotionData.y pd, PromotionData.z pd) →
     is_Some (at3 (boardState s) (Piece.x (PromotionData.piece pd))
                  (Piece.y (PromotionData.piece pd))
                  (Piece.z (PromotionData.piece pd))) →
     ∃ s', handlePromotion s promotedTo = Done s' ∧
       gameStatus s' = winsStatus (Piece.color (PromotionData.piece pd))) ∧
  (∀ s x y z,
     gameStatus s ≠ "active"%string →
     handleSquareClick s x y z = Done s).
Proof.
  split; [|split].
  - intros s piece x y z move k Hwf Hk Hking Hnp.
    assert (executeMove s piece x y z move =
            let s1 := recordCapture (Piece.color piece) (Some k) s in
            match writeMove (jsonCopy (boardState s)) piece x y z move with
            | Some nb => Done (setSelectedPiece None (setTurn flipTurn
                                 (setBoardState nb s1)))
            | None => TypeError s1
            end) as Hexec.
    { unfold executeMove.
      destruct (bool_decide (Piece.type piece = Pawn) &&
                bool_decide (z = promotionRank (Piece.color piece)))
        eqn:Hp.
      - exfalso. apply Hnp.
        apply andb_true_iff in Hp as [?%bool_decide_eq_true
                                        ?%bool_decide_eq_true].
        done.
      - rewrite (jsonCopy_wf _ Hwf), Hk. done. }
    rewrite Hexec. simpl. split.
    + intros s'.
      destruct (writeMove _ _ _ _ _ _) as [nb|] eqn:Hw; [|done].
      intros [= <-]. simpl. rewrite decide_True by done. simpl.
      split; [done|]. split; [by destruct (Piece.color piece)|].
      by eapply writeMove_target.
    + intros Hc Ho.
      destruct (plainWrites_is_Some (boardState s) piece x y z _ z Ho)
        as [nb Hnb]; [by eexists|].
      assert (writeMove (jsonCopy (boardState s)) piece x y z move
              = Some nb) as ->.
      { rewrite <- Hnb. unfold writeMove, plainWrites. rewrite Hc.
        destruct (set3 _ _ _ _ None) as [nb1|]; [|done]. simpl.
        by destruct (set3 nb1 _ _ _ _). }
      by eexists.
  - intros s promotedTo pd k Hwf Hpd Hk Hking Hne Ho.
    unfold handlePromotion. rewrite Hpd, (jsonCopy_wf _ Hwf).
    destruct (set3_is_Some _ _ _ (Piece.z (PromotionData.piece pd)) _
                None Ho) as [nb1 H1].
    rewrite H1, (at3_set3 _ _ _ _ _ _ _ _ _ H1).
    rewrite decide_False by (intros (? & ? & ?); apply Hne; congruence).
    rewrite Hk.
    destruct (set3_is_Some nb1 (PromotionData.x pd) (PromotionData.y pd)
                (PromotionData.z pd) (PromotionData.z pd)
                (Some {| Piece.type := promotedTo;
                         Piece.color := Piece.color (PromotionData.piece pd);
                         Piece.x := PromotionData.x pd;
                         Piece.y := PromotionData.y pd;
                         Piece.z := PromotionData.z pd;
                         Piece.hasMoved := true |})) as [nb ->].
    { rewrite (at3_set3 _ _ _ _ _ _ _ _ _ H1).
      case_decide; by eexists. }
    eexists. split; [done|]. simpl. by rewrite decide_True.
  - intros s x y z. apply handleSquareClick_terminal.
Qed.

(** C7, as the code has it.  handlePromotion does not look at the chosen
    role.  With a promotion pending (and the pawn's and the
    destination's columns on the board) it returns for every role, King
    and Pawn included, and the destination then holds a piece of that
    role and of the pawn's colour at the destination's coordinates with
    hasMoved = true; the turn flips, selection and promotionData are
    cleared.  With no promotion pending it returns the state unchanged.
    No call ends in an InvalidPromotionRole error. *)
Theorem promotion_accepts_every_role
    (s : State) (promotedTo : PieceType) :
  (promotionData s = None → handlePromotion s promotedTo = Done s) ∧
  (∀ pd,
     promotionData s = Some pd →
     is_Some (at3 (boardState s) (Piece.x (PromotionData.piece pd))
                  (Piece.y (PromotionData.piece pd))
                  (Piece.z (PromotionData.piece pd))) →
     is_Some (at3 (boardState s) (PromotionData.x pd) (PromotionData.y pd)
                  (PromotionData.z pd)) →
     ∃ s', handlePromotion s promotedTo = Done s' ∧
       at3 (boardState s') (PromotionData.x pd) (PromotionData.y pd)
           (PromotionData.z pd) = Some (Some (promotedPiece pd promotedTo)) ∧
       turn s' = flipTurn (turn s) ∧
       selectedPiece s' = None ∧
       promotionData s' = None).
Proof.
  split.
  - intros Hpd. unfold handlePromotion. by rewrite Hpd.
  - intros pd Hpd Ho Ht. unfold handlePromotion. rewrite Hpd.
    destruct (set3_jsonCopy_is_Some (boardState s) _ _
                (Piece.z (PromotionData.piece pd)) _ None Ho) as [nb1 H1].
    rewrite H1.
    assert (is_Some (at3 nb1 (PromotionData.x pd) (PromotionData.y pd)
                         (PromotionData.z pd))) as [targetPiece Htp].
    { rewrite (at3_set3 _ _ _ _ _ _ _ _ _ H1).
      case_decide; [by eexists|]. by eapply at3_jsonCopy_is_Some. }
    rewrite Htp.
    destruct (set3_is_Some nb1 (PromotionData.x pd) (PromotionData.y pd)
                (PromotionData.z pd) (PromotionData.z pd)
                (Some (promotedPiece pd promotedTo))) as [nb H2];
      [by eexists|].
    unfold promotedPiece in H2. rewrite H2.
    eexists. split; [done|]. simpl.
    rewrite (at3_set3 _ _ _ _ _ _ _ _ _ H2), decide_True by done.
    split; [done|]. split; [|done].
    unfold recordCapture. destruct targetPiece as [t|]; [|done].
    by case_decide.
Qed.

(** ** The worked positions, evaluated *)

(** The two scenarios of section 8 of the specification. *)
Example start_pawn_moves :
  calculateValidMoves startPawn startBoard
  = Some [mkMove 0 1 2 false; mkMove 0 1 3 false].
Proof. vm_compute. reflexivity. Qed.

Example rook_ray_stops_at_capture :
  filter (λ m, Move.x m = 3 ∧ Move.y m = 3 ∧ 3 < Move.z m)
         (default [] (calculateValidMoves rookPiece rookBoard))
  = [mkMove 3 3 4 false; mkMove 3 3 5 false; mkMove 3 3 6 true].
Proof. vm_compute. reflexivity. Qed.

Lemma promoBoard_wf : wfBoard promoBoard.
Proof. apply (bool_decide_unpack _). by vm_compute. Qed.

Lemma rookBoard_wf : wfBoard rookBoard.
Proof. apply (bool_decide_unpack _). by vm_compute. Qed.

Lemma promoState_synced :
  validMovesEffect (setValidMoves [] promoState) = Some promoState.
Proof. vm_compute. reflexivity. Qed.

(** C5 fails as stated: the white pawn takes the black king on its far
    rank; the move is a generated move, the click applies it, and the
    status stays 'active' with the king still on (4,3,7). *)
Lemma king_capture_by_promoting_pawn_records_no_win :
  at3 (boardState promoState) 4 3 7 = Some (Some promoKing) ∧
  Piece.type promoKing = King ∧
  calculateValidMoves promoPawn (boardState promoState)
    = Some [mkMove 3 3 7 false; promoMove] ∧
  handleSquareClick promoState 4 3 7
    = executeMove promoState promoPawn 4 3 7 promoMove ∧
  ∃ s', executeMove promoState promoPawn 4 3 7 promoMove = Done s' ∧
    gameStatus s' = "active"%string ∧
    gameStatus s' ≠ winsStatus white ∧
    at3 (boardState s') 4 3 7 = Some (Some promoKing).
Proof.
  split; [by vm_compute|]. split; [done|].
  split; [by vm_compute|]. split; [by vm_compute|].
  exists promoPending. split; [by vm_compute|].
  split; [done|]. split; [done|]. by vm_compute.
Qed.

(** C7 fails as stated: with the promotion pending, handlePromotion
    called with King (and with Pawn) returns normally and writes a piece
    of that role on the destination. *)
Lemma promotion_to_king_is_accepted :
  handleSquareClick promoState 4 3 7 = Done promoPending ∧
  (∃ s', handlePromotion promoPending King = Done s' ∧
     at3 (boardState s') 4 3 7
       = Some (Some (Piece.mk King white 4 3 7 true)) ∧
     at3 (boardState promoPending) 4 3 7 = Some (Some promoKing) ∧
     boardState s' ≠ boardState promoPending) ∧
  (∃ s', handlePromotion promoPending Pawn = Done s' ∧
     at3 (boardState s') 4 3 7
       = Some (Some (Piece.mk Pawn white 4 3 7 true))).
Proof.
  split; [by vm_compute|]. split.
  - eexists. split; [by vm_compute|].
    split; [by vm_compute|]. split; [by vm_compute|].
    intros Heq. apply (f_equal (λ b, at3 b 4 3 7)) in Heq.
    vm_compute in Heq. discriminate.
  - eexists. split; [by vm_compute|]. by vm_compute.
Qed.

Lemma sliding_moves_walk_rays_witness :
  sliding (Piece.type rookPiece) ∧ dims rookBoard ∧
  ∃ ms, calculateValidMoves rookPiece rookBoard = Some ms ∧
    mkMove 3 3 4 false ∈ ms ∧ mkMove 3 3 5 false ∈ ms ∧
    mkMove 3 3 6 true ∈ ms ∧
    mkMove 0 3 3 false ∈ ms ∧
    (∀ capture, mkMove 3 3 7 capture ∉ ms).
Proof.
  assert (sliding (Piece.type rookPiece)) as Hs.
  { left. reflexivity. }
  assert (dims rookBoard) as Hd.
  { apply (bool_decide_unpack _). vm_compute. exact I. }
  split; [exact Hs|]. split; [exact Hd|].
  destruct (sliding_moves_walk_rays rookPiece rookBoard Hs Hd)
    as (ms & Hms & Hwalk & _ & Hjump).
  exists ms. split; [exact Hms|].
  assert (∀ dx dy dz k x y z,
            Z.abs dx + Z.abs dy + Z.abs dz = 1 →
            1 ≤ k →
            Forall (λ i, emptyAt rookBoard (3 + dx * i) (3 + dy * i)
                                 (3 + dz * i))
                   (seqZ 1 (k - 1)) →
            emptyAt rookBoard (3 + dx * k) (3 + dy * k) (3 + dz * k) →
            (x, y, z) = (3 + dx * k, 3 + dy * k, 3 + dz * k) →
            mkMove x y z false ∈ ms) as Hquiet.
  { intros dx dy dz k x y z Hn Hk Hclear Hland [= -> -> ->].
    apply Hwalk. exists dx, dy, dz, k.
    split; [lia|]. split; [lia|]. split; [lia|]. split; [lia|].
    split; [done|]. split; [discriminate|]. split; [done|].
    split; [discriminate|]. split; [|left; done].
    intros i Hi. rewrite Forall_forall in Hclear. apply (Hclear i).
    apply elem_of_seqZ. lia. }
  split.
  { apply (Hquiet 0 0 1 1);
      [reflexivity|lia|apply Forall_nil_2| |reflexivity].
    split; vm_compute; reflexivity. }
  split.
  { apply (Hquiet 0 0 1 2); [reflexivity|lia| | |reflexivity].
    - repeat constructor; vm_compute; reflexivity.
    - split; vm_compute; reflexivity. }
  split.
  { apply Hwalk. exists 0, 0, 1, 3.
    split; [lia|]. split; [lia|]. split; [lia|]. split; [lia|].
    split; [done|]. split; [discriminate|]. split; [lia|].
    split; [discriminate|]. split.
    - intros i Hi. assert (i = 1 ∨ i = 2) as [-> | ->] by lia;
        split; vm_compute; reflexivity.
    - right. split; [|reflexivity]. split; [vm_compute; reflexivity|].
      eexists. split; [vm_compute; reflexivity|]. discriminate. }
  split.
  { apply (Hquiet (-1) 0 0 3); [reflexivity|lia| | |reflexivity].
    - repeat constructor; vm_compute; reflexivity.
    - split; vm_compute; reflexivity. }
  intros capture Hin.
  pose proof (Hjump _ 0 0 1 4 Hin ltac:(lia) ltac:(lia) ltac:(lia)
                ltac:(simpl; lia) ltac:(lia) eq_refl eq_refl eq_refl
                3 ltac:(lia)) as [_ Hempty].
  vm_compute in Hempty. discriminate Hempty.
Defined.



Lemma king_capture_ends_game_witness :
  ∃ s', executeMove huntState rookPiece 3 3 6 (mkMove 3 3 6 true) = Done s' ∧
    gameStatus s' = "WHITE WINS!"%string ∧
    handleSquareClick s' 3 3 6 = Done s'.
Proof.
  destruct king_capture_ends_game as (Hmove & _ & Hclick).
  assert (wfBoard (boardState huntState)) as Hwf.
  { apply (bool_decide_unpack _). vm_compute. exact I. }
  destruct (Hmove huntState rookPiece 3 3 6 (mkMove 3 3 6 true)
              (Piece.mk King black 3 3 6 false) Hwf)
    as [Hdone Hreturns].
  { vm_compute. reflexivity. }
  { reflexivity. }
  { intros [Hp _]. discriminate Hp. }
  destruct Hreturns as [s' Hs'].
  { reflexivity. }
  { vm_compute. eexists. reflexivity. }
  exists s'. split; [exact Hs'|].
  destruct (Hdone s' Hs') as (Hwin & Hterm & _).
  split; [exact Hwin|]. apply Hclick. exact Hterm.
Defined.

Lemma promotion_halts_before_mutation_witness :
  Piece.type promoPawn = Pawn ∧ 7 = promotionRank (Piece.color promoPawn) ∧
  ∃ s', executeMove promoState promoPawn 4 3 7 promoMove = Done s' ∧
    boardState s' = boardState promoState ∧
    turn s' = turn promoState ∧
    promotionData s' = Some (PromotionData.mk promoPawn 4 3 7).
Proof.
  split; [reflexivity|]. split; [reflexivity|].
  destruct (promotion_halts_before_mutation promoState promoPawn 4 3 7
              promoMove eq_refl eq_refl)
    as (_ & s' & Hs' & Hb & Ht & _ & _ & _ & _ & Hp).
  exists s'. split; [exact Hs'|]. split; [exact Hb|].
  split; [exact Ht|exact Hp].
Defined.

Lemma promotion_accepts_every_role_witness :
  ∃ s', handlePromotion promoPending Queen = Done s' ∧
    at3 (boardState s') 4 3 7
      = Some (Some (Piece.mk Queen white 4 3 7 true)) ∧
    turn s' = black.
Proof.
  destruct (promotion_accepts_every_role promoPending Queen) as [_ Hpend].
  destruct (Hpend (PromotionData.mk promoPawn 4 3 7) eq_refl)
    as (s' & Hs' & Hcell & Hturn & _).
  { vm_compute. eexists. reflexivity. }
  { vm_compute. eexists. reflexivity. }
  exists s'. split; [exact Hs'|]. split; [exact Hcell|exact Hturn].
Defined.

Lemma reachable_board_coordinates_witness :
  reachable openingState ∧
  at3 (boardState openingState) 0 1 3
    = Some (Some (Piece.mk Pawn white 0 1 3 true)) ∧
  ∀ x y z p,
    at3 (boardState openingState) x y z = Some (Some p) →
    Piece.x p = x ∧ Piece.y p = y ∧ Piece.z p = z.
Proof.
  assert (reachable openingState) as Hr.
  { apply reach_click.
    apply (reach_effect (stateOf (handleSquareClick mountedState 0 1 1))).
    - apply reach_click. apply reach_init. vm_compute. reflexivity.
    - vm_compute. reflexivity. }
  split; [exact Hr|]. split; [vm_compute; reflexivity|].
  destruct (reachable_board_coordinates openingState Hr)
    as (_ & _ & Hcoords & _).
  exact Hcoords.
Defined.

Lemma generated_moves_within_bounds_witness :
  ∃ ms, calculateValidMoves rookPiece rookBoard = Some ms ∧
    mkMove 3 3 6 true ∈ ms ∧
    ∀ m, m ∈ ms →
      0 ≤ Move.x m < 8 ∧ 0 ≤ Move.y m < 8 ∧ 0 ≤ Move.z m < 8.
Proof.
  destruct (generated_moves_within_bounds rookPiece rookBoard)
    as [Hreturns Hbounds].
  destruct Hreturns as [ms Hms].
  { apply (bool_decide_unpack _). vm_compute. exact I. }
  exists ms. split; [exact Hms|]. split.
  - assert (Some ms = Some (default [] (calculateValidMoves rookPiece
                                          rookBoard))) as Heq.
    { rewrite Hms. reflexivity. }
    injection Heq as ->. apply (bool_decide_unpack _). vm_compute. exact I.
  - intros m Hm. destruct (Hbounds ms m Hms Hm) as [Hcube _]. exact Hcube.
Defined.

Lemma generated_moves_have_no_castle_tag_witness :
  ∃ ms, calculateValidMoves promoPawn promoBoard = Some ms ∧
    ∀ m, m ∈ ms → Move.castle m = None.
Proof.
  destruct (generated_moves_have_no_castle_tag promoPawn promoBoard)
    as [Hreturns Hcastle].
  destruct Hreturns as [ms Hms].
  { apply (bool_decide_unpack _). vm_compute. exact I. }
  exists ms. split; [exact Hms|].
  intros m Hm. destruct (Hcastle ms m Hms Hm) as [Hnone _]. exact Hnone.
Defined.

(** * Further properties of move generation *)

Lemma pushAll_body_is_Some {A} (body : A → option (list Move.t)) l ms a :
  pushAll body l = Some ms → a ∈ l → is_Some (body a).
Proof.
  revert ms. induction l as [|a' l IH]; intros ms; simpl.
  - by intros _ ?%elem_of_nil.
  - destruct (body a') as [ms1|] eqn:Ha; [|done]. simpl.
    destruct (pushAll body l) as [rest|]; [|done]. simpl.
    intros _ [->|Hin]%elem_of_cons; [by eexists|]. by eapply IH.
Qed.

(** The moves of a sliding piece, on any board on which the generator
    returns. *)
Lemma sliding_moves_elem p b ms m :
  sliding (Piece.type p) →
  calculateValidMoves p b = Some ms →
  m ∈ ms ↔
  ∃ d k x y z,
    d ∈ rayDirections (Piece.type p) ∧
    1 ≤ k ≤ maxDistance (Piece.type p) ∧
    onRay p d k x y z ∧
    (∀ i xi yi zi, 1 ≤ i < k → onRay p d i xi yi zi → emptyAt b xi yi zi) ∧
    ((emptyAt b x y z ∧ m = mkMove x y z false) ∨
     (enemyAt b (Piece.color p) x y z ∧ m = mkMove x y z true)).
Proof.
  intros Hs. rewrite (calculateValidMoves_sliding p b Hs). intros Hms.
  assert (0 ≤ maxDistance (Piece.type p)) as Hmax.
  { unfold maxDistance, SIZE. case_decide; lia. }
  rewrite (pushAll_elem _ _ _ m Hms). split.
  - intros (d & ms' & Hin & Hw & Hm).
    apply (walkRay_elem b p d _ 1 ms' m Hw) in Hm
      as (j & x & y & z & Hj & Hray & Hclear & Hland).
    exists d, j, x, y, z. split; [done|]. split; [lia|]. done.
  - intros (d & k & x & y & z & Hin & Hk & Hray & Hclear & Hland).
    destruct (pushAll_body_is_Some _ _ _ d Hms Hin) as [ms' Hw].
    exists d, ms'. split; [done|]. split; [done|].
    apply (walkRay_elem b p d _ 1 ms' m Hw).
    exists k, x, y, z. split; [lia|]. done.
Qed.

(** The moves of a knight. *)
Lemma knight_moves_elem p b ms m :
  Piece.type p = Knight →
  calculateValidMoves p b = Some ms →
  m ∈ ms ↔
  ∃ d, d ∈ permutations ∧
    ((emptyAt b (Piece.x p + d.1.1) (Piece.y p + d.1.2) (Piece.z p + d.2) ∧
      m = mkMove (Piece.x p + d.1.1) (Piece.y p + d.1.2) (Piece.z p + d.2)
                 false) ∨
     (enemyAt b (Piece.color p) (Piece.x p + d.1.1) (Piece.y p + d.1.2)
              (Piece.z p + d.2) ∧
      m = mkMove (Piece.x p + d.1.1) (Piece.y p + d.1.2) (Piece.z p + d.2)
                 true)).
Proof.
  intros Ht. unfold calculateValidMoves. rewrite Ht. intros Hms.
  rewrite (pushAll_elem _ _ _ m Hms). split.
  - intros (d & ms' & Hin & Hk & Hm). exists d. split; [done|].
    by apply (knightLeap_elem _ _ _ _ _ _ _ _ Hk).
  - intros (d & Hin & Hland).
    destruct (pushAll_body_is_Some _ _ _ d Hms Hin) as [ms' Hk].
    exists d, ms'. split; [done|]. split; [done|].
    by apply (knightLeap_elem _ _ _ _ _ _ _ _ Hk).
Qed.

Lemma permutations_leapOffset d : d ∈ permutations ↔ leapOffset d.
Proof.
  destruct d as [[dx dy] dz]. unfold leapOffset. simpl. split.
  - revert dx dy dz.
    assert (Forall (λ d : Z * Z * Z,
                      d.1.1 * d.1.1 + d.1.2 * d.1.2 + d.2 * d.2 = 5)
                   permutations) as Hall.
    { apply (bool_decide_unpack _). by vm_compute. }
    rewrite Forall_forall in Hall.
    intros dx dy dz Hd. apply (Hall _ Hd).
  - intros Hsq.
    assert (-2 ≤ dx ≤ 2) as Hx by nia.
    assert (-2 ≤ dy ≤ 2) as Hy by nia.
    assert (-2 ≤ dz ≤ 2) as Hz by nia.
    assert (dx = -2 ∨ dx = -1 ∨ dx = 0 ∨ dx = 1 ∨ dx = 2)
      as [-> | [-> | [-> | [-> | ->]]]] by lia;
    assert (dy = -2 ∨ dy = -1 ∨ dy = 0 ∨ dy = 1 ∨ dy = 2)
      as [-> | [-> | [-> | [-> | ->]]]] by lia;
    assert (dz = -2 ∨ dz = -1 ∨ dz = 0 ∨ dz = 1 ∨ dz = 2)
      as [-> | [-> | [-> | [-> | ->]]]] by lia;
    try (exfalso; lia);
    apply (bool_decide_unpack _); by vm_compute.
Qed.

(** X1. Knight moves.  On any board on which calculateValidMoves returns
    (every board of SIZE x SIZE columns), a Knight has a move to a square
    iff the square is the knight's square plus an offset (dx, dy, dz)
    with dx^2 + dy^2 + dz^2 = 5 (the 24 vectors with coordinates 2, 1, 0
    up to order and sign), lies inside the cube and is empty
    (capture = false) or holds an opposing piece (capture = true).  No
    other square of the board is consulted: a leap is never blocked. *)
Theorem knight_moves_are_the_24_leaps (p : Piece.t) (b : BoardState) :
  Piece.type p = Knight →
  (dims b → is_Some (calculateValidMoves p b)) ∧
  length permutations = 24%nat ∧
  ∀ ms, calculateValidMoves p b = Some ms →
    ∀ m, m ∈ ms ↔
      ∃ dx dy dz,
        dx * dx + dy * dy + dz * dz = 5 ∧
        let tx := Piece.x p + dx in
        let ty := Piece.y p + dy in
        let tz := Piece.z p + dz in
        ((emptyAt b tx ty tz ∧ m = mkMove tx ty tz false) ∨
         (enemyAt b (Piece.color p) tx ty tz ∧ m = mkMove tx ty tz true)).
Proof.
  intros Ht. split; [apply calculateValidMoves_is_Some|]. split; [done|].
  intros ms Hms m. rewrite (knight_moves_elem p b ms m Ht Hms). split.
  - intros ([[dx dy] dz] & Hd%permutations_leapOffset & Hland).
    exists dx, dy, dz. done.
  - intros (dx & dy & dz & Hd & Hland). exists (dx, dy, dz).
    split; [by apply permutations_leapOffset|done].
Qed.

Lemma emptyAt_landsOn b color x y z :
  emptyAt b x y z → landsOn b color (mkMove x y z false).
Proof. intros [Hin Hat]. split; [done|]. split; [done|]. by left. Qed.

Lemma enemyAt_landsOn b color x y z :
  enemyAt b color x y z → landsOn b color (mkMove x y z true).
Proof. intros [Hin Hq]. split; [done|]. split; [done|]. by right. Qed.

Lemma onRay_not_origin p d k x y z :
  unitStep d → 1 ≤ k → onRay p d k x y z →
  (x, y, z) ≠ (Piece.x p, Piece.y p, Piece.z p).
Proof.
  destruct d as [[dx dy] dz]. intros Hu Hk (-> & -> & ->) [= Hx Hy Hz].
  simpl in *.
  pose proof (unitStep_distance dx dy dz k Hu Hk) as Hmax.
  assert (dx * k = 0) as Ex by lia. assert (dy * k = 0) as Ey by lia.
  assert (dz * k = 0) as Ez by lia.
  rewrite Ex, Ey, Ez in Hmax. simpl in Hmax. lia.
Qed.

(** Every generated move lands inside the cube on an empty square or on
    an opposing piece, as its capture flag says, and leaves the piece's
    own square. *)
Lemma moves_landing p b ms m :
  calculateValidMoves p b = Some ms → m ∈ ms →
  landsOn b (Piece.color p) m ∧
  (Move.x m, Move.y m, Move.z m) ≠ (Piece.x p, Piece.y p, Piece.z p).
Proof.
  assert (sliding (Piece.type p) →
          calculateValidMoves p b = Some ms → m ∈ ms →
          landsOn b (Piece.color p) m ∧
          (Move.x m, Move.y m, Move.z m)
            ≠ (Piece.x p, Piece.y p, Piece.z p)) as Hrays.
  { intros Hs Hms
      (d & k & x & y & z & Hd & Hk & Hray & _ & Hland)%(sliding_moves_elem
                                                         p b ms m Hs Hms).
    assert ((x, y, z) ≠ (Piece.x p, Piece.y p, Piece.z p)) as Hne.
    { eapply onRay_not_origin; [|by apply Hk|done].
      by eapply rayDirections_unitStep. }
    destruct Hland as [[He ->]|[He ->]]; (split; [|done]).
    - by apply emptyAt_landsOn.
    - by apply enemyAt_landsOn. }
  assert (zDirOf (Piece.color p) = 1 ∨ zDirOf (Piece.color p) = -1) as Hz.
  { destruct (Piece.color p); [by left|by right]. }
  destruct (Piece.type p) eqn:Ht;
    try (apply Hrays; unfold sliding; tauto).
  - intros Hms Hm. apply (pawn_moves_elem p b ms m Ht Hms) in Hm
      as [(fwd & Hf & Hm)|(dx & dy & _ & _ & _ & He & ->)].
    + apply (pawnForward_elem _ _ _ _ _ _ _ Hf) in Hm
        as [[He ->]|(_ & _ & He & ->)].
      * split; [by apply emptyAt_landsOn|]. simpl. intros [=]. lia.
      * split; [by apply emptyAt_landsOn|]. simpl. intros [=]. lia.
    + split; [by apply enemyAt_landsOn|]. simpl. intros [=]. lia.
  - intros Hms ([[dx dy] dz] & Hd%permutations_leapOffset & Hland)%(
      knight_moves_elem p b ms m Ht Hms).
    unfold leapOffset in Hd. simpl in *.
    destruct Hland as [[He ->]|[He ->]].
    + split; [by apply emptyAt_landsOn|]. simpl. intros [=]. nia.
    + split; [by apply enemyAt_landsOn|]. simpl. intros [=]. nia.
Qed.

(** X2. For every piece of every role and every board: a move returned
    by calculateValidMoves never targets the piece's own square and
    never a square holding a piece of the piece's own colour; its
    capture flag is true exactly when the target holds a piece (then of
    the other colour) and false exactly when the target is empty. *)
Theorem moves_never_capture_own_side (p : Piece.t) (b : BoardState) :
  (dims b → is_Some (calculateValidMoves p b)) ∧
  ∀ ms m,
    calculateValidMoves p b = Some ms → m ∈ ms →
    (Move.x m, Move.y m, Move.z m) ≠ (Piece.x p, Piece.y p, Piece.z p) ∧
    (∃ c, at3 b (Move.x m) (Move.y m) (Move.z m) = Some c ∧
       (Move.capture m = true ↔ is_Some c) ∧
       (Move.capture m = false ↔ c = None) ∧
       ∀ q, c = Some q → Piece.color q ≠ Piece.color p).
Proof.
  split; [apply calculateValidMoves_is_Some|].
  intros ms m Hms Hm.
  destruct (moves_landing p b ms m Hms Hm) as [(_ & _ & Hland) Hne].
  split; [done|].
  destruct Hland as [[Hc Hat]|[Hc (q & Hat & Hq)]]; rewrite Hat, Hc.
  - exists None. split; [done|]. split; [|split; [done|done]].
    split; [done|]. by intros [? ?].
  - exists (Some q). split; [done|]. split; [|split].
    + split; [by eexists|done].
    + split; done.
    + by intros q' [= <-].
Qed.

Lemma pushAll_NoDup {A} (body : A → option (list Move.t)) l ms :
  NoDup l →
  (∀ a ms', a ∈ l → body a = Some ms' → NoDup ms') →
  (∀ a a' ms1 ms2 m,
     a ∈ l → a' ∈ l → body a = Some ms1 → body a' = Some ms2 →
     m ∈ ms1 → m ∈ ms2 → a = a') →
  pushAll body l = Some ms → NoDup ms.
Proof.
  revert ms. induction l as [|a l IH]; intros ms Hl Hbody Hdisj; simpl.
  - intros [= <-]. apply NoDup_nil_2.
  - destruct (body a) as [ms1|] eqn:Ha; [|done]. simpl.
    destruct (pushAll body l) as [rest|] eqn:Hrest; [|done]. simpl.
    intros [= <-]. apply NoDup_cons in Hl as [Hnotin Hl].
    apply NoDup_app. split; [|split].
    + apply (Hbody a); [by left|done].
    + intros m Hm1 (a' & ms2 & Ha' & Hb' & Hm2)%(pushAll_elem _ _ _ m Hrest).
      apply Hnotin.
      rewrite (Hdisj a a' ms1 ms2 m); try done; [by left|by right].
    + apply IH; try done.
      * intros a' ms' Ha'. apply Hbody. by right.
      * intros a1 a2 ms2 ms3 m H1 H2. apply Hdisj; by right.
Qed.

Lemma walkRay_NoDup b p d fuel k ms :
  unitStep d →
  walkRay b (Piece.x p) (Piece.y p) (Piece.z p) (Piece.color p) d fuel k
    = Some ms →
  NoDup ms.
Proof.
  intros Hu. revert k ms.
  induction fuel as [|fuel IH]; intros k ms Hw.
  { injection Hw as <-. apply NoDup_nil_2. }
  pose proof Hw as Hw'. destruct d as [[dx dy] dz].
  simpl in Hw.
  destruct (isWithinBounds _ _ _); simpl in Hw;
    [|injection Hw as <-; apply NoDup_nil_2].
  destruct (at3 b _ _ _) as [[q|]|]; simpl in Hw; [| |done].
  { case_decide; injection Hw as <-;
      [apply NoDup_singleton|apply NoDup_nil_2]. }
  destruct (walkRay b _ _ _ _ _ fuel (k + 1)) as [rest|] eqn:Hrest;
    [|done]. simpl in Hw. injection Hw as <-.
  apply NoDup_cons. split; [|by eapply IH].
  intros (j & x & y & z & Hj & (-> & -> & ->) & _ & Hland)%(walkRay_elem
    b p (dx, dy, dz) fuel (k + 1) rest _ Hrest).
  simpl in *.
  assert (dx * j = dx * k ∧ dy * j = dy * k ∧ dz * j = dz * k)
    as (Ex & Ey & Ez).
  { destruct Hland as [[_ [= ? ? ?]]|[_ [=]]]. lia. }
  destruct Hu as (Hx & Hy & Hz & Hn). unfold absSum in Hn. simpl in *.
  assert (dx ≠ 0 ∨ dy ≠ 0 ∨ dz ≠ 0) as [Hd|[Hd|Hd]] by lia.
  - apply Z.mul_reg_l in Ex; [lia|done].
  - apply Z.mul_reg_l in Ey; [lia|done].
  - apply Z.mul_reg_l in Ez; [lia|done].
Qed.

Lemma rayDirections_NoDup type : NoDup (rayDirections type).
Proof. destruct type; apply (bool_decide_unpack _); by vm_compute. Qed.

Lemma threeDDirections_NoDup color : NoDup (threeDDirections (zDirOf color)).
Proof. destruct color; apply (bool_decide_unpack _); by vm_compute. Qed.

Lemma permutations_NoDup : NoDup permutations.
Proof. apply (bool_decide_unpack _). by vm_compute. Qed.

Lemma pawnForward_NoDup b sx sy sz color ms :
  pawnForward b sx sy sz color = Some ms → NoDup ms.
Proof.
  unfold pawnForward.
  destruct (isWithinBounds sx sy (sz + zDirOf color)); simpl;
    [|intros [= <-]; apply NoDup_nil_2].
  destruct (at3 b sx sy (sz + zDirOf color)) as [[q|]|]; simpl;
    [intros [= <-]; apply NoDup_nil_2| |done].
  case_decide; [|intros [= <-]; apply NoDup_singleton].
  destruct (isWithinBounds sx sy (sz + zDirOf color * 2)); simpl;
    [|intros [= <-]; apply NoDup_singleton].
  destruct (at3 b sx sy (sz + zDirOf color * 2)) as [[q|]|]; simpl;
    [intros [= <-]; apply NoDup_singleton| |done].
  intros [= <-]. apply NoDup_cons. split; [|apply NoDup_singleton].
  intros [=]%list_elem_of_singleton. destruct color; simpl in *; lia.
Qed.

(** The list of generated moves has no repetition. *)
Lemma moves_NoDup p b ms :
  calculateValidMoves p b = Some ms → NoDup ms.
Proof.
  assert (sliding (Piece.type p) →
          calculateValidMoves p b = Some ms → NoDup ms) as Hrays.
  { intros Hs. rewrite (calculateValidMoves_sliding p b Hs).
    apply pushAll_NoDup.
    - apply rayDirections_NoDup.
    - intros d ms' Hd. apply walkRay_NoDup.
      by eapply rayDirections_unitStep.
    - intros d d' ms1 ms2 m Hd Hd' H1 H2
        (j & x & y & z & Hj & Hray & _ & Hland)%(walkRay_elem
                                                   b p d _ 1 ms1 m H1)
        (j' & x' & y' & z' & Hj' & Hray' & _ & Hland')%(walkRay_elem
                                                   b p d' _ 1 ms2 m H2).
      assert (x' = x ∧ y' = y ∧ z' = z) as (-> & -> & ->).
      { destruct Hland as [[_ ->]|[_ ->]],
                 Hland' as [[_ [= ? ? ?]]|[_ [= ? ? ?]]]; done. }
      destruct (onRay_unique p d d' j j' x y z) as [Hdd _]; try done;
        try lia; by eapply rayDirections_unitStep. }
  destruct (Piece.type p) eqn:Ht;
    try (apply Hrays; unfold sliding; tauto).
  - unfold calculateValidMoves. rewrite Ht.
    destruct (pawnForward _ _ _ _ _) as [fwd|] eqn:Hf; [|done].
    remember (threeDDirections (zDirOf (Piece.color p))) as dirs eqn:Hdirs.
    simpl. destruct (pushAll _ dirs) as [caps|] eqn:Hc; [|done]. simpl.
    intros [= <-]. subst dirs. apply NoDup_app. split; [|split].
    + by eapply pawnForward_NoDup.
    + intros m Hm (d & ms' & (_ & _ & Hn & _)%threeDDirections_elem
                     & Hb & Hm')%(pushAll_elem _ _ _ m Hc).
      apply (pawnCapture_elem _ _ _ _ _ _ _ _ Hb) in Hm' as [_ ->].
      apply Hn.
      apply (pawnForward_elem _ _ _ _ _ _ _ Hf) in Hm
        as [[_ [= ? ? ?]]|(_ & _ & _ & [= ? ? ?])]; lia.
    + revert Hc. apply pushAll_NoDup.
      * apply threeDDirections_NoDup.
      * intros [[dx dy] dz] ms' _. unfold pawnCapture.
        destruct (isWithinBounds _ _ _); simpl;
          [|intros [= <-]; apply NoDup_nil_2].
        destruct (at3 b _ _ _) as [[q|]|]; simpl;
          [|intros [= <-]; apply NoDup_nil_2|done].
        case_decide; intros [= <-];
          [apply NoDup_singleton|apply NoDup_nil_2].
      * intros [[dx dy] dz] [[dx' dy'] dz'] ms1 ms2 m
          (_ & _ & _ & Hz)%threeDDirections_elem
          (_ & _ & _ & Hz')%threeDDirections_elem H1 H2
          [_ ->]%(pawnCapture_elem _ _ _ _ _ _ _ _ H1)
          [_ [= ? ? ?]]%(pawnCapture_elem _ _ _ _ _ _ _ _ H2).
        simpl in *. f_equal; [f_equal|]; lia.
  - unfold calculateValidMoves. rewrite Ht. apply pushAll_NoDup.
    + apply permutations_NoDup.
    + intros [[dx dy] dz] ms' _. unfold knightLeap.
      destruct (isWithinBounds _ _ _); simpl;
        [|intros [= <-]; apply NoDup_nil_2].
      destruct (at3 b _ _ _) as [[q|]|]; simpl;
        [|intros [= <-]; apply NoDup_singleton|done].
      case_decide; intros [= <-];
        [apply NoDup_singleton|apply NoDup_nil_2].
    + intros [[dx dy] dz] [[dx' dy'] dz'] ms1 ms2 m _ _ H1 H2
        Hm1%(knightLeap_elem _ _ _ _ _ _ _ _ H1)
        Hm2%(knightLeap_elem _ _ _ _ _ _ _ _ H2).
      simpl in *.
      assert (Move.x m = Piece.x p + dx ∧ Move.y m = Piece.y p + dy ∧
              Move.z m = Piece.z p + dz) as (Ex & Ey & Ez).
      { by destruct Hm1 as [[_ ->]|[_ ->]]. }
      assert (Move.x m = Piece.x p + dx' ∧ Move.y m = Piece.y p + dy' ∧
              Move.z m = Piece.z p + dz') as (Ex' & Ey' & Ez').
      { by destruct Hm2 as [[_ ->]|[_ ->]]. }
      f_equal; [f_equal|]; lia.
Qed.

(** X3. For every piece and every board the list returned by
    calculateValidMoves has no repetition, and no two of its moves go to
    the same square: a square is the target of at most one generated
    move, so the [find] of handleSquareClick (and of the layer canvas)
    has at most one candidate. *)
Theorem at_most_one_move_per_square (p : Piece.t) (b : BoardState) :
  (dims b → is_Some (calculateValidMoves p b)) ∧
  ∀ ms, calculateValidMoves p b = Some ms →
    NoDup ms ∧
    NoDup ((λ m, (Move.x m, Move.y m, Move.z m)) <$> ms) ∧
    ∀ x y z m, m ∈ ms → isTarget x y z m = true →
               List.find (isTarget x y z) ms = Some m.
Proof.
  split; [apply calculateValidMoves_is_Some|].
  intros ms Hms.
  pose proof (moves_NoDup p b ms Hms) as Hnd.
  assert (∀ m m', m ∈ ms → m' ∈ ms →
            (Move.x m, Move.y m, Move.z m)
              = (Move.x m', Move.y m', Move.z m') → m = m') as Hinj.
  { intros m m' Hm Hm' [= Ex Ey Ez].
    destruct (moves_landing p b ms m Hms Hm) as [(_ & Hc & Hl) _].
    destruct (moves_landing p b ms m' Hms Hm') as [(_ & Hc' & Hl') _].
    rewrite <- Ex, <- Ey, <- Ez in Hl'.
    destruct m as [mx my mz mc mk], m' as [mx' my' mz' mc' mk'].
    simpl in *. subst.
    f_equal.
    destruct Hl as [[-> Hat]|[-> (q & Hat & _)]],
             Hl' as [[-> Hat']|[-> (q' & Hat' & _)]]; congruence. }
  split; [done|]. split; [by apply NoDup_fmap_2_strong|].
  intros x y z m Hm Ht.
  destruct (List.find (isTarget x y z) ms) as [m'|] eqn:Hfind.
  - apply find_some in Hfind as [Hm'%list_elem_of_In Ht'].
    f_equal. symmetry. apply Hinj; try done.
    unfold isTarget in Ht, Ht'.
    apply andb_true_iff in Ht as [[?%bool_decide_eq_true
      ?%bool_decide_eq_true]%andb_true_iff ?%bool_decide_eq_true].
    apply andb_true_iff in Ht' as [[?%bool_decide_eq_true
      ?%bool_decide_eq_true]%andb_true_iff ?%bool_decide_eq_true].
    congruence.
  - exfalso. apply list_elem_of_In in Hm.
    pose proof (find_none _ _ Hfind m Hm) as Hnone. congruence.
Qed.

(** X4. How the sliding pieces compose.  For one square and colour, on
    any board on which the four calls return: the Queen's moves are the
    Rook's moves together with the Bishop's moves, no move is both a
    Rook's and a Bishop's, and the King's moves are the Queen's moves to
    the 26 neighbouring squares (every coordinate at most 1 away). *)
Theorem queen_is_rook_plus_bishop
    (p : Piece.t) (b : BoardState) (msR msB msQ msK : list Move.t) :
  calculateValidMoves (withType Rook p) b = Some msR →
  calculateValidMoves (withType Bishop p) b = Some msB →
  calculateValidMoves (withType Queen p) b = Some msQ →
  calculateValidMoves (withType King p) b = Some msK →
  ∀ m,
    (m ∈ msQ ↔ m ∈ msR ∨ m ∈ msB) ∧
    ¬ (m ∈ msR ∧ m ∈ msB) ∧
    (m ∈ msK ↔
     m ∈ msQ ∧
     Z.abs (Move.x m - Piece.x p) ≤ 1 ∧
     Z.abs (Move.y m - Piece.y p) ≤ 1 ∧
     Z.abs (Move.z m - Piece.z p) ≤ 1).
Proof.
  intros HR HB HQ HK m.
  assert (sliding Rook ∧ sliding Bishop ∧ sliding Queen ∧ sliding King)
    as (HsR & HsB & HsQ & HsK) by (unfold sliding; tauto).
  rewrite (sliding_moves_elem (withType Rook p) b msR m HsR HR).
  rewrite (sliding_moves_elem (withType Bishop p) b msB m HsB HB).
  rewrite (sliding_moves_elem (withType Queen p) b msQ m HsQ HQ).
  rewrite (sliding_moves_elem (withType King p) b msK m HsK HK).
  change (Piece.type (withType Rook p)) with Rook.
  change (Piece.type (withType Bishop p)) with Bishop.
  change (Piece.type (withType Queen p)) with Queen.
  change (Piece.type (withType King p)) with King.
  change (maxDistance Rook) with SIZE. change (maxDistance Bishop) with SIZE.
  change (maxDistance Queen) with SIZE. change (maxDistance King) with 1.
  split; [|split].
  - split.
    + intros (d & k & x & y & z & Hd & Hrest).
      apply (rayDirections_spec Queen d HsQ) in Hd as [Hu _].
      destruct (decide (absSum d = 1)) as [H1|H1]; [left|right];
        exists d, k, x, y, z; (split; [|exact Hrest]).
      * apply (rayDirections_spec Rook d HsR). done.
      * apply (rayDirections_spec Bishop d HsB). split; [done|].
        split; [done|]. intros _. destruct Hu as (_ & _ & _ & ?). lia.
    + intros [(d & k & x & y & z & Hd & Hrest)
             |(d & k & x & y & z & Hd & Hrest)];
        exists d, k, x, y, z; (split; [|exact Hrest]);
        apply (rayDirections_spec Queen d HsQ);
        (split; [by eapply rayDirections_unitStep|done]).
  - intros [(d & k & x & y & z & Hd & Hk & Hray & _ & Hland)
            (d' & k' & x' & y' & z' & Hd' & Hk' & Hray' & _ & Hland')].
    assert (x' = x ∧ y' = y ∧ z' = z) as (-> & -> & ->).
    { destruct Hland as [[_ ->]|[_ ->]],
               Hland' as [[_ [= ? ? ?]]|[_ [= ? ? ?]]]; done. }
    destruct (onRay_unique p d d' k k' x y z
                (rayDirections_unitStep _ _ Hd)
                (rayDirections_unitStep _ _ Hd')
                (proj1 Hk) (proj1 Hk') Hray Hray') as [<- _].
    apply (rayDirections_spec Rook d HsR) in Hd as (_ & H1 & _).
    apply (rayDirections_spec Bishop d HsB) in Hd' as (_ & _ & H2).
    specialize (H1 eq_refl). specialize (H2 eq_refl). lia.
  - split.
    + intros (d & k & x & y & z & Hd & Hk & Hray & Hclear & Hland).
      assert (k = 1) as -> by lia.
      pose proof (rayDirections_unitStep _ _ Hd) as Hu.
      split.
      * exists d, 1, x, y, z. split; [|done].
        apply (rayDirections_spec Queen d HsQ). done.
      * destruct d as [[dx dy] dz], Hray as (-> & -> & ->),
                 Hu as (Hx & Hy & Hz & _).
        simpl in *. destruct Hland as [[_ ->]|[_ ->]]; simpl; lia.
    + intros ((d & k & x & y & z & Hd & Hk & Hray & Hclear & Hland)
              & Hx & Hy & Hz).
      pose proof (rayDirections_unitStep _ _ Hd) as Hu.
      assert (k = 1) as ->.
      { destruct d as [[dx dy] dz].
        pose proof (unitStep_distance dx dy dz k Hu ltac:(lia)) as Hmax.
        destruct Hray as (-> & -> & ->). simpl in *.
        assert (Move.x m = Piece.x p + dx * k ∧
                Move.y m = Piece.y p + dy * k ∧
                Move.z m = Piece.z p + dz * k) as (Ex & Ey & Ez).
        { by destruct Hland as [[_ ->]|[_ ->]]. }
        rewrite Ex in Hx. rewrite Ey in Hy. rewrite Ez in Hz.
        replace (Piece.x p + dx * k - Piece.x p) with (dx * k) in Hx by lia.
        replace (Piece.y p + dy * k - Piece.y p) with (dy * k) in Hy by lia.
        replace (Piece.z p + dz * k - Piece.z p) with (dz * k) in Hz by lia.
        lia. }
      exists d, 1, x, y, z. split; [|done].
      apply (rayDirections_spec King d HsK). done.
Qed.

(** X5. A Pawn only moves forward.  Every move generated for a Pawn
    advances along z in the pawn's direction (+1 for White, -1 for
    Black) by one layer, or by two layers in the pawn's own file from
    its starting rank; x and y change by at most 1; the move is a
    capture exactly when x or y changes.  A Pawn standing on its far
    rank (z = 7 for White, z = 0 for Black) has no move at all. *)
Theorem pawn_moves_only_forward (p : Piece.t) (b : BoardState) :
  Piece.type p = Pawn →
  (dims b → is_Some (calculateValidMoves p b)) ∧
  ∀ ms, calculateValidMoves p b = Some ms →
    (∀ m, m ∈ ms →
       (Move.z m = Piece.z p + zDirOf (Piece.color p) ∨
        Move.z m = Piece.z p + zDirOf (Piece.color p) * 2 ∧
        Piece.z p = startLayerOf (Piece.color p) ∧
        Move.x m = Piece.x p ∧ Move.y m = Piece.y p) ∧
       Z.abs (Move.x m - Piece.x p) ≤ 1 ∧
       Z.abs (Move.y m - Piece.y p) ≤ 1 ∧
       (Move.capture m = true ↔
        Move.x m ≠ Piece.x p ∨ Move.y m ≠ Piece.y p)) ∧
    (Piece.z p = promotionRank (Piece.color p) → ms = []).
Proof.
  intros Ht. split; [apply calculateValidMoves_is_Some|].
  intros ms Hms.
  assert (∀ m, m ∈ ms →
       (Move.z m = Piece.z p + zDirOf (Piece.color p) ∨
        Move.z m = Piece.z p + zDirOf (Piece.color p) * 2 ∧
        Piece.z p = startLayerOf (Piece.color p) ∧
        Move.x m = Piece.x p ∧ Move.y m = Piece.y p) ∧
       Z.abs (Move.x m - Piece.x p) ≤ 1 ∧
       Z.abs (Move.y m - Piece.y p) ≤ 1 ∧
       (Move.capture m = true ↔
        Move.x m ≠ Piece.x p ∨ Move.y m ≠ Piece.y p)) as Hfwd.
  { intros m Hm. apply (pawn_moves_elem p b ms m Ht Hms) in Hm
      as [(fwd & Hf & Hm)|(dx & dy & Hx & Hy & Hn & _ & ->)].
    - apply (pawnForward_elem _ _ _ _ _ _ _ Hf) in Hm
        as [[_ ->]|(Hs & _ & _ & ->)]; simpl.
      + split; [by left|]. split; [lia|]. split; [lia|].
        split; [done|]. intros [?|?]; done.
      + split; [by right|]. split; [lia|]. split; [lia|].
        split; [done|]. intros [?|?]; done.
    - simpl. split; [by left|]. split; [lia|]. split; [lia|].
      split; [|done]. intros _. lia. }
  split; [exact Hfwd|].
  intros Hfar. destruct ms as [|m ms']; [done|]. exfalso.
  assert (m ∈ m :: ms') as Hm by by left.
  destruct (Hfwd m Hm) as (Hz & _).
  destruct (moves_landing p b _ m Hms Hm) as [(Hin & _) _].
  apply isWithinBounds_true in Hin as (_ & _ & Hzin).
  unfold SIZE in Hzin.
  destruct (Piece.color p); simpl in *;
    destruct Hz as [Hz|(Hz & Hs & _)]; lia.
Qed.

(** * Further properties of move application *)

Lemma wfColumn_colSet col z v :
  wfColumn col → 0 ≤ z < SIZE → wfColumn (colSet col z v).
Proof.
  intros [Hlen Hkeys] Hz. unfold colSet. split; simpl.
  - rewrite decide_True by lia. lia.
  - intros k p. destruct v as [q|].
    + rewrite lookup_insert. case_decide; [lia|]. apply Hkeys.
    + rewrite lookup_delete. case_decide; [done|]. apply Hkeys.
Qed.

Lemma wfBoard_set3 b x y z v b' :
  wfBoard b → set3 b x y z v = Some b' → 0 ≤ z < SIZE → wfBoard b'.
Proof.
  intros [Hd Hcols] Hset Hz. split; [by eapply dims_set3|].
  apply set3_Some in Hset as (row & col & Hr & Hc & ->).
  apply idx_Some in Hr as [_ Hr]. apply idx_Some in Hc as [_ Hc].
  assert (Forall wfColumn row) as Hrow.
  { rewrite Forall_forall in Hcols. eapply Hcols.
    by eapply list_elem_of_lookup_2. }
  apply Forall_insert; [done|]. apply Forall_insert; [done|].
  apply wfColumn_colSet; [|done].
  rewrite Forall_forall in Hrow. eapply Hrow.
  by eapply list_elem_of_lookup_2.
Qed.

Lemma plainWrites_at3 nb piece x y z nb' x' y' z' :
  plainWrites nb piece x y z = Some nb' →
  at3 nb' x' y' z' =
    if decide (x = x' ∧ y = y' ∧ z = z')
    then Some (Some (movedTo piece x y z))
    else if decide (Piece.x piece = x' ∧ Piece.y piece = y' ∧
                    Piece.z piece = z')
         then Some None
         else at3 nb x' y' z'.
Proof.
  unfold plainWrites.
  destruct (set3 nb _ _ _ None) as [nb1|] eqn:H1; [|done]. simpl.
  intros H2. rewrite (at3_set3 _ _ _ _ _ _ _ _ _ H2).
  case_decide; [done|]. by rewrite (at3_set3 _ _ _ _ _ _ _ _ _ H1).
Qed.

Lemma wfBoard_plainWrites nb piece x y z nb' :
  wfBoard nb → plainWrites nb piece x y z = Some nb' →
  0 ≤ Piece.z piece < SIZE → 0 ≤ z < SIZE → wfBoard nb'.
Proof.
  intros Hwf. unfold plainWrites.
  destruct (set3 nb _ _ _ None) as [nb1|] eqn:H1; [|done]. simpl.
  intros H2 Hoz Hz. eapply wfBoard_set3; [|exact H2|done].
  by eapply wfBoard_set3.
Qed.

Lemma dims_plainWrites nb piece x y z nb' :
  dims nb → plainWrites nb piece x y z = Some nb' → dims nb'.
Proof.
  intros Hd. unfold plainWrites.
  destruct (set3 nb _ _ _ None) as [nb1|] eqn:H1; [|done]. simpl.
  intros H2. eapply dims_set3; [|exact H2]. by eapply dims_set3.
Qed.

Lemma writeMove_plain nb piece x y z move :
  Move.castle move = None →
  writeMove nb piece x y z move = plainWrites nb piece x y z.
Proof.
  intros Hc. unfold writeMove, plainWrites. rewrite Hc.
  destruct (set3 nb _ _ _ None) as [nb1|]; [|done]. simpl.
  by destruct (set3 nb1 _ _ _ _).
Qed.

Lemma promotes_false piece z :
  ¬ promotes piece z →
  bool_decide (Piece.type piece = Pawn) &&
  bool_decide (z = promotionRank (Piece.color piece)) = false.
Proof.
  intros Hnp. apply not_true_is_false. intros Hp. apply Hnp.
  apply andb_true_iff in Hp as [?%bool_decide_eq_true ?%bool_decide_eq_true].
  done.
Qed.

(** executeMove on a well-formed board, past the promotion test. *)
Lemma executeMove_unfold s piece x y z move :
  wfBoard (boardState s) → ¬ promotes piece z →
  executeMove s piece x y z move =
  match at3 (boardState s) x y z with
  | None => TypeError s
  | Some targetPiece =>
      let s1 := recordCapture (Piece.color piece) targetPiece s in
      match writeMove (boardState s) piece x y z move with
      | None => TypeError s1
      | Some nb =>
          Done (setSelectedPiece None (setTurn flipTurn
                  (setBoardState nb s1)))
      end
  end.
Proof.
  intros Hwf Hnp. unfold executeMove.
  by rewrite (promotes_false _ _ Hnp), (jsonCopy_wf _ Hwf).
Qed.

Lemma recordCapture_fields color c s :
  boardState (recordCapture color c s) = boardState s ∧
  turn (recordCapture color c s) = turn s ∧
  selectedPiece (recordCapture color c s) = selectedPiece s ∧
  validMoves (recordCapture color c s) = validMoves s ∧
  promotionData (recordCapture color c s) = promotionData s.
Proof.
  unfold recordCapture. destruct c as [t|]; [|done]. by case_decide.
Qed.

(** X6. A move without castle tag that is not a pawn's move to its far
    rank, applied by executeMove on a well-formed board whose origin and
    target columns exist: executeMove returns; afterwards the target
    cell holds the moving piece with the target's coordinates and
    hasMoved = true, the origin cell is empty (unless it is the target),
    every other cell of the board is as before, the turn has flipped,
    the selection is cleared, and validMoves and promotionData are
    untouched. *)
Theorem plain_move_changes_two_cells
    (s : State) (piece : Piece.t) (x y z : Z) (move : Move.t) :
  wfBoard (boardState s) →
  Move.castle move = None →
  ¬ promotes piece z →
  is_Some (at3 (boardState s) (Piece.x piece) (Piece.y piece)
               (Piece.z piece)) →
  is_Some (at3 (boardState s) x y z) →
  ∃ s', executeMove s piece x y z move = Done s' ∧
    at3 (boardState s') x y z = Some (Some (movedTo piece x y z)) ∧
    Piece.hasMoved (movedTo piece x y z) = true ∧
    (∀ x' y' z', (x', y', z') ≠ (x, y, z) →
       at3 (boardState s') x' y' z' =
         if decide ((x', y', z')
                    = (Piece.x piece, Piece.y piece, Piece.z piece))
         then Some None
         else at3 (boardState s) x' y' z') ∧
    turn s' = flipTurn (turn s) ∧
    selectedPiece s' = None ∧
    validMoves s' = validMoves s ∧
    promotionData s' = promotionData s.
Proof.
  intros Hwf Hc Hnp Ho [c Ht].
  rewrite (executeMove_unfold s piece x y z move Hwf Hnp), Ht.
  rewrite (writeMove_plain _ _ _ _ _ _ Hc). simpl.
  assert (is_Some (plainWrites (boardState s) piece x y z)) as [nb Hnb].
  { rewrite <- (jsonCopy_wf _ Hwf) at 1.
    eapply plainWrites_is_Some; [exact Ho|by eexists]. }
  rewrite Hnb. eexists. split; [done|].
  destruct (recordCapture_fields (Piece.color piece) c s)
    as (Hb & Htn & Hsel & Hvm & Hpd).
  simpl. rewrite Htn, Hvm, Hpd. repeat split; try done.
  - rewrite (plainWrites_at3 _ _ _ _ _ _ _ _ _ Hnb).
    by rewrite decide_True.
  - intros x' y' z' Hne.
    rewrite (plainWrites_at3 _ _ _ _ _ _ _ _ _ Hnb).
    rewrite decide_False by (intros (? & ? & ?); apply Hne; congruence).
    destruct (decide ((x', y', z')
                      = (Piece.x piece, Piece.y piece, Piece.z piece)))
      as [[= -> -> ->]|Hno].
    + by rewrite decide_True.
    + rewrite decide_False; [done|].
      intros (? & ? & ?). apply Hno. congruence.
Qed.

(** X7. The bookkeeping of a capture.  Under the conditions of X6: if
    the target cell is empty, the capture tallies and the game status
    are unchanged; if it holds a piece, that piece is appended to the
    tally of the mover's opponent (the other tally is unchanged), and
    the status becomes the mover's "<COLOUR> WINS!" if the piece is a
    King and is unchanged otherwise. *)
Theorem capture_is_tallied_for_the_opponent
    (s : State) (piece : Piece.t) (x y z : Z) (move : Move.t)
    (c : option Piece.t) :
  wfBoard (boardState s) →
  Move.castle move = None →
  ¬ promotes piece z →
  is_Some (at3 (boardState s) (Piece.x piece) (Piece.y piece)
               (Piece.z piece)) →
  at3 (boardState s) x y z = Some c →
  ∃ s', executeMove s piece x y z move = Done s' ∧
    match c with
    | None =>
        capturedPieces s' = capturedPieces s ∧ gameStatus s' = gameStatus s
    | Some q =>
        (match Piece.color piece with
         | white =>
             Captured.black (capturedPieces s')
               = Captured.black (capturedPieces s) ++ [q] ∧
             Captured.white (capturedPieces s')
               = Captured.white (capturedPieces s)
         | black =>
             Captured.white (capturedPieces s')
               = Captured.white (capturedPieces s) ++ [q] ∧
             Captured.black (capturedPieces s')
               = Captured.black (capturedPieces s)
         end) ∧
        gameStatus s' =
          if decide (Piece.type q = King)
          then (toUpperCase (Piece.color piece) ++ " WINS!")%string
          else gameStatus s
    end.
Proof.
  intros Hwf Hc Hnp Ho Ht.
  rewrite (executeMove_unfold s piece x y z move Hwf Hnp), Ht.
  rewrite (writeMove_plain _ _ _ _ _ _ Hc). simpl.
  assert (is_Some (plainWrites (boardState s) piece x y z)) as [nb Hnb].
  { rewrite <- (jsonCopy_wf _ Hwf) at 1.
    eapply plainWrites_is_Some; [exact Ho|by eexists]. }
  rewrite Hnb. eexists. split; [done|].
  destruct c as [q|]; simpl; [|done].
  split.
  - destruct (Piece.color piece); by case_decide.
  - by case_decide.
Qed.

Lemma writeMove_castle nb piece x y z move side :
  Move.castle move = Some side →
  writeMove nb piece x y z move =
  nb2 ← plainWrites nb piece x y z;
  relocateRook nb2 (castleEdge side) (castleRookX side x) y z.
Proof.
  intros Hc. unfold writeMove, plainWrites. rewrite Hc.
  destruct (set3 nb _ _ _ None) as [nb1|]; [|done]. simpl.
  destruct (set3 nb1 _ _ _ _) as [nb2|]; [|done]. simpl.
  by destruct side.
Qed.

(** Only the columns of the board can be read. *)
Lemma at3_is_Some_range b x y z :
  dims b → is_Some (at3 b x y z) → 0 ≤ x < SIZE ∧ 0 ≤ y < SIZE.
Proof.
  intros [Hl Hrows] [c (row & col & Hrow & Hcl & _)%at3_Some].
  apply idx_Some in Hrow as [Hx Hrow]. apply idx_Some in Hcl as [Hy Hcl].
  rewrite Forall_forall in Hrows.
  pose proof (Hrows row (list_elem_of_lookup_2 _ _ _ Hrow)) as Hlr.
  pose proof (lookup_lt_Some _ _ _ Hrow) as Hlx.
  pose proof (lookup_lt_Some _ _ _ Hcl) as Hly. lia.
Qed.

Lemma castleRookX_ne side x : castleRookX side x ≠ x.
Proof. destruct side; simpl; lia. Qed.

(** X8. The castle branch relocates whatever stands on the edge.  A
    move with a castle tag (not a pawn's move to its far rank) applied on
    a well-formed board: if the edge cell of the target's rank and layer
    (x = 7 king-side, x = 0 queen-side) holds a piece r that is neither
    the mover nor on the target, and the cell next to the target
    (x - 1 king-side, x + 1 queen-side) is on the board, executeMove
    returns; the mover is on the target, the edge cell is empty, and the
    neighbouring cell holds r with its x updated and hasMoved = true,
    whatever r's role and colour, whatever the mover's role, and
    whatever stood on the neighbouring cell before (it is overwritten
    and not tallied as captured). *)
Theorem castle_relocates_the_edge_piece
    (s : State) (piece : Piece.t) (x y z : Z) (move : Move.t)
    (side : CastleSide) (r : Piece.t) :
  wfBoard (boardState s) →
  Move.castle move = Some side →
  ¬ promotes piece z →
  is_Some (at3 (boardState s) (Piece.x piece) (Piece.y piece)
               (Piece.z piece)) →
  is_Some (at3 (boardState s) x y z) →
  0 ≤ castleRookX side x < SIZE →
  at3 (boardState s) (castleEdge side) y z = Some (Some r) →
  (castleEdge side, y, z) ≠ (Piece.x piece, Piece.y piece, Piece.z piece) →
  castleEdge side ≠ x →
  ∃ s', executeMove s piece x y z move = Done s' ∧
    at3 (boardState s') x y z = Some (Some (movedTo piece x y z)) ∧
    at3 (boardState s') (castleEdge side) y z = Some None ∧
    at3 (boardState s') (castleRookX side x) y z
      = Some (Some (relocated r (castleRookX side x))) ∧
    (∀ x' y' z',
       (x', y', z') ≠ (x, y, z) →
       (x', y', z') ≠ (castleEdge side, y, z) →
       (x', y', z') ≠ (castleRookX side x, y, z) →
       (x', y', z') ≠ (Piece.x piece, Piece.y piece, Piece.z piece) →
       at3 (boardState s') x' y' z' = at3 (boardState s) x' y' z') ∧
    capturedPieces s' =
      capturedPieces (recordCapture (Piece.color piece)
                        (default None (at3 (boardState s) x y z)) s).
Proof.
  intros Hwf Hc Hnp Ho [c Ht] Hnew Hr Hne Hex.
  destruct (at3_is_Some_range _ x y z (proj1 Hwf)) as [Hxr Hyr];
    [by eexists|].
  rewrite (executeMove_unfold s piece x y z move Hwf Hnp), Ht.
  rewrite (writeMove_castle _ _ _ _ _ _ _ Hc). simpl.
  assert (is_Some (plainWrites (boardState s) piece x y z)) as [nb2 Hnb].
  { rewrite <- (jsonCopy_wf _ Hwf) at 1.
    eapply plainWrites_is_Some; [exact Ho|by eexists]. }
  rewrite Hnb. simpl.
  assert (at3 nb2 (castleEdge side) y z = Some (Some r)) as Hr2.
  { rewrite (plainWrites_at3 _ _ _ _ _ _ _ _ _ Hnb).
    rewrite decide_False by (intros (? & _); done).
    rewrite decide_False; [done|].
    intros (? & ? & ?). apply Hne. congruence. }
  unfold relocateRook. rewrite Hr2. simpl.
  destruct (set3_is_Some nb2 (castleEdge side) y z z None) as [nb3 H3];
    [by eexists|].
  rewrite H3. simpl.
  assert (is_Some (at3 nb3 (castleRookX side x) y z)) as Hcol.
  { rewrite (at3_set3 _ _ _ _ _ _ _ _ _ H3).
    case_decide; [by eexists|].
    rewrite (plainWrites_at3 _ _ _ _ _ _ _ _ _ Hnb).
    repeat case_decide; try by eexists.
    by apply (at3_in_range _ _ _ _ (proj1 Hwf)). }
  destruct (set3_is_Some nb3 (castleRookX side x) y z z
              (Some {| Piece.type := Piece.type r;
                       Piece.color := Piece.color r;
                       Piece.x := castleRookX side x;
                       Piece.y := Piece.y r; Piece.z := Piece.z r;
                       Piece.hasMoved := true |}) Hcol) as [nb4 H4].
  rewrite H4. eexists. split; [done|]. simpl.
  pose proof (castleRookX_ne side x) as Hnx.
  split; [|split; [|split; [|split]]].
  - rewrite (at3_set3 _ _ _ _ _ _ _ _ _ H4).
    rewrite decide_False by (intros (? & _); done).
    rewrite (at3_set3 _ _ _ _ _ _ _ _ _ H3).
    rewrite decide_False by (intros (? & _); done).
    rewrite (plainWrites_at3 _ _ _ _ _ _ _ _ _ Hnb).
    by rewrite decide_True.
  - rewrite (at3_set3 _ _ _ _ _ _ _ _ _ H4).
    rewrite decide_False.
    + rewrite (at3_set3 _ _ _ _ _ _ _ _ _ H3). by rewrite decide_True.
    + intros (? & _). destruct side; simpl in *; unfold SIZE in *; lia.
  - rewrite (at3_set3 _ _ _ _ _ _ _ _ _ H4). by rewrite decide_True.
  - intros x' y' z' H1 H2 H5 H6.
    rewrite (at3_set3 _ _ _ _ _ _ _ _ _ H4).
    rewrite decide_False by (intros (? & ? & ?); apply H5; congruence).
    rewrite (at3_set3 _ _ _ _ _ _ _ _ _ H3).
    rewrite decide_False by (intros (? & ? & ?); apply H2; congruence).
    rewrite (plainWrites_at3 _ _ _ _ _ _ _ _ _ Hnb).
    rewrite decide_False by (intros (? & ? & ?); apply H1; congruence).
    rewrite decide_False; [done|].
    intros (? & ? & ?). apply H6. congruence.
  - done.
Qed.

(** X9. The edge cases of the castle branch, on a well-formed board
    whose origin and target columns exist (the move is not a pawn's move
    to its far rank):
    - if the rook's new column is off the board (king-side to x = 0,
      queen-side to x = 7) and the edge cell holds a piece other than the
      mover, executeMove raises a TypeError after the capture
      bookkeeping: board, turn and selection are unchanged;
    - if the target is the edge cell itself, the mover just written
      there is taken for the rook: the target ends empty and the mover
      stands on the neighbouring cell;
    - if the edge cell is empty once the mover has left its origin, the
      move is applied as if it had no castle tag. *)
Theorem castle_edge_cases
    (s : State) (piece : Piece.t) (x y z : Z) (move : Move.t)
    (side : CastleSide) :
  wfBoard (boardState s) →
  Move.castle move = Some side →
  ¬ promotes piece z →
  is_Some (at3 (boardState s) (Piece.x piece) (Piece.y piece)
               (Piece.z piece)) →
  is_Some (at3 (boardState s) x y z) →
  (∀ r,
     ¬ 0 ≤ castleRookX side x < SIZE →
     at3 (boardState s) (castleEdge side) y z = Some (Some r) →
     (castleEdge side, y, z)
       ≠ (Piece.x piece, Piece.y piece, Piece.z piece) →
     ∃ s1, executeMove s piece x y z move = TypeError s1 ∧
       boardState s1 = boardState s ∧ turn s1 = turn s ∧
       selectedPiece s1 = selectedPiece s) ∧
  (x = castleEdge side →
     ∃ s', executeMove s piece x y z move = Done s' ∧
       at3 (boardState s') x y z = Some None ∧
       at3 (boardState s') (castleRookX side x) y z
         = Some (Some (movedTo piece (castleRookX side x) y z))) ∧
  (x ≠ castleEdge side →
   (at3 (boardState s) (castleEdge side) y z = Some None ∨
    (castleEdge side, y, z)
      = (Piece.x piece, Piece.y piece, Piece.z piece)) →
   executeMove s piece x y z move =
   executeMove s piece x y z
     (Move.mk (Move.x move) (Move.y move) (Move.z move)
              (Move.capture move) None)).
Proof.
  intros Hwf Hc Hnp Ho [c Ht].
  destruct (at3_is_Some_range _ x y z (proj1 Hwf)) as [Hxr Hyr];
    [by eexists|].
  assert (is_Some (plainWrites (boardState s) piece x y z)) as [nb2 Hnb].
  { rewrite <- (jsonCopy_wf _ Hwf) at 1.
    eapply plainWrites_is_Some; [exact Ho|by eexists]. }
  pose proof (castleRookX_ne side x) as Hnx.
  split; [|split].
  - intros r Hoff Hr Hne.
    rewrite (executeMove_unfold s piece x y z move Hwf Hnp), Ht.
    rewrite (writeMove_castle _ _ _ _ _ _ _ Hc), Hnb. simpl.
    assert (at3 nb2 (castleEdge side) y z = Some (Some r)) as Hr2.
    { rewrite (plainWrites_at3 _ _ _ _ _ _ _ _ _ Hnb).
      rewrite decide_False.
      - rewrite decide_False; [done|].
        intros (? & ? & ?). apply Hne. congruence.
      - intros (Hex & _). apply Hoff.
        destruct side; simpl in *; unfold SIZE in *; lia. }
    unfold relocateRook. rewrite Hr2. simpl.
    destruct (set3_is_Some nb2 (castleEdge side) y z z None) as [nb3 H3];
      [by eexists|].
    rewrite H3. simpl.
    assert (set3 nb3 (castleRookX side x) y z
              (Some {| Piece.type := Piece.type r;
                       Piece.color := Piece.color r;
                       Piece.x := castleRookX side x;
                       Piece.y := Piece.y r; Piece.z := Piece.z r;
                       Piece.hasMoved := true |}) = None) as ->.
    { destruct (set3 nb3 _ _ _ _) as [nb4|] eqn:H4; [|done].
      exfalso. apply Hoff.
      apply set3_Some in H4 as (row & col & Hrow & _).
      apply idx_Some in Hrow as [Hx0 Hrow].
      pose proof (lookup_lt_Some _ _ _ Hrow) as Hlt.
      assert (dims nb3) as [Hl3 _].
      { eapply dims_set3; [|exact H3].
        eapply dims_plainWrites; [|exact Hnb]. apply Hwf. }
      unfold SIZE in *. lia. }
    eexists. split; [done|].
    by destruct (recordCapture_fields (Piece.color piece) c s)
      as (? & ? & ? & _).
  - intros ->.
    rewrite (executeMove_unfold s piece _ y z move Hwf Hnp), Ht.
    rewrite (writeMove_castle _ _ _ _ _ _ _ Hc), Hnb. simpl.
    assert (at3 nb2 (castleEdge side) y z
            = Some (Some (movedTo piece (castleEdge side) y z))) as Hr2.
    { rewrite (plainWrites_at3 _ _ _ _ _ _ _ _ _ Hnb).
      by rewrite decide_True. }
    unfold relocateRook. rewrite Hr2. simpl.
    destruct (set3_is_Some nb2 (castleEdge side) y z z None) as [nb3 H3];
      [by eexists|].
    rewrite H3. simpl.
    assert (0 ≤ castleRookX side (castleEdge side) < SIZE) as Hnew.
    { destruct side; simpl; unfold SIZE; lia. }
    assert (dims nb3) as Hd3.
    { eapply dims_set3; [|exact H3].
      eapply dims_plainWrites; [|exact Hnb]. apply Hwf. }
    destruct (set3_is_Some nb3 (castleRookX side (castleEdge side)) y z z
                (Some {| Piece.type := Piece.type piece;
                         Piece.color := Piece.color piece;
                         Piece.x := castleRookX side (castleEdge side);
                         Piece.y := y; Piece.z := z;
                         Piece.hasMoved := true |})) as [nb4 H4].
    { by apply (at3_in_range _ _ _ _ Hd3). }
    rewrite H4. eexists. split; [done|]. simpl. split.
    + rewrite (at3_set3 _ _ _ _ _ _ _ _ _ H4).
      rewrite decide_False by (intros (? & _); done).
      rewrite (at3_set3 _ _ _ _ _ _ _ _ _ H3). by rewrite decide_True.
    + rewrite (at3_set3 _ _ _ _ _ _ _ _ _ H4). by rewrite decide_True.
  - intros Hex Hempty.
    rewrite (executeMove_unfold s piece x y z move Hwf Hnp).
    rewrite (executeMove_unfold s piece x y z _ Hwf Hnp), Ht.
    rewrite (writeMove_castle _ _ _ _ _ _ _ Hc), Hnb.
    rewrite (writeMove_plain _ _ _ _ _
               (Move.mk (Move.x move) (Move.y move) (Move.z move)
                        (Move.capture move) None) eq_refl), Hnb. simpl.
    assert (at3 nb2 (castleEdge side) y z = Some None) as Hr2.
    { rewrite (plainWrites_at3 _ _ _ _ _ _ _ _ _ Hnb).
      rewrite decide_False by (intros (? & _); done).
      destruct Hempty as [He|[= Hx Hy Hz]].
      - by case_decide.
      - by rewrite decide_True. }
    unfold relocateRook. by rewrite Hr2.
Qed.

(** * The played session *)

Lemma sum_list_with_insert {A} (f : A → nat) (l : list A) i a a0 :
  l !! i = Some a0 →
  (sum_list_with f (<[i:=a]> l) + f a0 = sum_list_with f l + f a)%nat.
Proof.
  revert i. induction l as [|a' l IH]; intros [|i]; simpl; try done.
  - intros [= ->]. lia.
  - intros Hi. specialize (IH i Hi). lia.
Qed.

Lemma size_colSet col z v :
  (size (cells (colSet col z v)) + occupied (cells col !! z)
   = size (cells col) + occupied v)%nat.
Proof.
  unfold colSet. simpl. destruct v as [p|]; simpl.
  - rewrite map_size_insert. destruct (cells col !! z); simpl; lia.
  - rewrite map_size_delete.
    destruct (cells col !! z) as [q|] eqn:Hq; simpl; [|lia].
    assert (size (cells col) ≠ 0%nat); [|lia].
    intros Hempty%map_size_empty_iff. rewrite Hempty in Hq.
    by rewrite lookup_empty in Hq.
Qed.

(** A write changes the number of pieces by what it replaces. *)
Lemma pieceCount_set3 b x y z v b' old :
  set3 b x y z v = Some b' → at3 b x y z = Some old →
  (pieceCount b' + occupied old = pieceCount b + occupied v)%nat.
Proof.
  intros (row & col & Hr & Hc & ->)%set3_Some
         (row' & col' & Hr' & Hc' & ->)%at3_Some.
  rewrite Hr in Hr'. injection Hr' as <-.
  rewrite Hc in Hc'. injection Hc' as <-.
  apply idx_Some in Hr as [_ Hr]. apply idx_Some in Hc as [_ Hc].
  unfold pieceCount.
  pose proof (sum_list_with_insert
                (sum_list_with (λ col, size (cells col))) b (Z.to_nat x)
                (<[Z.to_nat y:=colSet col z v]> row) row Hr) as H1.
  pose proof (sum_list_with_insert (λ col, size (cells col)) row
                (Z.to_nat y) (colSet col z v) col Hc) as H2.
  pose proof (size_colSet col z v) as H3.
  simpl in *. lia.
Qed.

(** The two writes of a completed move or promotion: the origin is
    emptied and a piece is written on the target. *)
Lemma two_writes b ox oy oz tx ty tz v nb1 nb p0 c :
  wfBoard b → boardInv b →
  set3 b ox oy oz None = Some nb1 →
  set3 nb1 tx ty tz (Some v) = Some nb →
  at3 b ox oy oz = Some (Some p0) →
  at3 b tx ty tz = Some c →
  (ox, oy, oz) ≠ (tx, ty, tz) →
  0 ≤ tz < SIZE →
  Piece.x v = tx ∧ Piece.y v = ty ∧ Piece.z v = tz →
  wfBoard nb ∧ boardInv nb ∧
  (pieceCount nb + occupied c = pieceCount b)%nat ∧
  at3 nb1 tx ty tz = Some c ∧
  at3 nb ox oy oz = Some None.
Proof.
  intros Hwf Hinv H1 H2 Ho Ht Hne Htz Hv.
  destruct (wfBoard_piece_in_range _ _ _ _ _ Hwf Ho) as (_ & _ & Hoz).
  assert (at3 nb1 tx ty tz = Some c) as Ht1.
  { rewrite (at3_set3 _ _ _ _ _ _ _ _ _ H1).
    rewrite decide_False; [done|].
    intros (? & ? & ?). apply Hne. congruence. }
  split; [|split; [|split; [|split]]].
  - eapply wfBoard_set3; [|exact H2|done]. by eapply wfBoard_set3.
  - eapply boardInv_set3; [|exact H2|by intros p [= <-]].
    eapply boardInv_set3; [exact Hinv|exact H1|done].
  - pose proof (pieceCount_set3 _ _ _ _ _ _ _ H1 Ho) as Hc1.
    pose proof (pieceCount_set3 _ _ _ _ _ _ _ H2 Ht1) as Hc2.
    simpl in *. lia.
  - done.
  - rewrite (at3_set3 _ _ _ _ _ _ _ _ _ H2).
    rewrite decide_False by (intros (? & ? & ?); apply Hne; congruence).
    rewrite (at3_set3 _ _ _ _ _ _ _ _ _ H1). by rewrite decide_True.
Qed.

Lemma validMovesEffect_idle s :
  selectedPiece s = None → validMoves s = [] → validMovesEffect s = Some s.
Proof.
  destruct s. simpl. intros -> ->. reflexivity.
Qed.

(** With the moves in sync, the selection's moves are the listed ones. *)
Lemma synced_moves s sel :
  validMovesEffect s = Some s → selectedPiece s = Some sel →
  calculateValidMoves sel (boardState s) = Some (validMoves s).
Proof.
  unfold validMovesEffect. intros Hsync Hsel. rewrite Hsel in Hsync.
  destruct (calculateValidMoves sel (boardState s)) as [ms|]; [|done].
  simpl in Hsync. injection Hsync as Hs. f_equal.
  by apply (f_equal validMoves) in Hs.
Qed.

Lemma winsStatus_not_active color : winsStatus color ≠ "active"%string.
Proof. by destruct color. Qed.

(** The state after a completed move or promotion, once the effect has
    run. *)
Lemma sessionInv_after_move s col c nb :
  sessionInv s →
  gameStatus s = "active"%string →
  (∀ q, c = Some q → Piece.color q ≠ col) →
  wfBoard nb → boardInv nb →
  (pieceCount nb + occupied c = pieceCount (boardState s))%nat →
  sessionInv
    (setValidMoves [] (setPromotionData None (setSelectedPiece None
       (setTurn flipTurn (setBoardState nb (recordCapture col c s)))))).
Proof.
  intros (_ & _ & _ & _ & _ & Hcol & Hcount & Hstatus) Hact Hc Hwf Hinv Hn.
  destruct Hstatus as [[_ Hnoking]|(w & k & Hw & _)];
    [|rewrite Hw in Hact; by destruct (winsStatus_not_active w)].
  assert (∀ q, c = Some q → Piece.color q = opponentOf col) as Hopp.
  { intros q Hq. specialize (Hc q Hq).
    destruct (Piece.color q), col; done. }
  split; [done|]. split; [done|]. split; [done|].
  split; [by apply validMovesEffect_idle|]. split; [done|].
  destruct c as [q|]; simpl in *.
  - specialize (Hopp q eq_refl).
    assert (∀ s0 color q',
              q' ∈ capturedOf (addCaptured (opponentOf col) q
                                 (capturedPieces s0)) color ↔
              q' ∈ capturedOf (capturedPieces s0) color ∨
              (q' = q ∧ color = opponentOf col)) as Hmem.
    { intros s0 color q'.
      destruct col, color; simpl; rewrite ?elem_of_app,
        ?list_elem_of_singleton; intuition congruence. }
    assert (∀ s0,
      (length (Captured.white (addCaptured (opponentOf col) q
                                 (capturedPieces s0)))
       + length (Captured.black (addCaptured (opponentOf col) q
                                   (capturedPieces s0)))
       = S (length (Captured.white (capturedPieces s0))
            + length (Captured.black (capturedPieces s0))))%nat) as Hlen.
    { intros s0. destruct col; simpl; rewrite length_app; simpl; lia. }
    destruct (decide (Piece.type q = King)) as [Hk|Hk]; simpl.
    + split; [|split].
      * intros color q' [Hq'|[-> ->]]%Hmem; [by apply Hcol|done].
      * specialize (Hlen s). simpl in *. lia.
      * right. exists col, q. split; [done|]. split; [done|].
        split; [|done]. apply Hmem. by right.
    + split; [|split].
      * intros color q' [Hq'|[-> ->]]%Hmem; [by apply Hcol|done].
      * specialize (Hlen s). simpl in *. lia.
      * left. split; [done|].
        intros color q' [Hq'|[-> ->]]%Hmem; [by eapply Hnoking|done].
  - split; [done|]. split; [simpl in *; lia|]. left. done.
Qed.

Lemma isTarget_true x y z m :
  isTarget x y z m = true ↔ Move.x m = x ∧ Move.y m = y ∧ Move.z m = z.
Proof.
  unfold isTarget. rewrite !andb_true_iff, !bool_decide_eq_true. tauto.
Qed.

Lemma setPromotionData_None_id s :
  promotionData s = None → setPromotionData None s = s.
Proof. destruct s. simpl. by intros ->. Qed.

Lemma validMovesEffect_setPromotionData s pd :
  validMovesEffect s = Some s →
  validMovesEffect (setPromotionData pd s) = Some (setPromotionData pd s).
Proof.
  unfold validMovesEffect. destruct s as [b t sel vm cp gs pd0]. simpl.
  destruct sel as [p|].
  - destruct (calculateValidMoves p b) as [ms|]; [|done]. simpl.
    by intros [= ->].
  - by intros [= <-].
Qed.

(** The state after a (de)selection, once the effect has run. *)
Lemma sessionInv_select s sel ms :
  sessionInv s → promotionData s = None →
  match sel with
  | None => ms = []
  | Some cp =>
      at3 (boardState s) (Piece.x cp) (Piece.y cp) (Piece.z cp)
        = Some (Some cp) ∧
      Piece.color cp = turn s ∧
      calculateValidMoves cp (boardState s) = Some ms
  end →
  validMovesEffect (setSelectedPiece sel s)
    = Some (setValidMoves ms (setSelectedPiece sel s)) ∧
  sessionInv (setValidMoves ms (setSelectedPiece sel s)).
Proof.
  intros (Hwf & Hinv & _ & _ & _ & Hcol & Hcount & Hstatus) Hpd Hsel.
  assert (validMovesEffect (setSelectedPiece sel s)
          = Some (setValidMoves ms (setSelectedPiece sel s))) as Heff.
  { unfold validMovesEffect. simpl. destruct sel as [cp|].
    - destruct Hsel as (_ & _ & ->). done.
    - by rewrite Hsel. }
  split; [done|].
  split; [done|]. split; [done|]. split; [|split; [|split]].
  - intros p. simpl. intros ->. by destruct Hsel as (? & ? & _).
  - unfold validMovesEffect. simpl. destruct sel as [cp|].
    + destruct Hsel as (_ & _ & ->). done.
    + by rewrite Hsel.
  - simpl. by rewrite Hpd.
  - done.
Qed.

(** The state with a promotion pending. *)
Lemma sessionInv_pending s sel x y z m :
  sessionInv s →
  gameStatus s = "active"%string →
  selectedPiece s = Some sel →
  promotes sel z →
  m ∈ validMoves s → isTarget x y z m = true →
  sessionInv (setPromotionData (Some (PromotionData.mk sel x y z)) s).
Proof.
  intros (Hwf & Hinv & Hsel & Hsync & _ & Hcol & Hcount & Hstatus)
         Hact Hs Hp Hm Ht.
  split; [done|]. split; [done|]. split; [done|].
  split; [by apply validMovesEffect_setPromotionData|].
  split; [|split; [done|split; [done|]]].
  - intros pd. simpl. intros [= <-]. simpl. eauto 10.
  - destruct Hstatus as [Hleft|(w & k & Hw & _)]; [by left|].
    rewrite Hw in Hact. by destruct (winsStatus_not_active w).
Qed.

Lemma quietStep_refl s : quietStep s s.
Proof. done. Qed.

(** Selecting the clicked piece if it is of the side to move, else
    nothing. *)
Lemma select_step s clickedPiece x y z :
  sessionInv s → promotionData s = None →
  at3 (boardState s) x y z = Some clickedPiece →
  ∃ s',
    validMovesEffect
      (setSelectedPiece
         (if ownPiece clickedPiece (turn s) then clickedPiece else None) s)
      = Some s' ∧
    sessionInv s' ∧ quietStep s s'.
Proof.
  intros Hs Hnone Hclick.
  pose proof Hs as (Hwf & Hinv & _).
  destruct (ownPiece clickedPiece (turn s)) eqn:Hown.
  - destruct clickedPiece as [cp|]; [|done]. simpl in Hown.
    apply bool_decide_eq_true in Hown.
    destruct (Hinv _ _ _ _ Hclick) as (Ex & Ey & Ez).
    destruct (calculateValidMoves_is_Some cp (boardState s) (proj1 Hwf))
      as [ms Hms].
    destruct (sessionInv_select s (Some cp) ms Hs Hnone) as [Heff Hinv'].
    { rewrite Ex, Ey, Ez. done. }
    eexists. split; [exact Heff|]. done.
  - destruct (sessionInv_select s None [] Hs Hnone eq_refl)
      as [Heff Hinv'].
    eexists. split; [exact Heff|]. done.
Qed.

(** One square click of a session. *)
Lemma click_step s x y z :
  sessionInv s →
  ∃ s', validMovesEffect (stateOf (handleSquareClick s x y z)) = Some s' ∧
    sessionInv s' ∧
    (quietStep s s' ∨ moveStep s s') ∧
    ((∃ s1, handleSquareClick s x y z = Done s1) ∨
     (handleSquareClick s x y z = TypeError s ∧
      ¬ (0 ≤ x < SIZE ∧ 0 ≤ y < SIZE))).
Proof.
  intros Hs.
  pose proof Hs as (Hwf & Hinv & Hsel & Hsync & Hpend & Hcol & Hcount
                    & Hstatus).
  unfold handleSquareClick.
  destruct (negb (gameStatus s =? "active")%string
            || bool_decide (is_Some (promotionData s))) eqn:Hgate.
  { exists s. split; [done|]. split; [done|].
    split; [left; apply quietStep_refl|]. left. by eexists. }
  apply orb_false_iff in Hgate as [Hact Hpd].
  apply negb_false_iff, String.eqb_eq in Hact.
  apply bool_decide_eq_false in Hpd.
  assert (promotionData s = None) as Hnone.
  { destruct (promotionData s); [|done]. exfalso. apply Hpd. by eexists. }
  destruct (at3 (boardState s) x y z) as [clickedPiece|] eqn:Hclick.
  2:{ exists s. split; [done|]. split; [done|].
      split; [left; apply quietStep_refl|]. right. split; [done|].
      intros [Hx Hy].
      destruct (at3_in_range _ x y z (proj1 Hwf) Hx Hy) as [? ?].
      congruence. }
  destruct (select_step s clickedPiece x y z Hs Hnone Hclick)
    as (s' & Heff & Hinv' & Hquiet).
  destruct (selectedPiece s) as [sel|] eqn:Hselected.
  2:{ destruct (ownPiece clickedPiece (turn s)).
      - exists s'. split; [done|]. split; [done|]. split; [by left|].
        left. by eexists.
      - exists s. split; [done|]. split; [done|].
        split; [left; apply quietStep_refl|]. left. by eexists. }
  destruct (find (isTarget x y z) (validMoves s)) as [move|] eqn:Hfind.
  2:{ exists s'. split; [by destruct (ownPiece clickedPiece (turn s))|].
      split; [done|]. split; [by left|]. left.
      destruct (ownPiece clickedPiece (turn s)); by eexists. }
  apply find_some in Hfind as [Hm%list_elem_of_In Htarget].
  pose proof Htarget as (Ex & Ey & Ez)%isTarget_true.
  pose proof (synced_moves s sel Hsync Hselected) as Hms.
  destruct (moves_landing sel (boardState s) _ move Hms Hm)
    as [(Hin & Hcastle & Hland) Hne].
  rewrite Ex, Ey, Ez in Hin, Hland, Hne.
  destruct (Hsel sel eq_refl) as [Hon Hturn].
  destruct (decide (promotes sel z)) as [Hp|Hnp].
  - assert (executeMove s sel x y z move
            = Done (setPromotionData
                      (Some (PromotionData.mk sel x y z)) s)) as ->.
    { unfold executeMove. destruct Hp as [Hp1 Hp2].
      by rewrite !bool_decide_eq_true_2. }
    pose proof (sessionInv_pending s sel x y z move Hs Hact Hselected Hp
                  Hm Htarget) as Hinv1.
    eexists. split; [apply Hinv1|]. split; [done|].
    split; [by left|]. left. by eexists.
  - rewrite (executeMove_unfold s sel x y z move Hwf Hnp), Hclick.
    rewrite (writeMove_plain _ _ _ _ _ _ Hcastle). simpl.
    destruct (set3_is_Some (boardState s) (Piece.x sel) (Piece.y sel)
                (Piece.z sel) (Piece.z sel) None) as [nb1 H1];
      [by eexists|].
    assert (is_Some (at3 nb1 x y z)) as Hcol1.
    { rewrite (at3_set3 _ _ _ _ _ _ _ _ _ H1).
      case_decide; by eexists. }
    destruct (set3_is_Some nb1 x y z z (Some (movedTo sel x y z)) Hcol1)
      as [nb H2].
    unfold plainWrites. rewrite H1. simpl. rewrite H2.
    apply isWithinBounds_true in Hin as (_ & _ & Hz).
    destruct (two_writes (boardState s) _ _ _ x y z (movedTo sel x y z)
                nb1 nb sel clickedPiece Hwf Hinv H1 H2 Hon Hclick)
      as (Hwf2 & Hinv2 & Hcount2 & _ & Horigin);
      [by intros Heq; apply Hne|done|done|].
    assert (∀ q, clickedPiece = Some q → Piece.color q ≠ Piece.color sel)
      as Henemy.
    { intros q ->. destruct Hland as [[_ ?]|[_ (q' & Hq' & ?)]];
        congruence. }
    pose proof (sessionInv_after_move s (Piece.color sel) clickedPiece nb
                  Hs Hact Henemy Hwf2 Hinv2 Hcount2) as Hafter.
    rewrite setPromotionData_None_id in Hafter
      by (simpl; by destruct (recordCapture_fields (Piece.color sel)
                                clickedPiece s) as (_ & _ & _ & _ & ->)).
    eexists. split; [done|]. split; [exact Hafter|].
    split; [|left; by eexists].
    right. split; [|split; [done|split; [done|split]]].
    + simpl. by destruct (recordCapture_fields (Piece.color sel)
                            clickedPiece s) as (_ & -> & _).
    + simpl. by destruct (recordCapture_fields (Piece.color sel)
                            clickedPiece s) as (_ & _ & _ & _ & ->).
    + exists sel. done.
Qed.

(** One promotion choice of a session. *)
Lemma promotion_step s promotedTo :
  sessionInv s →
  ∃ s', validMovesEffect (stateOf (handlePromotion s promotedTo))
          = Some s' ∧
    sessionInv s' ∧
    (quietStep s s' ∨ moveStep s s') ∧
    (∃ s1, handlePromotion s promotedTo = Done s1) ∧
    (∀ pd, promotionData s = Some pd →
       at3 (boardState s') (PromotionData.x pd) (PromotionData.y pd)
           (PromotionData.z pd)
         = Some (Some (promotedPiece pd promotedTo)) ∧
       at3 (boardState s') (Piece.x (PromotionData.piece pd))
           (Piece.y (PromotionData.piece pd))
           (Piece.z (PromotionData.piece pd)) = Some None ∧
       moveStep s s').
Proof.
  intros Hs.
  pose proof Hs as (Hwf & Hinv & Hsel & Hsync & Hpend & Hcol & Hcount
                    & Hstatus).
  unfold handlePromotion.
  destruct (promotionData s) as [pd|] eqn:Hpd.
  2:{ exists s. split; [done|]. split; [done|].
      split; [left; apply quietStep_refl|]. split; [by eexists|done]. }
  destruct (Hpend pd eq_refl) as (Hact & Hselected & Hp & m & Hm & Htarget).
  pose proof Htarget as (Ex & Ey & Ez)%isTarget_true.
  pose proof (synced_moves s _ Hsync Hselected) as Hms.
  destruct (moves_landing _ (boardState s) _ m Hms Hm)
    as [(Hin & Hcastle & Hland) Hne].
  rewrite Ex, Ey, Ez in Hin, Hland, Hne.
  destruct (Hsel _ Hselected) as [Hon Hturn].
  assert (∃ c, at3 (boardState s) (PromotionData.x pd) (PromotionData.y pd)
                   (PromotionData.z pd) = Some c ∧
               ∀ q, c = Some q →
                    Piece.color q ≠ Piece.color (PromotionData.piece pd))
    as (c & Hc & Henemy).
  { destruct Hland as [[_ Hat]|[_ (q & Hat & Hq)]].
    - exists None. done.
    - exists (Some q). split; [done|]. by intros q' [= <-]. }
  rewrite (jsonCopy_wf _ Hwf).
  destruct (set3_is_Some (boardState s)
              (Piece.x (PromotionData.piece pd))
              (Piece.y (PromotionData.piece pd))
              (Piece.z (PromotionData.piece pd))
              (Piece.z (PromotionData.piece pd)) None) as [nb1 H1];
    [by eexists|].
  rewrite H1.
  assert (at3 nb1 (PromotionData.x pd) (PromotionData.y pd)
              (PromotionData.z pd) = Some c) as Hc1.
  { rewrite (at3_set3 _ _ _ _ _ _ _ _ _ H1).
    rewrite decide_False; [done|].
    intros (? & ? & ?). apply Hne. congruence. }
  rewrite Hc1.
  destruct (set3_is_Some nb1 (PromotionData.x pd) (PromotionData.y pd)
              (PromotionData.z pd) (PromotionData.z pd)
              (Some (promotedPiece pd promotedTo))) as [nb H2];
    [by eexists|].
  unfold promotedPiece in H2. rewrite H2.
  apply isWithinBounds_true in Hin as (_ & _ & Hz).
  destruct (two_writes (boardState s) _ _ _ _ _ _ _
              nb1 nb _ c Hwf Hinv H1 H2 Hon Hc)
    as (Hwf2 & Hinv2 & Hcount2 & _ & Horigin);
    [by intros Heq; apply Hne|done|done|].
  pose proof (sessionInv_after_move s _ c nb
                Hs Hact Henemy Hwf2 Hinv2 Hcount2) as Hafter.
  assert (moveStep s
    (setValidMoves [] (setPromotionData None (setSelectedPiece None
       (setTurn flipTurn (setBoardState nb
          (recordCapture (Piece.color (PromotionData.piece pd)) c s)))))))
    as Hmove.
  { split; [|split; [done|split; [done|split; [done|]]]].
    - simpl. by destruct (recordCapture_fields
                            (Piece.color (PromotionData.piece pd)) c s)
        as (_ & -> & _).
    - exists (PromotionData.piece pd). done. }
  eexists. split; [done|]. split; [exact Hafter|].
  split; [by right|]. split; [by eexists|].
  intros pd' [= <-]. split; [|done]. simpl.
  rewrite (at3_set3 _ _ _ _ _ _ _ _ _ H2). by rewrite decide_True.
Qed.

(** The effect only writes validMoves. *)
Lemma validMovesEffect_fields s s' :
  validMovesEffect s = Some s' →
  boardState s' = boardState s ∧ turn s' = turn s ∧
  selectedPiece s' = selectedPiece s ∧
  capturedPieces s' = capturedPieces s ∧
  gameStatus s' = gameStatus s ∧ promotionData s' = promotionData s.
Proof.
  unfold validMovesEffect. destruct (selectedPiece s) as [sel|] eqn:Hsel.
  - destruct (calculateValidMoves sel (boardState s)); [|done].
    intros [= <-]. by rewrite <- Hsel.
  - intros [= <-]. by rewrite <- Hsel.
Qed.

Lemma sessionInv_mounted s : initialState = Some s → sessionInv s.
Proof.
  unfold initialState. rewrite initializeBoardState_value.
  intros [= <-]. destruct goodBoard_startBoard as [_ Hinv].
  split; [apply startBoard_wf|]. split; [done|]. split; [done|].
  split; [done|]. split; [done|].
  split; [by intros [] q ?%elem_of_nil|].
  split; [by vm_compute|].
  left. split; [done|]. by intros [] q ?%elem_of_nil.
Qed.

(** Every state of a session satisfies the invariant. *)
Lemma session_sessionInv s : session s → sessionInv s.
Proof.
  induction 1 as [s Hinit|s x y z s' _ IH Hstep|s r s' _ IH Hstep].
  - by apply sessionInv_mounted.
  - destruct (click_step s x y z IH) as (s'' & Heff & Hinv & _).
    congruence.
  - destruct (promotion_step s r IH) as (s'' & Heff & Hinv & _).
    congruence.
Qed.

(** X10. In a session the selection and the listed moves are always in
    step with the board: the board is well formed; a selected piece
    stands on the board at its stored coordinates and belongs to the
    side to move; validMoves is exactly what calculateValidMoves returns
    for it on the current board, and is empty when nothing is
    selected. *)
Theorem session_selection_is_playable (s : State) :
  session s →
  wfBoard (boardState s) ∧
  jsonCopy (boardState s) = boardState s ∧
  (∀ p, selectedPiece s = Some p →
     at3 (boardState s) (Piece.x p) (Piece.y p) (Piece.z p)
       = Some (Some p) ∧
     Piece.color p = turn s ∧
     calculateValidMoves p (boardState s) = Some (validMoves s)) ∧
  (selectedPiece s = None → validMoves s = []).
Proof.
  intros (Hwf & _ & Hsel & Hsync & _)%session_sessionInv.
  split; [done|]. split; [by apply jsonCopy_wf|]. split.
  - intros p Hp. destruct (Hsel p Hp) as [Hon Hturn].
    split; [done|]. split; [done|]. by apply synced_moves.
  - intros Hnone. unfold validMovesEffect in Hsync.
    rewrite Hnone in Hsync. injection Hsync as Hs.
    by apply (f_equal validMoves) in Hs.
Qed.

(** X11. In a session no handler fails on a square of the board.  A
    click on (x, y, z) with 0 <= x, y < SIZE returns normally, for every
    z; handlePromotion returns normally for every role; the effect that
    recomputes validMoves never raises.  A click raises a TypeError only
    for x or y off the board, and then no state changes. *)
Theorem session_handlers_do_not_raise (s : State) :
  session s →
  (∀ x y z,
     0 ≤ x < SIZE → 0 ≤ y < SIZE →
     ∃ s1, handleSquareClick s x y z = Done s1) ∧
  (∀ x y z s1,
     handleSquareClick s x y z = TypeError s1 →
     s1 = s ∧ ¬ (0 ≤ x < SIZE ∧ 0 ≤ y < SIZE)) ∧
  (∀ promotedTo, ∃ s1, handlePromotion s promotedTo = Done s1) ∧
  (∀ x y z,
     is_Some (validMovesEffect (stateOf (handleSquareClick s x y z)))) ∧
  (∀ promotedTo,
     is_Some (validMovesEffect (stateOf (handlePromotion s promotedTo)))).
Proof.
  intros Hs%session_sessionInv.
  split; [|split; [|split; [|split]]].
  - intros x y z Hx Hy.
    destruct (click_step s x y z Hs) as (_ & _ & _ & _ & [Hdone|[_ Hout]]);
      [done|]. destruct Hout. done.
  - intros x y z s1 Herr.
    destruct (click_step s x y z Hs)
      as (_ & _ & _ & _ & [[s2 Hdone]|[Hte Hout]]); [congruence|].
    split; [congruence|done].
  - intros r. by destruct (promotion_step s r Hs) as (_ & _ & _ & _ & ? & _).
  - intros x y z. destruct (click_step s x y z Hs) as (s' & -> & _).
    by eexists.
  - intros r. destruct (promotion_step s r Hs) as (s' & -> & _).
    by eexists.
Qed.

(** X12. In a session every capture takes a piece of the other side:
    the white tally holds only White pieces and the black tally only
    Black pieces. *)
Theorem session_captures_are_sorted_by_colour (s : State) :
  session s →
  (∀ q, q ∈ Captured.white (capturedPieces s) → Piece.color q = white) ∧
  (∀ q, q ∈ Captured.black (capturedPieces s) → Piece.color q = black).
Proof.
  intros (_ & _ & _ & _ & _ & Hcol & _)%session_sessionInv.
  split; intros q Hq; [apply (Hcol white)|apply (Hcol black)]; done.
Qed.

(** X13. Material is conserved in a session: the pieces on the board
    and the pieces in the two capture tallies are always 256 together
    (the four full layers of the starting position); a promotion
    replaces the pawn, it adds nothing. *)
Theorem session_material_is_conserved (s : State) :
  session s →
  (pieceCount (boardState s)
   + length (Captured.white (capturedPieces s))
   + length (Captured.black (capturedPieces s)) = 256)%nat.
Proof.
  by intros (_ & _ & _ & _ & _ & _ & Hcount & _)%session_sessionInv.
Qed.

(** X14. In a session the status is 'active', "WHITE WINS!" or "BLACK
    WINS!"; it is 'active' exactly as long as no King is in a capture
    tally; when it names a winner, a King of the other colour has been
    captured and no promotion is pending; and from then on the session
    is frozen: every square click and every promotion choice returns the
    state unchanged. *)
Theorem session_ends_with_a_captured_king (s : State) :
  session s →
  (gameStatus s = "active"%string ∨ gameStatus s = "WHITE WINS!"%string ∨
   gameStatus s = "BLACK WINS!"%string) ∧
  (gameStatus s = "active"%string ↔
   ∀ q, q ∈ Captured.white (capturedPieces s)
            ++ Captured.black (capturedPieces s) →
        Piece.type q ≠ King) ∧
  (∀ winner, gameStatus s = winsStatus winner →
     promotionData s = None ∧
     ∃ k, k ∈ capturedOf (capturedPieces s) (opponentOf winner) ∧
          Piece.type k = King ∧ Piece.color k = opponentOf winner) ∧
  (gameStatus s ≠ "active"%string →
   ∀ x y z promotedTo,
     handleSquareClick s x y z = Done s ∧
     handlePromotion s promotedTo = Done s).
Proof.
  intros (_ & _ & _ & _ & _ & Hcol & _ & Hstatus)%session_sessionInv.
  assert (∀ w, gameStatus s = winsStatus w →
            promotionData s = None ∧
            ∃ k, k ∈ capturedOf (capturedPieces s) (opponentOf w) ∧
                 Piece.type k = King ∧ Piece.color k = opponentOf w)
    as Hwin.
  { intros w Hw. destruct Hstatus as [[Hact _]|(w' & k & Hw' & Hpd & Hk & Ht)].
    - rewrite Hact in Hw. by destruct w.
    - assert (w' = w) as -> by (rewrite Hw in Hw'; by destruct w, w').
      split; [done|]. exists k. split; [done|]. split; [done|].
      by apply Hcol. }
  split; [|split; [|split]].
  - destruct Hstatus as [[Hact _]|(w & k & Hw & _)]; [by left|].
    right. rewrite Hw. destruct w; [by left|by right].
  - split.
    + intros Hact q Hq.
      destruct Hstatus as [[_ Hno]|(w & k & Hw & _)].
      * apply elem_of_app in Hq as [Hq|Hq];
          [apply (Hno white q Hq)|apply (Hno black q Hq)].
      * rewrite Hw in Hact. by destruct w.
    + intros Hno. destruct Hstatus as [[Hact _]|(w & k & Hw & _ & Hk & Ht)];
        [done|].
      exfalso. apply (Hno k); [|done].
      apply elem_of_app. destruct w; simpl in Hk; [by right|by left].
  - exact Hwin.
  - intros Hterm x y z r. split.
    + by apply handleSquareClick_terminal.
    + destruct Hstatus as [[Hact _]|(w & k & Hw & Hpd & _)]; [done|].
      unfold handlePromotion. by rewrite Hpd.
Qed.

Lemma moveStep_board_changes s s' :
  moveStep s s' → boardState s' ≠ boardState s.
Proof.
  intros (_ & _ & _ & _ & p & Hon & _ & Hoff) Heq.
  rewrite Heq in Hoff. congruence.
Qed.

(** X15. The turn passes exactly with each completed move.  For every
    event of a session (a square click, or a promotion choice) followed
    by the effect: either board, turn, capture tallies and status are
    all unchanged, or the board has changed, the turn has passed to the
    other side, selection, validMoves and promotionData are cleared, and
    a piece of the side that was to move has left its square. *)
Theorem session_turn_passes_with_each_move (s s' : State) :
  session s →
  (∃ x y z,
     validMovesEffect (stateOf (handleSquareClick s x y z)) = Some s') ∨
  (∃ promotedTo,
     validMovesEffect (stateOf (handlePromotion s promotedTo)) = Some s') →
  (boardState s' = boardState s ∧ turn s' = turn s ∧
   capturedPieces s' = capturedPieces s ∧ gameStatus s' = gameStatus s) ∨
  (boardState s' ≠ boardState s ∧
   turn s' = opponentOf (turn s) ∧
   selectedPiece s' = None ∧ validMoves s' = [] ∧
   promotionData s' = None ∧
   ∃ p, at3 (boardState s) (Piece.x p) (Piece.y p) (Piece.z p)
          = Some (Some p) ∧
        Piece.color p = turn s ∧
        at3 (boardState s') (Piece.x p) (Piece.y p) (Piece.z p)
          = Some None).
Proof.
  intros Hs%session_sessionInv Hev.
  assert (quietStep s s' ∨ moveStep s s') as [Hq|Hm].
  { destruct Hev as [(x & y & z & Heff)|(r & Heff)].
    - destruct (click_step s x y z Hs) as (s'' & Heff' & _ & Hk & _).
      congruence.
    - destruct (promotion_step s r Hs) as (s'' & Heff' & _ & Hk & _).
      congruence. }
  - by left.
  - right. split; [by apply moveStep_board_changes|]. exact Hm.
Qed.

(** X16. A pending promotion in a session.  The pending piece is the
    selected Pawn of the side to move, it stands on the board, and the
    destination is on its far rank.  Until the role is chosen every
    square click returns the state unchanged.  handlePromotion then
    completes the move for whatever role: the destination holds the new
    piece of the pawn's colour, the pawn's square is empty, the turn
    passes and nothing is pending. *)
Theorem session_promotion_completes_the_move
    (s : State) (pd : PromotionData.t) :
  session s →
  promotionData s = Some pd →
  (selectedPiece s = Some (PromotionData.piece pd) ∧
   Piece.type (PromotionData.piece pd) = Pawn ∧
   Piece.color (PromotionData.piece pd) = turn s ∧
   PromotionData.z pd = promotionRank (turn s) ∧
   at3 (boardState s) (Piece.x (PromotionData.piece pd))
       (Piece.y (PromotionData.piece pd))
       (Piece.z (PromotionData.piece pd))
     = Some (Some (PromotionData.piece pd))) ∧
  (∀ x y z, handleSquareClick s x y z = Done s) ∧
  (∀ promotedTo,
     ∃ s', handlePromotion s promotedTo = Done s' ∧
       at3 (boardState s') (PromotionData.x pd) (PromotionData.y pd)
           (PromotionData.z pd)
         = Some (Some (promotedPiece pd promotedTo)) ∧
       at3 (boardState s') (Piece.x (PromotionData.piece pd))
           (Piece.y (PromotionData.piece pd))
           (Piece.z (PromotionData.piece pd)) = Some None ∧
       turn s' = opponentOf (turn s) ∧
       promotionData s' = None ∧ selectedPiece s' = None).
Proof.
  intros Hs%session_sessionInv Hpd.
  pose proof Hs as (_ & _ & Hsel & _ & Hpend & _).
  destruct (Hpend pd Hpd) as (Hact & Hselected & [Hpawn Hrank] & _).
  destruct (Hsel _ Hselected) as [Hon Hturn].
  split; [|split].
  - rewrite <- Hturn. done.
  - intros x y z. unfold handleSquareClick.
    rewrite (bool_decide_eq_true_2 (is_Some (promotionData s)))
      by (rewrite Hpd; by eexists).
    by rewrite orb_true_r.
  - intros r.
    destruct (promotion_step s r Hs)
      as (s' & Heff & _ & _ & [s1 Hdone] & Hcell).
    destruct (Hcell pd Hpd)
      as (Hdest & Horigin & Hturn' & Hnosel & _ & Hnopd & _).
    rewrite Hdone in Heff. simpl in Heff.
    destruct (validMovesEffect_fields _ _ Heff)
      as (Hb & Ht & Hs' & _ & _ & Hp').
    exists s1. split; [done|].
    rewrite <- Hb, <- Ht, <- Hp', <- Hs'. done.
Qed.

(** X17. What a promotion completion does to the rest of the state, on
    a well-formed board whose pawn and destination columns exist and
    differ: the pawn's square is emptied and every cell other than it
    and the destination is as before; a piece standing on the
    destination is appended to the tally of the pawn's opponent, and if
    it is a King the status becomes the pawn's "<COLOUR> WINS!"; with an
    empty destination tallies and status are unchanged; validMoves is
    left to the effect. *)
Theorem promotion_completion_effect
    (s : State) (pd : PromotionData.t) (promotedTo : PieceType)
    (c : option Piece.t) :
  wfBoard (boardState s) →
  promotionData s = Some pd →
  is_Some (at3 (boardState s) (Piece.x (PromotionData.piece pd))
               (Piece.y (PromotionData.piece pd))
               (Piece.z (PromotionData.piece pd))) →
  at3 (boardState s) (PromotionData.x pd) (PromotionData.y pd)
      (PromotionData.z pd) = Some c →
  (Piece.x (PromotionData.piece pd), Piece.y (PromotionData.piece pd),
   Piece.z (PromotionData.piece pd))
    ≠ (PromotionData.x pd, PromotionData.y pd, PromotionData.z pd) →
  ∃ s', handlePromotion s promotedTo = Done s' ∧
    (∀ x' y' z',
       (x', y', z')
         ≠ (PromotionData.x pd, PromotionData.y pd, PromotionData.z pd) →
       at3 (boardState s') x' y' z' =
         if decide ((x', y', z')
                    = (Piece.x (PromotionData.piece pd),
                       Piece.y (PromotionData.piece pd),
                       Piece.z (PromotionData.piece pd)))
         then Some None
         else at3 (boardState s) x' y' z') ∧
    validMoves s' = validMoves s ∧
    match c with
    | None =>
        capturedPieces s' = capturedPieces s ∧ gameStatus s' = gameStatus s
    | Some q =>
        capturedOf (capturedPieces s')
                   (opponentOf (Piece.color (PromotionData.piece pd)))
          = capturedOf (capturedPieces s)
                       (opponentOf (Piece.color (PromotionData.piece pd)))
            ++ [q] ∧
        capturedOf (capturedPieces s')
                   (Piece.color (PromotionData.piece pd))
          = capturedOf (capturedPieces s)
                       (Piece.color (PromotionData.piece pd)) ∧
        gameStatus s' =
          if decide (Piece.type q = King)
          then (toUpperCase (Piece.color (PromotionData.piece pd))
                ++ " WINS!")%string
          else gameStatus s
    end.
Proof.
  intros Hwf Hpd Ho Hc Hne.
  unfold handlePromotion. rewrite Hpd, (jsonCopy_wf _ Hwf).
  destruct (set3_is_Some _ _ _ (Piece.z (PromotionData.piece pd)) _
              None Ho) as [nb1 H1].
  rewrite H1.
  assert (at3 nb1 (PromotionData.x pd) (PromotionData.y pd)
              (PromotionData.z pd) = Some c) as Hc1.
  { rewrite (at3_set3 _ _ _ _ _ _ _ _ _ H1).
    rewrite decide_False; [done|].
    intros (? & ? & ?). apply Hne. congruence. }
  rewrite Hc1.
  destruct (set3_is_Some nb1 (PromotionData.x pd) (PromotionData.y pd)
              (PromotionData.z pd) (PromotionData.z pd)
              (Some (promotedPiece pd promotedTo))) as [nb H2];
    [by eexists|].
  unfold promotedPiece in H2. rewrite H2.
  eexists. split; [done|].
  destruct (recordCapture_fields (Piece.color (PromotionData.piece pd)) c s)
    as (_ & _ & _ & Hvm & _).
  split; [|split; [simpl; by rewrite Hvm|]].
  - intros x' y' z' Hnd. simpl.
    rewrite (at3_set3 _ _ _ _ _ _ _ _ _ H2).
    rewrite decide_False by (intros (? & ? & ?); apply Hnd; congruence).
    rewrite (at3_set3 _ _ _ _ _ _ _ _ _ H1).
    destruct (decide ((x', y', z')
                      = (Piece.x (PromotionData.piece pd),
                         Piece.y (PromotionData.piece pd),
                         Piece.z (PromotionData.piece pd))))
      as [[= -> -> ->]|Hno].
    + by rewrite decide_True.
    + rewrite decide_False; [done|].
      intros (? & ? & ?). apply Hno. congruence.
  - destruct c as [q|]; simpl; [|done].
    destruct (Piece.color (PromotionData.piece pd));
      by case_decide.
Qed.

(** * The sidebar, the scene and the earlier App *)

(** ** Integers as doubles *)

Lemma iter_pos_iter {A} (f : A → A) (n : positive) (x : A) :
  @SpecFloat.iter_pos A f n x = Pos.iter f x n.
Proof.
  revert x. induction n as [n IH|n IH|]; intros x; simpl.
  - rewrite !IH. rewrite Pos.iter_swap. f_equal. by rewrite Pos.iter_swap.
  - by rewrite !IH.
  - done.
Qed.

Lemma Zpos_iter_xO p k : Z.pos (Pos.iter xO p k) = Z.pos p * 2 ^ Z.pos k.
Proof.
  induction k as [|k IH] using Pos.peano_ind.
  - simpl. lia.
  - rewrite Pos.iter_succ, Pos2Z.inj_succ, Z.pow_succ_r by lia.
    rewrite Pos2Z.inj_xO, IH. lia.
Qed.

Lemma shr_1_iter q j :
  Pos.iter shr_1 (Build_shr_record (Z.pos (Pos.iter xO q j)) false false) j
  = Build_shr_record (Z.pos q) false false.
Proof.
  revert q. induction j as [|j IH] using Pos.peano_ind; intros q.
  - done.
  - rewrite Pos.iter_succ_r, Pos.iter_succ. simpl. apply IH.
Qed.

Lemma digits2_pos_bounds p :
  2 ^ (Z.pos (digits2_pos p) - 1) ≤ Z.pos p < 2 ^ Z.pos (digits2_pos p).
Proof.
  induction p as [p IH|p IH|]; simpl; [| |lia].
  - rewrite Pos2Z.inj_succ.
    replace (Z.succ (Z.pos (digits2_pos p)) - 1)
      with (Z.succ (Z.pos (digits2_pos p) - 1)) by lia.
    rewrite !Z.pow_succ_r by lia. lia.
  - rewrite Pos2Z.inj_succ.
    replace (Z.succ (Z.pos (digits2_pos p)) - 1)
      with (Z.succ (Z.pos (digits2_pos p) - 1)) by lia.
    rewrite !Z.pow_succ_r by lia. lia.
Qed.

Lemma digits2_pos_unique n d :
  2 ^ (d - 1) ≤ Z.pos n < 2 ^ d → Z.pos (digits2_pos n) = d.
Proof.
  intros [Hlo Hhi]. pose proof (digits2_pos_bounds n) as [Hlo' Hhi'].
  assert (0 < d).
  { destruct (decide (0 < d)); [done|].
    assert (2 ^ d ≤ 2 ^ 0) as Hpow.
    { destruct (decide (d < 0)); [rewrite Z.pow_neg_r by lia; lia|].
      apply Z.pow_le_mono_r; lia. }
    simpl in Hpow. lia. }
  destruct (Z.lt_trichotomy (Z.pos (digits2_pos n)) d) as [Hlt|[Heq|Hgt]];
    [|done|].
  - assert (2 ^ Z.pos (digits2_pos n) ≤ 2 ^ (d - 1))
      by (apply Z.pow_le_mono_r; lia). lia.
  - assert (2 ^ d ≤ 2 ^ (Z.pos (digits2_pos n) - 1))
      by (apply Z.pow_le_mono_r; lia). lia.
Qed.

Lemma digits2_pos_shift p m k :
  0 ≤ k → Z.pos m = Z.pos p * 2 ^ k →
  Z.pos (digits2_pos m) = Z.pos (digits2_pos p) + k.
Proof.
  intros Hk Hm. apply digits2_pos_unique. rewrite Hm.
  pose proof (digits2_pos_bounds p) as [Hlo Hhi].
  replace (Z.pos (digits2_pos p) + k - 1)
    with ((Z.pos (digits2_pos p) - 1) + k) by lia.
  rewrite !Z.pow_add_r by lia.
  assert (0 < 2 ^ k) by (apply Z.pow_pos_nonneg; lia). nia.
Qed.

Lemma shl_align_spec mx ex ex' :
  Z.pos (shl_align mx ex ex').1 = Z.pos mx * 2 ^ (ex - Z.min ex ex') ∧
  (shl_align mx ex ex').2 = Z.min ex ex'.
Proof.
  unfold shl_align. destruct (ex' - ex) as [|d|d] eqn:Hd; simpl.
  - rewrite Z.min_l by lia. rewrite Z.sub_diag. simpl. lia.
  - rewrite Z.min_l by lia. rewrite Z.sub_diag. simpl. lia.
  - rewrite Z.min_r by lia. rewrite Zpos_iter_xO.
    replace (ex - ex') with (Z.pos d) by lia. done.
Qed.

Lemma shr_exact m q e n :
  0 ≤ n → Z.pos m = Z.pos q * 2 ^ n →
  shr (Build_shr_record (Z.pos m) false false) e n
  = (Build_shr_record (Z.pos q) false false, e + n).
Proof.
  intros Hn Hm. destruct n as [|j|j]; [| |lia]; simpl.
  - rewrite Z.add_0_r. simpl in Hm. do 2 f_equal. lia.
  - rewrite iter_pos_iter. f_equal.
    assert (m = Pos.iter xO q j) as ->.
    { apply Pos2Z.inj. by rewrite Zpos_iter_xO. }
    apply shr_1_iter.
Qed.

Lemma Zpos_mant p :
  Z.pos (digits2_pos p) ≤ 53 →
  Z.pos (mant p) = Z.pos p * 2 ^ (53 - Z.pos (digits2_pos p)).
Proof.
  intros Hd. unfold mant. rewrite Z2Pos.id; [done|].
  assert (0 < 2 ^ (53 - Z.pos (digits2_pos p)))
    by (apply Z.pow_pos_nonneg; lia). lia.
Qed.

Lemma fexp_normal e : -1021 ≤ e → fexp 53 1024 e = e - 53.
Proof. unfold fexp, emin. lia. Qed.

Lemma shr_fexp_exact m q e t :
  fexp 53 1024 (Z.pos (digits2_pos m) + e) = t → e ≤ t →
  Z.pos m = Z.pos q * 2 ^ (t - e) →
  shr_fexp 53 1024 (Z.pos m) e loc_Exact
  = (Build_shr_record (Z.pos q) false false, t).
Proof.
  intros Hf He Hm. unfold shr_fexp.
  change (Zdigits2 (Z.pos m)) with (Z.pos (digits2_pos m)). rewrite Hf.
  change (shr_record_of_loc (Z.pos m) loc_Exact)
    with (Build_shr_record (Z.pos m) false false).
  rewrite (shr_exact m q e (t - e)) by (done || lia). f_equal. lia.
Qed.

Lemma binary_round_exact s p m k :
  Z.pos (digits2_pos p) ≤ 53 → 0 ≤ k → Z.pos m = Z.pos p * 2 ^ k →
  binary_round 53 1024 s m (- k)
  = S754_finite s (mant p) (Z.pos (digits2_pos p) - 53).
Proof.
  intros Hd Hk Hm.
  pose proof (digits2_pos_shift p m k Hk Hm) as Hdm.
  pose proof (Zpos_mant p Hd) as Hq.
  assert (Z.pos (digits2_pos (mant p)) = 53) as Hdq.
  { rewrite (digits2_pos_shift p (mant p) (53 - Z.pos (digits2_pos p)));
      [lia|lia|done]. }
  set (d := Z.pos (digits2_pos p)) in *.
  assert (1 ≤ d) as Hd1 by (unfold d; lia).
  unfold binary_round. rewrite Hdm.
  replace (d + k + - k) with d by lia.
  rewrite (fexp_normal d) by lia.
  pose proof (shl_align_spec m (- k) (d - 53)) as [Hmz Hez].
  destruct (shl_align m (- k) (d - 53)) as [mz ez]. simpl in Hmz, Hez.
  subst ez. set (E := Z.min (- k) (d - 53)) in *.
  assert (Z.pos mz = Z.pos p * 2 ^ (- E)) as Hmz'.
  { rewrite Hmz, Hm, <- Z.mul_assoc, <- Z.pow_add_r by lia.
    do 2 f_equal. lia. }
  unfold binary_round_aux.
  rewrite (shr_fexp_exact mz (mant p) E (d - 53)).
  - cbn [shr_m loc_of_shr_record round_nearest_even].
    rewrite (shr_fexp_exact (mant p) (mant p) (d - 53) (d - 53)).
    + cbn [shr_m]. destruct (Z.leb_spec (d - 53) (1024 - 53)); [done|lia].
    + rewrite Hdq. rewrite fexp_normal by lia. lia.
    + lia.
    + rewrite Z.sub_diag. simpl. lia.
  - rewrite (digits2_pos_shift p mz (- E)) by (lia || done).
    fold d. replace (d + - E + E) with d by lia. apply fexp_normal. lia.
  - lia.
  - rewrite Hmz', Hq. fold d. rewrite <- Z.mul_assoc, <- Z.pow_add_r by lia.
    do 2 f_equal. lia.
Qed.

Lemma digits2_pos_le_53 p : Z.pos p < 2 ^ 53 → Z.pos (digits2_pos p) ≤ 53.
Proof.
  intros Hp. pose proof (digits2_pos_bounds p) as [Hlo _].
  destruct (decide (Z.pos (digits2_pos p) ≤ 53)) as [|Hgt]; [done|].
  assert (2 ^ 53 ≤ 2 ^ (Z.pos (digits2_pos p) - 1))
    by (apply Z.pow_le_mono_r; lia). lia.
Qed.

Lemma ofZ_pos p : Z.pos p < 2 ^ 53 → JsNumber.ofZ (Z.pos p) = normalDouble false p.
Proof.
  intros Hp%digits2_pos_le_53.
  exact (binary_round_exact false p p 0 Hp (Z.le_refl 0)
           (eq_sym (Z.mul_1_r (Z.pos p)))).
Qed.

Lemma ofZ_neg p : Z.pos p < 2 ^ 53 → JsNumber.ofZ (Z.neg p) = normalDouble true p.
Proof.
  intros Hp%digits2_pos_le_53.
  exact (binary_round_exact true p p 0 Hp (Z.le_refl 0)
           (eq_sym (Z.mul_1_r (Z.pos p)))).
Qed.

Lemma ofZ_cond_Zopp s p :
  Z.pos p < 2 ^ 53 → JsNumber.ofZ (cond_Zopp s (Z.pos p)) = normalDouble s p.
Proof. destruct s; [apply ofZ_neg|apply ofZ_pos]. Qed.

Lemma binary_normalize_exact v k :
  Z.abs v < 2 ^ 53 → 0 ≤ k →
  binary_normalize 53 1024 (v * 2 ^ k) (- k) false = JsNumber.ofZ v.
Proof.
  intros Hv Hk. assert (0 < 2 ^ k) as Hpow by (apply Z.pow_pos_nonneg; lia).
  destruct v as [|p|p].
  - done.
  - rewrite ofZ_pos by lia.
    destruct (Z.pos p * 2 ^ k) as [|m|m] eqn:Hm; [lia| |lia].
    apply binary_round_exact; [apply digits2_pos_le_53; lia|done|done].
  - rewrite ofZ_neg by lia.
    destruct (Z.neg p * 2 ^ k) as [|m|m] eqn:Hm; [lia|lia|].
    apply binary_round_exact; [apply digits2_pos_le_53; lia|done|lia].
Qed.

Lemma binary_normalize_aligned v e :
  Z.abs v < 2 ^ 53 → e ≤ 0 →
  binary_normalize 53 1024 (v * 2 ^ (- e)) e false = JsNumber.ofZ v.
Proof.
  intros Hv He.
  pose proof (binary_normalize_exact v (- e) Hv ltac:(lia)) as H.
  by rewrite Z.opp_involutive in H.
Qed.

Lemma aligned_mantissa s p ez :
  Z.pos (digits2_pos p) ≤ 53 →
  ez ≤ Z.pos (digits2_pos p) - 53 →
  cond_Zopp s (Z.pos (shl_align (mant p) (Z.pos (digits2_pos p) - 53) ez).1)
  = cond_Zopp s (Z.pos p) * 2 ^ (- ez).
Proof.
  intros Hd He.
  destruct (shl_align_spec (mant p) (Z.pos (digits2_pos p) - 53) ez)
    as [-> _].
  rewrite Z.min_r by lia. rewrite Zpos_mant by done.
  rewrite <- Z.mul_assoc, <- Z.pow_add_r by lia.
  replace (53 - Z.pos (digits2_pos p) + (Z.pos (digits2_pos p) - 53 - ez))
    with (- ez) by lia.
  destruct s; simpl; lia.
Qed.

Lemma add_exact_finite sa sb pa pb :
  Z.pos pa < 2 ^ 53 → Z.pos pb < 2 ^ 53 →
  Z.abs (cond_Zopp sa (Z.pos pa) + cond_Zopp sb (Z.pos pb)) < 2 ^ 53 →
  JsNumber.add (normalDouble sa pa) (normalDouble sb pb)
  = JsNumber.ofZ (cond_Zopp sa (Z.pos pa) + cond_Zopp sb (Z.pos pb)).
Proof.
  intros Ha%digits2_pos_le_53 Hb%digits2_pos_le_53 Hab.
  unfold JsNumber.add, normalDouble, SFadd.
  set (ez := Z.min (Z.pos (digits2_pos pa) - 53) (Z.pos (digits2_pos pb) - 53)).
  rewrite !aligned_mantissa by (done || lia).
  rewrite <- Z.mul_add_distr_r.
  apply binary_normalize_aligned; [done|lia].
Qed.

Lemma sub_exact_finite sa sb pa pb :
  Z.pos pa < 2 ^ 53 → Z.pos pb < 2 ^ 53 →
  Z.abs (cond_Zopp sa (Z.pos pa) - cond_Zopp sb (Z.pos pb)) < 2 ^ 53 →
  JsNumber.sub (normalDouble sa pa) (normalDouble sb pb)
  = JsNumber.ofZ (cond_Zopp sa (Z.pos pa) - cond_Zopp sb (Z.pos pb)).
Proof.
  intros Ha%digits2_pos_le_53 Hb%digits2_pos_le_53 Hab.
  unfold JsNumber.sub, normalDouble, SFsub.
  set (ez := Z.min (Z.pos (digits2_pos pa) - 53) (Z.pos (digits2_pos pb) - 53)).
  rewrite !aligned_mantissa by (done || lia).
  rewrite <- Z.mul_sub_distr_r.
  apply binary_normalize_aligned; [done|lia].
Qed.

Lemma ofZ_cases n :
  Z.abs n < 2 ^ 53 →
  (n = 0 ∧ JsNumber.ofZ n = S754_zero false) ∨
  (∃ s p, n = cond_Zopp s (Z.pos p) ∧ Z.pos p < 2 ^ 53 ∧
          JsNumber.ofZ n = normalDouble s p).
Proof.
  intros Hn. destruct n as [|p|p].
  - by left.
  - right. exists false, p. split; [done|]. split; [lia|]. apply ofZ_pos. lia.
  - right. exists true, p. split; [done|]. split; [lia|]. apply ofZ_neg. lia.
Qed.

(** Addition and subtraction of integers are exact as long as operands
    and result stay below 2^53 in magnitude. *)
Lemma add_exact a b :
  Z.abs a < 2 ^ 53 → Z.abs b < 2 ^ 53 → Z.abs (a + b) < 2 ^ 53 →
  JsNumber.add (JsNumber.ofZ a) (JsNumber.ofZ b) = JsNumber.ofZ (a + b).
Proof.
  intros Ha Hb Hab.
  destruct (ofZ_cases a Ha) as [[-> Ea]|(sa & pa & -> & Hpa & Ea)];
  destruct (ofZ_cases b Hb) as [[-> Eb]|(sb & pb & -> & Hpb & Eb)].
  - done.
  - rewrite Z.add_0_l, Ea, Eb. done.
  - rewrite Z.add_0_r, Ea, Eb. done.
  - rewrite Ea, Eb. by apply add_exact_finite.
Qed.

Lemma sub_exact a b :
  Z.abs a < 2 ^ 53 → Z.abs b < 2 ^ 53 → Z.abs (a - b) < 2 ^ 53 →
  JsNumber.sub (JsNumber.ofZ a) (JsNumber.ofZ b) = JsNumber.ofZ (a - b).
Proof.
  intros Ha Hb Hab.
  destruct (ofZ_cases a Ha) as [[-> Ea]|(sa & pa & -> & Hpa & Ea)];
  destruct (ofZ_cases b Hb) as [[-> Eb]|(sb & pb & -> & Hpb & Eb)].
  - done.
  - rewrite Ea, Eb.
    replace (0 - cond_Zopp sb (Z.pos pb))
      with (cond_Zopp (negb sb) (Z.pos pb)) by (destruct sb; simpl; lia).
    by rewrite ofZ_cond_Zopp.
  - rewrite Z.sub_0_r, Ea, Eb. done.
  - rewrite Ea, Eb. by apply sub_exact_finite.
Qed.

Lemma compare_exact pa pb :
  Z.pos (digits2_pos pa) ≤ 53 → Z.pos (digits2_pos pb) ≤ 53 →
  match Z.pos (digits2_pos pa) - 53 ?= Z.pos (digits2_pos pb) - 53 with
  | Lt => Lt
  | Gt => Gt
  | Eq => Pos.compare_cont Eq (mant pa) (mant pb)
  end = (Z.pos pa ?= Z.pos pb).
Proof.
  intros Ha Hb.
  pose proof (digits2_pos_bounds pa) as [Hloa Hhia].
  pose proof (digits2_pos_bounds pb) as [Hlob Hhib].
  destruct (Z.compare_spec (Z.pos (digits2_pos pa) - 53)
                           (Z.pos (digits2_pos pb) - 53)) as [Heq|Hlt|Hgt].
  - change (Pos.compare_cont Eq (mant pa) (mant pb))
      with (Z.pos (mant pa) ?= Z.pos (mant pb)).
    rewrite !Zpos_mant by done.
    replace (Z.pos (digits2_pos pb)) with (Z.pos (digits2_pos pa)) by lia.
    symmetry. apply Zmult_compare_compat_r, Z.lt_gt, Z.pow_pos_nonneg; lia.
  - symmetry. apply Z.compare_lt_iff.
    assert (2 ^ Z.pos (digits2_pos pa) ≤ 2 ^ (Z.pos (digits2_pos pb) - 1))
      by (apply Z.pow_le_mono_r; lia). lia.
  - symmetry. apply Z.compare_gt_iff.
    assert (2 ^ Z.pos (digits2_pos pb) ≤ 2 ^ (Z.pos (digits2_pos pa) - 1))
      by (apply Z.pow_le_mono_r; lia). lia.
Qed.

(** Comparison of integers below 2^53 in magnitude is the comparison of
    the doubles. *)
Lemma ltb_exact a b :
  Z.abs a < 2 ^ 53 → Z.abs b < 2 ^ 53 →
  JsNumber.ltb (JsNumber.ofZ a) (JsNumber.ofZ b) = bool_decide (a < b).
Proof.
  intros Ha Hb. apply eq_true_iff_eq. rewrite bool_decide_eq_true.
  destruct (ofZ_cases a Ha) as [[-> Ea]|(sa & pa & -> & Hpa & Ea)];
  destruct (ofZ_cases b Hb) as [[-> Eb]|(sb & pb & -> & Hpb & Eb)];
    rewrite ?Ea, ?Eb; unfold JsNumber.ltb, SFltb, normalDouble.
  - simpl. split; [done|lia].
  - destruct sb; simpl; split; (done || lia).
  - destruct sa; simpl; split; (done || lia).
  - pose proof (compare_exact pa pb (digits2_pos_le_53 _ Hpa)
                  (digits2_pos_le_53 _ Hpb)) as Hc.
    destruct sa, sb; cbn [SFcompare cond_Zopp].
    + assert (match Z.pos (digits2_pos pa) - 53 ?= Z.pos (digits2_pos pb) - 53
              with
              | Eq => CompOpp (Pos.compare_cont Eq (mant pa) (mant pb))
              | Lt => Gt
              | Gt => Lt
              end = CompOpp (Z.pos pa ?= Z.pos pb)) as ->.
      { rewrite <- Hc.
        by destruct (Z.pos (digits2_pos pa) - 53
                     ?= Z.pos (digits2_pos pb) - 53). }
      destruct (Z.compare_spec (Z.pos pa) (Z.pos pb)); simpl; split;
        (done || lia).
    + split; [lia|done].
    + split; [done|lia].
    + rewrite Hc.
      destruct (Z.compare_spec (Z.pos pa) (Z.pos pb)); split; (done || lia).
Qed.

(** ** The sidebar *)

Lemma doDrag_bounds startWidth startX w clientX :
  withinSidebarBounds w →
  withinSidebarBounds (doDrag startWidth startX w clientX).
Proof.
  intros Hw. unfold doDrag.
  destruct (JsNumber.ltb _ _ && JsNumber.ltb _ _) eqn:Htest; [|done].
  by apply andb_true_iff in Htest.
Qed.

Lemma foldl_doDrag_bounds startWidth startX cur moves :
  withinSidebarBounds cur →
  withinSidebarBounds (foldl (doDrag startWidth startX) cur moves).
Proof.
  revert cur. induction moves as [|c moves IH]; intros cur Hcur; [done|].
  simpl. apply IH. by apply doDrag_bounds.
Qed.

Lemma startResizing_bounds w startX moves :
  withinSidebarBounds w → withinSidebarBounds (startResizing w startX moves).
Proof. apply foldl_doDrag_bounds. Qed.

Lemma withinSidebarBounds_finite w : withinSidebarBounds w → isFinite w = true.
Proof. intros [H1 H2]. destruct w as [| [|] | |]; done. Qed.

Lemma not_finite_ignored w startX clientX :
  isFinite clientX = false ∨ isFinite startX = false →
  isFinite (JsNumber.sub (JsNumber.add w clientX) startX) = false.
Proof.
  intros [Hc|Hx].
  - destruct clientX as [| sc | |]; try done;
      destruct w as [| [|] | |], startX as [| [|] | |];
      try destruct sc; done.
  - destruct startX as [| sx | |]; try done;
      destruct (JsNumber.add w clientX) as [| [|] | |];
      try destruct sx; done.
Qed.

Lemma doDrag_not_finite startWidth startX w clientX :
  isFinite clientX = false ∨ isFinite startX = false →
  doDrag startWidth startX w clientX = w.
Proof.
  intros H%(not_finite_ignored startWidth). unfold doDrag.
  destruct (JsNumber.ltb _ _ && JsNumber.ltb _ _) eqn:Htest; [|done].
  apply andb_true_iff in Htest.
  by rewrite (withinSidebarBounds_finite _ Htest) in H.
Qed.

Lemma doDrag_integer w startX cur clientX :
  280 < w < 600 → pixelRange startX → pixelRange clientX →
  doDrag (JsNumber.ofZ w) (JsNumber.ofZ startX) cur (JsNumber.ofZ clientX)
  = if bool_decide (280 < w + clientX - startX < 600)
    then JsNumber.ofZ (w + clientX - startX)
    else cur.
Proof.
  unfold pixelRange. change (2 ^ 51) with 2251799813685248.
  intros Hw Hx Hc. unfold doDrag.
  assert (2 ^ 53 = 9007199254740992) as E53 by done.
  rewrite add_exact, sub_exact, !ltb_exact by (rewrite E53; lia).
  repeat case_bool_decide; simpl; (done || lia).
Qed.

Lemma foldl_doDrag_integer w startX cur moves :
  280 < w < 600 → pixelRange startX → 280 < cur < 600 →
  Forall pixelRange moves →
  ∃ n, foldl (doDrag (JsNumber.ofZ w) (JsNumber.ofZ startX))
             (JsNumber.ofZ cur) (JsNumber.ofZ <$> moves) = JsNumber.ofZ n ∧
       280 < n < 600.
Proof.
  intros Hw Hx Hcur Hmoves. revert cur Hcur.
  induction Hmoves as [|c moves Hc _ IH]; intros cur Hcur; [by exists cur|].
  rewrite fmap_cons. simpl. rewrite doDrag_integer by done.
  case_bool_decide; by apply IH.
Qed.

Lemma resized_integer drags :
  Forall (λ d, pixelRange d.1 ∧ Forall pixelRange d.2) drags →
  ∃ n, resized (integerDrag <$> drags) = JsNumber.ofZ n ∧ 280 < n < 600.
Proof.
  unfold resized. assert (280 < 350 < 600) as H350 by lia.
  revert H350. generalize 350. intros w Hw Hdrags. revert w Hw.
  induction Hdrags as [|[x moves] drags [Hx Hmoves] _ IH]; intros w Hw;
    [by exists w|].
  rewrite fmap_cons. simpl.
  destruct (foldl_doDrag_integer w x w moves Hw Hx Hw Hmoves)
    as (n & Hn & Hbounds).
  unfold startResizing. rewrite Hn. by apply IH.
Qed.

(** X18. The sidebar width, computed in doubles.
    - After any sequence of drags, at any mouse positions (fractional,
      infinite or NaN included), the width is a finite number strictly
      between 280 and 600.
    - A mouse position that is NaN or infinite, and every position of a
      drag started at such a position, leaves the width as it is.
    - At integer positions of magnitude up to 2^51 the arithmetic is
      exact: a mouse position sets the width to the width at mousedown
      plus the distance from the mousedown position when that lies
      strictly between 280 and 600, and is ignored otherwise; moving the
      mouse back to where the drag started restores the width the drag
      started with; the width stays an integer.
    - Beyond that range the sum is rounded: a drag of width 351 started
      and continued at position 2^53 sets the width to 352. *)
Theorem sidebar_width_stays_in_bounds :
  (∀ drags,
     isFinite (resized drags) = true ∧
     JsNumber.ltb (JsNumber.ofZ 280) (resized drags) = true ∧
     JsNumber.ltb (resized drags) (JsNumber.ofZ 600) = true) ∧
  (∀ w startX moves clientX,
     isFinite clientX = false ∨ isFinite startX = false →
     startResizing w startX (moves ++ [clientX])
     = startResizing w startX moves) ∧
  (∀ w startX clientX moves,
     280 < w < 600 → pixelRange startX → pixelRange clientX →
     startResizing (JsNumber.ofZ w) (JsNumber.ofZ startX)
                   (moves ++ [JsNumber.ofZ clientX])
     = if bool_decide (280 < w + clientX - startX < 600)
       then JsNumber.ofZ (w + clientX - startX)
       else startResizing (JsNumber.ofZ w) (JsNumber.ofZ startX) moves) ∧
  (∀ w startX moves,
     280 < w < 600 → pixelRange startX →
     startResizing (JsNumber.ofZ w) (JsNumber.ofZ startX)
                   (moves ++ [JsNumber.ofZ startX])
     = JsNumber.ofZ w) ∧
  (∀ drags,
     Forall (λ d, pixelRange d.1 ∧ Forall pixelRange d.2) drags →
     ∃ n, resized (integerDrag <$> drags) = JsNumber.ofZ n ∧
          280 < n < 600) ∧
  startResizing (JsNumber.ofZ 351) (JsNumber.ofZ (2 ^ 53))
                [JsNumber.ofZ (2 ^ 53)]
  = JsNumber.ofZ 352.
Proof.
  assert (∀ w startX clientX moves,
     280 < w < 600 → pixelRange startX → pixelRange clientX →
     startResizing (JsNumber.ofZ w) (JsNumber.ofZ startX)
                   (moves ++ [JsNumber.ofZ clientX])
     = if bool_decide (280 < w + clientX - startX < 600)
       then JsNumber.ofZ (w + clientX - startX)
       else startResizing (JsNumber.ofZ w) (JsNumber.ofZ startX) moves)
    as Hlast.
  { intros w startX clientX moves Hw Hx Hc. unfold startResizing.
    rewrite foldl_snoc. by apply doDrag_integer. }
  split; [|split; [|split; [exact Hlast|split; [|split]]]].
  - intros drags.
    assert (withinSidebarBounds (resized drags)) as Hb.
    { unfold resized.
      assert (withinSidebarBounds (JsNumber.ofZ 350)) as H350
        by (split; vm_compute; reflexivity).
      revert H350. generalize (JsNumber.ofZ 350).
      induction drags as [|d drags IH]; intros w Hw; [done|].
      simpl. apply IH. by apply startResizing_bounds. }
    split; [by apply withinSidebarBounds_finite|exact Hb].
  - intros w startX moves clientX Hnf. unfold startResizing.
    rewrite foldl_snoc. by apply doDrag_not_finite.
  - intros w startX moves Hw Hx. rewrite Hlast by done.
    replace (w + startX - startX) with w by lia.
    by rewrite bool_decide_eq_true_2.
  - apply resized_integer.
  - vm_compute. reflexivity.
Qed.

(** X20. The earlier App component (without promotion and castling)
    and the current one handle a square click alike whenever no
    promotion is pending, no listed move carries a castle tag, and the
    click is not on the far rank of a selected Pawn: the promotion test
    and the castle branch are the only differences. *)
Theorem legacy_click_agrees (s : State) (x y z : Z) :
  promotionData s = None →
  (∀ m, m ∈ validMoves s → Move.castle m = None) →
  (∀ sel, selectedPiece s = Some sel → ¬ promotes sel z) →
  handleSquareClick s x y z = Legacy.handleSquareClick s x y z.
Proof.
  intros Hpd Hcastle Hnp.
  unfold handleSquareClick, Legacy.handleSquareClick.
  rewrite Hpd. rewrite (bool_decide_eq_false_2 (is_Some None))
    by (by intros [? ?]).
  rewrite orb_false_r.
  destruct (negb _); [done|].
  destruct (at3 (boardState s) x y z) as [clickedPiece|]; [|done].
  destruct (selectedPiece s) as [sel|]; [|done].
  destruct (find (isTarget x y z) (validMoves s)) as [move|] eqn:Hfind.
  - pose proof Hfind as [Hm%list_elem_of_In Ht]%find_some.
    assert (existsb (isTarget x y z) (validMoves s) = true) as ->.
    { apply existsb_exists. exists move. split; [|done].
      by apply list_elem_of_In. }
    unfold executeMove, Legacy.executeMove.
    rewrite (promotes_false _ _ (Hnp sel eq_refl)).
    destruct (at3 (jsonCopy (boardState s)) x y z); [|done].
    by rewrite (writeMove_plain _ _ _ _ _ _ (Hcastle move Hm)).
  - assert (existsb (isTarget x y z) (validMoves s) = false) as ->; [|done].
    apply not_true_is_false. intros (m & Hm & Ht)%existsb_exists.
    by rewrite (find_none _ _ Hfind m Hm) in Ht.
Qed.

Lemma rowPieces_elem row p :
  p ∈ rowPieces row ↔ ∃ z, 0 ≤ z < len row ∧ cells row !! z = Some p.
Proof.
  unfold rowPieces. rewrite list_elem_of_omap. split.
  - intros (z & Hz%elem_of_seqZ & Hp). exists z. split; [lia|done].
  - intros (z & Hz & Hp). exists z. split; [|done].
    apply elem_of_seqZ. lia.
Qed.

Lemma idx_elem_of {A} (l : list A) a :
  a ∈ l ↔ ∃ i, idx l i = Some a.
Proof.
  rewrite list_elem_of_lookup. split.
  - intros [i Hi]. exists (Z.of_nat i). apply idx_Some.
    split; [lia|]. by rewrite Nat2Z.id.
  - intros [i [_ Hi]%idx_Some]. eauto.
Qed.

(** The pieces of the scene are the pieces in the elements of the
    board's arrays. *)
Lemma visitedPieces_elem b p :
  p ∈ visitedPieces b ↔
  ∃ x y z plane row,
    idx b x = Some plane ∧ idx plane y = Some row ∧
    0 ≤ z < len row ∧ cells row !! z = Some p.
Proof.
  unfold visitedPieces. rewrite list_elem_of_bind. split.
  - intros (plane & (row & (z & Hz & Hp)%rowPieces_elem
                     & [y Hy]%idx_elem_of)%list_elem_of_bind
            & [x Hx]%idx_elem_of).
    exists x, y, z, plane, row. done.
  - intros (x & y & z & plane & row & Hx & Hy & Hz & Hp).
    exists plane. split; [|apply idx_elem_of; eauto].
    apply list_elem_of_bind. exists row.
    split; [|apply idx_elem_of; eauto].
    apply rowPieces_elem. eauto.
Qed.

(** Lists produced from the elements of an array are disjoint when each
    produced item tells the index of its element. *)
Lemma NoDup_bind_keyed {A B} (f : A → list B) (key : B → Z)
    (l : list A) (i0 : Z) :
  (∀ i a y, l !! i = Some a → y ∈ f a → key y = i0 + Z.of_nat i) →
  (∀ a, a ∈ l → NoDup (f a)) →
  NoDup (l ≫= f).
Proof.
  revert i0. induction l as [|a l IH]; intros i0 Hkey Hnd; simpl.
  - apply NoDup_nil_2.
  - apply NoDup_app. split; [|split].
    + apply Hnd. by left.
    + intros y Hy (a' & Hy' & [i Hi]%list_elem_of_lookup)%list_elem_of_bind.
      pose proof (Hkey 0%nat a y eq_refl Hy) as H0.
      pose proof (Hkey (S i) a' y Hi Hy') as H1. lia.
    + apply (IH (i0 + 1)).
      * intros i a' y Hi Hy. rewrite (Hkey (S i) a' y Hi Hy). lia.
      * intros a' Ha'. apply Hnd. by right.
Qed.

Lemma rowPieces_NoDup row :
  (∀ z p, cells row !! z = Some p → Piece.z p = z) →
  NoDup (rowPieces row).
Proof.
  intros Hkey. unfold rowPieces.
  generalize (seqZ 0 (len row)) (NoDup_seqZ 0 (len row)).
  intros l. induction 1 as [|z l Hz _ IH]; simpl; [apply NoDup_nil_2|].
  destruct (cells row !! z) as [p|] eqn:Hp; [|done].
  apply NoDup_cons. split; [|done].
  intros (z' & Hz' & Hp')%list_elem_of_omap.
  apply Hkey in Hp. apply Hkey in Hp'. congruence.
Qed.

Lemma visitedPieces_NoDup b : boardInv b → NoDup (visitedPieces b).
Proof.
  intros Hinv. unfold visitedPieces.
  apply (NoDup_bind_keyed _ Piece.x b 0).
  - intros i plane p Hi
      (row & (z & _ & Hp)%rowPieces_elem & [y Hy]%idx_elem_of)%list_elem_of_bind.
    destruct (Hinv (Z.of_nat i) y z p) as (Hx & _); [|lia].
    apply at3_Some. exists plane, row. split; [|done].
    apply idx_Some. split; [lia|]. by rewrite Nat2Z.id.
  - intros plane [x Hx]%idx_elem_of.
    apply (NoDup_bind_keyed _ Piece.y plane 0).
    + intros j row p Hj (z & _ & Hp)%rowPieces_elem.
      destruct (Hinv x (Z.of_nat j) z p) as (_ & Hy & _); [|lia].
      apply at3_Some. exists plane, row. split; [done|]. split; [|done].
      apply idx_Some. split; [lia|]. by rewrite Nat2Z.id.
    + intros row [y Hy]%idx_elem_of. apply rowPieces_NoDup.
      intros z p Hp. destruct (Hinv x y z p) as (_ & _ & Hz); [|done].
      apply at3_Some. exists plane, row. done.
Qed.

(** forEach reaches as many pieces as the board holds. *)
Lemma rowPieces_length row :
  wfColumn row → length (rowPieces row) = size (cells row).
Proof.
  intros [Hlen Hkeys]. unfold rowPieces. rewrite Hlen.
  generalize (cells row) Hkeys. clear. unfold SIZE.
  assert (8 = Z.of_nat 8) as -> by done.
  generalize 8%nat. intros n. induction n as [|n IH]; intros m Hkeys.
  - simpl. symmetry. apply map_size_empty_iff, map_empty.
    intros k. destruct (m !! k) as [v|] eqn:Hk; [|done].
    apply Hkeys in Hk. lia.
  - replace (Z.of_nat (S n)) with (Z.of_nat n + 1) by lia.
    rewrite seqZ_app by lia. rewrite omap_app, length_app. simpl.
    assert (omap (λ z, m !! z) (seqZ 0 (Z.of_nat n))
            = omap (λ z, delete (Z.of_nat n) m !! z) (seqZ 0 (Z.of_nat n)))
      as ->.
    { apply list_omap_ext, Forall2_same_length_lookup.
      split; [done|]. intros i z z' Hz Hz'.
      assert (z' = z) as -> by congruence.
      apply lookup_seqZ in Hz as [-> Hi].
      rewrite lookup_delete_ne by lia. done. }
    rewrite (IH (delete (Z.of_nat n) m)).
    2:{ intros k v [Hne Hk]%lookup_delete_Some. apply Hkeys in Hk. lia. }
    replace (Z.of_nat 0 + (0 + Z.of_nat n)) with (Z.of_nat n) by lia.
    destruct (m !! Z.of_nat n) as [v|] eqn:Hn; simpl.
    + assert (size m = S (size (delete (Z.of_nat n) m))) as ->; [|lia].
      rewrite <- (insert_delete_id m (Z.of_nat n) v Hn) at 1.
      apply map_size_insert_None, lookup_delete_eq.
    + rewrite delete_id by done. lia.
Qed.

Lemma length_bind_sum {A B} (f : A → list B) (l : list A) :
  length (l ≫= f) = sum_list_with (λ a, length (f a)) l.
Proof.
  induction l as [|a l IH]; [done|].
  rewrite bind_cons, length_app, IH. done.
Qed.

Lemma sum_list_with_Forall {A} (f g : A → nat) (l : list A) :
  Forall (λ a, f a = g a) l → sum_list_with f l = sum_list_with g l.
Proof. induction 1 as [|a l Ha _ IH]; simpl; [done|]. by rewrite Ha, IH. Qed.

Lemma visitedPieces_length b :
  wfBoard b → length (visitedPieces b) = pieceCount b.
Proof.
  intros [_ Hcols]. unfold visitedPieces, pieceCount.
  rewrite length_bind_sum. apply sum_list_with_Forall.
  eapply Forall_impl; [exact Hcols|]. intros plane Hplane. simpl.
  rewrite length_bind_sum. apply sum_list_with_Forall.
  eapply Forall_impl; [exact Hplane|]. intros row Hrow. simpl.
  by apply rowPieces_length.
Qed.

(** createPieceMesh names a mesh iff the role has a model. *)
Lemma createPieceMesh_named q models x y z p :
  createPieceMesh q models = Object3D.mk (pieceName x y z) (Some p) ↔
  is_Some (models (Piece.type q)) ∧ q = p ∧
  (Piece.x q, Piece.y q, Piece.z q) = (x, y, z).
Proof.
  unfold createPieceMesh, newGroup.
  destruct (models (Piece.type q)) as [model|]; simpl; split.
  - intros [= <- <- <- <-]. split; [by eexists|done].
  - by intros (_ & -> & [= <- <- <-]).
  - intros [=].
  - by intros ([? [=]] & _).
Qed.

Lemma createPieceMesh_cases q models :
  (models (Piece.type q) = None ∧ createPieceMesh q models = newGroup) ∨
  (is_Some (models (Piece.type q)) ∧
   createPieceMesh q models
   = Object3D.mk (pieceName (Piece.x q) (Piece.y q) (Piece.z q)) (Some q)).
Proof.
  unfold createPieceMesh.
  destruct (models (Piece.type q)) as [model|]; simpl.
  - right. split; [by eexists|done].
  - by left.
Qed.

(** X19. What the sync effect of the 3D scene puts into the pieces
    group.  As long as the assets are not loaded, or no models are
    stored, the effect leaves the group as it is, whatever the board.
    With assets loaded, in a session, it replaces the children of the
    group by one object per piece on the board, in board order,
    whatever was there before:
    - a piece whose role has a model gives a mesh named after the cell
      that holds it ([piece_x_y_z]) with the piece as userData; a piece
      whose role has no model gives an unnamed empty group;
    - no two children carry the same piece name, and when every role
      has a model all names are distinct;
    - when a piece is selected, the highlight test holds for the
      children that carry the selected piece and for no other, so for at
      most one child, and for exactly one when the role of the selected
      piece has a model. *)
Theorem scene_shows_each_piece_once
    (s : State) (models : PieceModels) (old : list Object3D.t) :
  session s →
  (∀ pieceModelsRef piecesGroupRef,
     syncPieces false pieceModelsRef piecesGroupRef (boardState s)
       = piecesGroupRef ∧
     syncPieces true None piecesGroupRef (boardState s) = piecesGroupRef) ∧
  ∃ children,
    syncPieces true (Some models) (Some old) (boardState s)
      = Some children ∧
    length children = pieceCount (boardState s) ∧
    (∀ x y z p,
       Object3D.mk (pieceName x y z) (Some p) ∈ children ↔
       at3 (boardState s) x y z = Some (Some p) ∧
       is_Some (models (Piece.type p))) ∧
    (∀ o, o ∈ children →
       o = newGroup ∨
       ∃ x y z p, o = Object3D.mk (pieceName x y z) (Some p)) ∧
    (∀ i j o o',
       children !! i = Some o → children !! j = Some o' →
       Object3D.name o = Object3D.name o' → o ≠ newGroup → i = j) ∧
    ((∀ type, is_Some (models type)) →
     NoDup (Object3D.name <$> children)) ∧
    (∀ sel, selectedPiece s = Some sel →
       (∀ o, o ∈ children →
          (isSelected (selectedPiece s) o = true ↔
           Object3D.userData o = Some sel)) ∧
       (∀ i j o o',
          children !! i = Some o → children !! j = Some o' →
          isSelected (selectedPiece s) o = true →
          isSelected (selectedPiece s) o' = true → i = j) ∧
       (is_Some (models (Piece.type sel)) →
        ∃ o, o ∈ children ∧ isSelected (selectedPiece s) o = true)).
Proof.
  intros Hsession.
  pose proof (session_sessionInv s Hsession) as (Hwf & Hinv & Hsel & _).
  split; [done|].
  assert (∀ p, p ∈ visitedPieces (boardState s) →
            at3 (boardState s) (Piece.x p) (Piece.y p) (Piece.z p)
              = Some (Some p)) as Hon.
  { intros p (x & y & z & plane & row & Hx & Hy & Hz & Hp)%visitedPieces_elem.
    assert (at3 (boardState s) x y z = Some (Some p)) as Hat.
    { apply at3_Some. exists plane, row. done. }
    by destruct (Hinv _ _ _ _ Hat) as (-> & -> & ->). }
  assert (∀ x y z p, at3 (boardState s) x y z = Some (Some p) →
            p ∈ visitedPieces (boardState s)) as Hin.
  { intros x y z p Hat.
    destruct (wfBoard_piece_in_range _ _ _ _ _ Hwf Hat) as (_ & _ & Hz).
    pose proof Hat as (plane & row & Hx & Hy & Hp)%at3_Some.
    apply visitedPieces_elem. exists x, y, z, plane, row.
    split; [done|]. split; [done|]. split; [|done].
    destruct Hwf as [_ Hcols]. rewrite Forall_forall in Hcols.
    apply idx_Some in Hx as [_ Hx]. apply idx_Some in Hy as [_ Hy].
    pose proof (Hcols plane (list_elem_of_lookup_2 _ _ _ Hx)) as Hrow.
    rewrite Forall_forall in Hrow.
    destruct (Hrow row (list_elem_of_lookup_2 _ _ _ Hy)) as [-> _]. done. }
  pose proof (visitedPieces_NoDup _ Hinv) as Hnd.
  assert (∀ p q, p ∈ visitedPieces (boardState s) →
            q ∈ visitedPieces (boardState s) →
            (Piece.x p, Piece.y p, Piece.z p)
              = (Piece.x q, Piece.y q, Piece.z q) → p = q) as Hcell.
  { intros p q Hp Hq [= Ex Ey Ez].
    apply Hon in Hp. apply Hon in Hq. rewrite Ex, Ey, Ez in Hp. congruence. }
  set (mesh := λ piece, createPieceMesh piece models).
  exists (mesh <$> visitedPieces (boardState s)).
  split; [done|].
  assert (∀ i j o o',
            (mesh <$> visitedPieces (boardState s)) !! i = Some o →
            (mesh <$> visitedPieces (boardState s)) !! j = Some o' →
            Object3D.name o = Object3D.name o' → o ≠ newGroup → i = j)
    as Hnames.
  { intros i j o o'. rewrite !list_lookup_fmap.
    destruct (visitedPieces (boardState s) !! i) as [p|] eqn:Hi; [|done].
    destruct (visitedPieces (boardState s) !! j) as [q|] eqn:Hj; [|done].
    simpl. intros [= <-] [= <-] Hname Hnamed. unfold mesh in *.
    destruct (createPieceMesh_cases p models) as [[_ Hp]|[_ Hp]];
      [done|].
    destruct (createPieceMesh_cases q models) as [[_ Hq]|[_ Hq]];
      rewrite Hp, Hq in Hname; simpl in Hname; [done|].
    injection Hname as Ex Ey Ez.
    assert (p = q) as <-.
    { apply Hcell; [by eapply list_elem_of_lookup_2..|congruence]. }
    by eapply NoDup_lookup. }
  split.
  { rewrite length_fmap. by apply visitedPieces_length. }
  split.
  { intros x y z p. rewrite list_elem_of_fmap. split.
    - intros (q & (Hmodel & -> & [= <- <- <-])%eq_sym%createPieceMesh_named
              & Hq).
      split; [by apply Hon|done].
    - intros [Hat Hmodel]. exists p. split; [|by eapply Hin].
      symmetry. apply createPieceMesh_named. split; [done|]. split; [done|].
      by destruct (Hinv _ _ _ _ Hat) as (-> & -> & ->). }
  split.
  { intros o (q & -> & _)%list_elem_of_fmap. unfold mesh.
    destruct (createPieceMesh_cases q models) as [[_ ->]|[_ ->]];
      [by left|right; eauto]. }
  split; [exact Hnames|].
  split.
  { intros Hall. rewrite <- list_fmap_compose.
    apply NoDup_fmap_2_strong; [|done].
    intros p q Hp Hq. simpl. unfold mesh.
    destruct (createPieceMesh_cases p models) as [[Hno _]|[_ ->]].
    { destruct (Hall (Piece.type p)) as [? ?]. congruence. }
    destruct (createPieceMesh_cases q models) as [[Hno _]|[_ ->]].
    { destruct (Hall (Piece.type q)) as [? ?]. congruence. }
    simpl. intros [= Ex Ey Ez]. apply Hcell; [done..|congruence]. }
  intros sel Hselected. destruct (Hsel sel Hselected) as [Hs _].
  assert (∀ o, o ∈ mesh <$> visitedPieces (boardState s) →
            (isSelected (selectedPiece s) o = true ↔
             Object3D.userData o = Some sel)) as Htest.
  { intros o (q & -> & Hq)%list_elem_of_fmap. rewrite Hselected.
    unfold isSelected, mesh.
    destruct (createPieceMesh_cases q models) as [[_ ->]|[_ ->]]; simpl;
      [done|].
    rewrite !andb_true_iff, !bool_decide_eq_true. split.
    - intros [[Ex Ey] Ez]. f_equal. apply Hcell; [done| |congruence].
      by eapply Hin.
    - by intros [= ->]. }
  split; [exact Htest|]. split.
  - intros i j o o' Hi Hj Ho Ho'.
    pose proof (list_elem_of_lookup_2 _ _ _ Hi) as Hio.
    pose proof (list_elem_of_lookup_2 _ _ _ Hj) as Hjo.
    apply (Htest o Hio) in Ho. apply (Htest o' Hjo) in Ho'.
    apply list_elem_of_fmap in Hio as (p & Hp & _).
    apply list_elem_of_fmap in Hjo as (q & Hq & _).
    unfold mesh in Hp, Hq.
    destruct (createPieceMesh_cases p models) as [[_ Ep]|[_ Ep]];
      rewrite Ep in Hp; subst o; [done|].
    destruct (createPieceMesh_cases q models) as [[_ Eq]|[_ Eq]];
      rewrite Eq in Hq; subst o'; [done|].
    simpl in Ho, Ho'. injection Ho as ->. injection Ho' as ->.
    by apply (Hnames i j _ _ Hi Hj).
  - intros Hmodel.
    exists (Object3D.mk (pieceName (Piece.x sel) (Piece.y sel) (Piece.z sel))
                        (Some sel)).
    assert (createPieceMesh sel models
            = Object3D.mk (pieceName (Piece.x sel) (Piece.y sel)
                                     (Piece.z sel)) (Some sel)) as Hmesh.
    { apply createPieceMesh_named. done. }
    assert (Object3D.mk (pieceName (Piece.x sel) (Piece.y sel) (Piece.z sel))
                        (Some sel)
            ∈ mesh <$> visitedPieces (boardState s)) as Hchild.
    { apply list_elem_of_fmap. exists sel. split; [done|]. by eapply Hin. }
    split; [exact Hchild|]. by apply Htest.
Qed.

(** Clicking and choosing a role keep a session a session. *)
Lemma session_clicks l s : session s → session (clicks l s).
Proof.
  revert s. induction l as [|[[x y] z] l IH]; intros s Hs; [done|].
  simpl. apply IH.
  destruct (click_step s x y z (session_sessionInv s Hs))
    as (s' & Heff & _).
  unfold clicks in *. simpl. rewrite Heff. simpl.
  by eapply session_click.
Qed.

Lemma session_promoted s promotedTo :
  session s →
  session (default s (validMovesEffect
                        (stateOf (handlePromotion s promotedTo)))).
Proof.
  intros Hs.
  destruct (promotion_step s promotedTo (session_sessionInv s Hs))
    as (s' & Heff & _).
  rewrite Heff. simpl. by eapply session_promote.
Qed.

(** * The worked sessions *)

Lemma mountedState_session : session mountedState.
Proof. apply session_mount. vm_compute. reflexivity. Defined.

Lemma afterCapture_session : session afterCapture.
Proof. apply session_clicks. exact mountedState_session. Defined.

Lemma pendingSession_session : session pendingSession.
Proof. apply session_clicks. exact mountedState_session. Defined.

Lemma promotedSession_session : session promotedSession.
Proof. apply session_promoted. exact pendingSession_session. Defined.

Lemma knight_moves_are_the_24_leaps_witness :
  Piece.type startKnight = Knight ∧
  ∃ ms, calculateValidMoves startKnight startBoard = Some ms ∧
    mkMove 2 0 2 false ∈ ms ∧ mkMove 1 1 2 false ∈ ms.
Proof.
  split; [reflexivity|].
  destruct (knight_moves_are_the_24_leaps startKnight startBoard eq_refl)
    as (Hreturns & _ & Hleaps).
  destruct Hreturns as [ms Hms].
  { apply (bool_decide_unpack _). vm_compute. exact I. }
  exists ms. split; [exact Hms|]. split.
  - apply (Hleaps ms Hms). exists 1, 0, 2. split; [reflexivity|].
    left. split; [|reflexivity]. split; vm_compute; reflexivity.
  - apply (Hleaps ms Hms). exists 0, 1, 2. split; [reflexivity|].
    left. split; [|reflexivity]. split; vm_compute; reflexivity.
Defined.

Lemma moves_never_capture_own_side_witness :
  ∃ ms, calculateValidMoves rookPiece rookBoard = Some ms ∧
    ∀ m, m ∈ ms → (Move.x m, Move.y m, Move.z m) ≠ (3, 3, 3).
Proof.
  destruct (moves_never_capture_own_side rookPiece rookBoard)
    as [Hreturns Hland].
  destruct Hreturns as [ms Hms].
  { apply (bool_decide_unpack _). vm_compute. exact I. }
  exists ms. split; [exact Hms|].
  intros m Hm. destruct (Hland ms m Hms Hm) as [Hne _]. exact Hne.
Defined.

Lemma at_most_one_move_per_square_witness :
  ∃ ms, calculateValidMoves rookPiece rookBoard = Some ms ∧ NoDup ms.
Proof.
  destruct (at_most_one_move_per_square rookPiece rookBoard)
    as [Hreturns Hnodup].
  destruct Hreturns as [ms Hms].
  { apply (bool_decide_unpack _). vm_compute. exact I. }
  exists ms. split; [exact Hms|].
  destruct (Hnodup ms Hms) as [Hnd _]. exact Hnd.
Defined.

Lemma queen_is_rook_plus_bishop_witness :
  is_Some (calculateValidMoves (withType Queen rookPiece) rookBoard) ∧
  (mkMove 3 3 4 false
     ∈ default [] (calculateValidMoves (withType Queen rookPiece)
                     rookBoard) ↔
   mkMove 3 3 4 false
     ∈ default [] (calculateValidMoves (withType Rook rookPiece)
                     rookBoard) ∨
   mkMove 3 3 4 false
     ∈ default [] (calculateValidMoves (withType Bishop rookPiece)
                     rookBoard)).
Proof.
  split; [vm_compute; eexists; reflexivity|].
  destruct (queen_is_rook_plus_bishop rookPiece rookBoard
              (default [] (calculateValidMoves (withType Rook rookPiece)
                             rookBoard))
              (default [] (calculateValidMoves (withType Bishop rookPiece)
                             rookBoard))
              (default [] (calculateValidMoves (withType Queen rookPiece)
                             rookBoard))
              (default [] (calculateValidMoves (withType King rookPiece)
                             rookBoard))
              ltac:(vm_compute; reflexivity) ltac:(vm_compute; reflexivity)
              ltac:(vm_compute; reflexivity) ltac:(vm_compute; reflexivity)
              (mkMove 3 3 4 false)) as [Hunion _].
  exact Hunion.
Defined.

Lemma pawn_moves_only_forward_witness :
  Piece.type startPawn = Pawn ∧
  ∃ ms, calculateValidMoves startPawn startBoard = Some ms ∧
    ∀ m, m ∈ ms → Z.abs (Move.x m - 0) ≤ 1 ∧ Z.abs (Move.y m - 1) ≤ 1.
Proof.
  split; [reflexivity|].
  destruct (pawn_moves_only_forward startPawn startBoard eq_refl)
    as [Hreturns Hforward].
  destruct Hreturns as [ms Hms].
  { apply (bool_decide_unpack _). vm_compute. exact I. }
  exists ms. split; [exact Hms|].
  intros m Hm. destruct (Hforward ms Hms) as [Hall _].
  destruct (Hall m Hm) as (_ & Hx & Hy & _). split; [exact Hx|exact Hy].
Defined.

Lemma plain_move_changes_two_cells_witness :
  ∃ s', executeMove huntState rookPiece 3 3 6 (mkMove 3 3 6 true) = Done s' ∧
    at3 (boardState s') 3 3 6 = Some (Some (movedTo rookPiece 3 3 6)) ∧
    at3 (boardState s') 3 3 3 = Some None ∧
    turn s' = black.
Proof.
  destruct (plain_move_changes_two_cells huntState rookPiece 3 3 6
              (mkMove 3 3 6 true))
    as (s' & Hdone & Htarget & _ & Hrest & Hturn & _).
  { apply (bool_decide_unpack _). vm_compute. exact I. }
  { reflexivity. }
  { intros [Hp _]. discriminate Hp. }
  { vm_compute. eexists. reflexivity. }
  { vm_compute. eexists. reflexivity. }
  exists s'. split; [exact Hdone|]. split; [exact Htarget|].
  split; [|exact Hturn].
  rewrite (Hrest 3 3 3); [reflexivity|]. intros Heq. discriminate Heq.
Defined.

Lemma capture_is_tallied_for_the_opponent_witness :
  ∃ s', executeMove huntState rookPiece 3 3 6 (mkMove 3 3 6 true) = Done s' ∧
    Captured.black (capturedPieces s') = [Piece.mk King black 3 3 6 false] ∧
    Captured.white (capturedPieces s') = [] ∧
    gameStatus s' = "WHITE WINS!"%string.
Proof.
  destruct (capture_is_tallied_for_the_opponent huntState rookPiece 3 3 6
              (mkMove 3 3 6 true)
              (Some (Piece.mk King black 3 3 6 false)))
    as (s' & Hdone & (Hblack & Hwhite) & Hstatus).
  { apply (bool_decide_unpack _). vm_compute. exact I. }
  { reflexivity. }
  { intros [Hp _]. discriminate Hp. }
  { vm_compute. eexists. reflexivity. }
  { vm_compute. reflexivity. }
  exists s'. split; [exact Hdone|]. split; [exact Hblack|].
  split; [exact Hwhite|exact Hstatus].
Defined.

Lemma castle_relocates_the_edge_piece_witness :
  ∃ s', executeMove mountedState startKing 6 3 0 castleMove = Done s' ∧
    at3 (boardState s') 6 3 0 = Some (Some (movedTo startKing 6 3 0)) ∧
    at3 (boardState s') 7 3 0 = Some None ∧
    at3 (boardState s') 5 3 0 = Some (Some (relocated startRook 5)).
Proof.
  destruct (castle_relocates_the_edge_piece mountedState startKing 6 3 0
              castleMove kingSide startRook)
    as (s' & Hdone & Hking & Hedge & Hrook & _).
  { apply (bool_decide_unpack _). vm_compute. exact I. }
  { reflexivity. }
  { intros [Hp _]. discriminate Hp. }
  { vm_compute. eexists. reflexivity. }
  { vm_compute. eexists. reflexivity. }
  { simpl. unfold SIZE. lia. }
  { vm_compute. reflexivity. }
  { intros Heq. discriminate Heq. }
  { intros Heq. discriminate Heq. }
  exists s'. split; [exact Hdone|]. split; [exact Hking|].
  split; [exact Hedge|exact Hrook].
Defined.

Lemma castle_edge_cases_witness :
  ∃ s',
    executeMove mountedState startKing 7 3 0
      (Move.mk 7 3 0 false (Some kingSide)) = Done s' ∧
    at3 (boardState s') 7 3 0 = Some None ∧
    at3 (boardState s') 6 3 0 = Some (Some (movedTo startKing 6 3 0)).
Proof.
  destruct (castle_edge_cases mountedState startKing 7 3 0
              (Move.mk 7 3 0 false (Some kingSide)) kingSide)
    as (_ & Hedge & _).
  { apply (bool_decide_unpack _). vm_compute. exact I. }
  { reflexivity. }
  { intros [Hp _]. discriminate Hp. }
  { vm_compute. eexists. reflexivity. }
  { vm_compute. eexists. reflexivity. }
  exact (Hedge eq_refl).
Defined.

Lemma session_selection_is_playable_witness :
  session pendingSession ∧
  ∀ p, selectedPiece pendingSession = Some p →
       Piece.color p = turn pendingSession ∧
       calculateValidMoves p (boardState pendingSession)
         = Some (validMoves pendingSession).
Proof.
  split; [exact pendingSession_session|].
  destruct (session_selection_is_playable pendingSession
              pendingSession_session) as (_ & _ & Hsel & _).
  intros p Hp. destruct (Hsel p Hp) as (_ & Hturn & Hmoves).
  split; [exact Hturn|exact Hmoves].
Defined.

Lemma session_handlers_do_not_raise_witness :
  session afterCapture ∧
  ∃ s1, handleSquareClick afterCapture 3 3 3 = Done s1.
Proof.
  split; [exact afterCapture_session|].
  destruct (session_handlers_do_not_raise afterCapture afterCapture_session)
    as (Hclick & _).
  apply Hclick; unfold SIZE; lia.
Defined.

Lemma session_captures_are_sorted_by_colour_witness :
  session promotedSession ∧
  ∀ q, q ∈ Captured.black (capturedPieces promotedSession) →
       Piece.color q = black.
Proof.
  split; [exact promotedSession_session|].
  destruct (session_captures_are_sorted_by_colour promotedSession
              promotedSession_session) as [_ Hblack].
  exact Hblack.
Defined.

Lemma session_material_is_conserved_witness :
  session promotedSession ∧
  (pieceCount (boardState promotedSession)
   + length (Captured.white (capturedPieces promotedSession))
   + length (Captured.black (capturedPieces promotedSession)) = 256)%nat.
Proof.
  split; [exact promotedSession_session|].
  exact (session_material_is_conserved promotedSession
           promotedSession_session).
Defined.

Lemma session_ends_with_a_captured_king_witness :
  session afterCapture ∧
  (gameStatus afterCapture = "active"%string ↔
   ∀ q, q ∈ Captured.white (capturedPieces afterCapture)
            ++ Captured.black (capturedPieces afterCapture) →
        Piece.type q ≠ King).
Proof.
  split; [exact afterCapture_session|].
  destruct (session_ends_with_a_captured_king afterCapture
              afterCapture_session) as (_ & Hiff & _).
  exact Hiff.
Defined.

Lemma session_turn_passes_with_each_move_witness :
  session pendingSession ∧
  (boardState promotedSession ≠ boardState pendingSession ∧
   turn promotedSession = opponentOf (turn pendingSession)).
Proof.
  split; [exact pendingSession_session|].
  destruct (session_turn_passes_with_each_move pendingSession
              promotedSession pendingSession_session)
    as [(Hsame & _)|(Hchanged & Hturn & _)].
  { right. exists Queen. vm_compute. reflexivity. }
  - exfalso. apply (f_equal (λ b, at3 b 0 1 7)) in Hsame.
    vm_compute in Hsame. discriminate Hsame.
  - split; [exact Hchanged|exact Hturn].
Defined.

Lemma session_promotion_completes_the_move_witness :
  session pendingSession ∧
  promotionData pendingSession
    = Some (PromotionData.mk (Piece.mk Pawn white 1 1 6 true) 0 1 7) ∧
  (∀ x y z, handleSquareClick pendingSession x y z = Done pendingSession) ∧
  ∃ s', handlePromotion pendingSession Knight = Done s' ∧
        turn s' = opponentOf (turn pendingSession).
Proof.
  assert (promotionData pendingSession
          = Some (PromotionData.mk (Piece.mk Pawn white 1 1 6 true) 0 1 7))
    as Hpd.
  { vm_compute. reflexivity. }
  split; [exact pendingSession_session|]. split; [exact Hpd|].
  destruct (session_promotion_completes_the_move pendingSession _
              pendingSession_session Hpd) as (_ & Hclicks & Hpromote).
  split; [exact Hclicks|].
  destruct (Hpromote Knight) as (s' & Hdone & _ & _ & Hturn & _).
  exists s'. split; [exact Hdone|exact Hturn].
Defined.

Lemma promotion_completion_effect_witness :
  ∃ s', handlePromotion promoPending Rook = Done s' ∧
    at3 (boardState s') 3 3 6 = Some None ∧
    gameStatus s' = "WHITE WINS!"%string.
Proof.
  destruct (promotion_completion_effect promoPending
              (PromotionData.mk promoPawn 4 3 7) Rook (Some promoKing))
    as (s' & Hdone & Hrest & _ & (_ & _ & Hstatus)).
  { apply (bool_decide_unpack _). vm_compute. exact I. }
  { reflexivity. }
  { vm_compute. eexists. reflexivity. }
  { vm_compute. reflexivity. }
  { intros Heq. discriminate Heq. }
  exists s'. split; [exact Hdone|]. split; [|exact Hstatus].
  rewrite (Hrest 3 3 6); [reflexivity|]. intros Heq. discriminate Heq.
Defined.

Lemma sidebar_width_stays_in_bounds_witness :
  startResizing (JsNumber.ofZ 350) (JsNumber.ofZ 100)
                [JsNumber.ofZ 150; JsNumber.ofZ 900; JsNumber.ofZ 100]
  = JsNumber.ofZ 350 ∧
  startResizing (JsNumber.ofZ 350) (JsNumber.ofZ 100)
                [JsNumber.ofZ 150; JsNumber.ofZ 900]
  = JsNumber.ofZ 400.
Proof.
  destruct sidebar_width_stays_in_bounds as (_ & _ & Hlast & Hback & _).
  assert (pixelRange 100 ∧ pixelRange 150 ∧ pixelRange 900) as (H1 & H2 & H3).
  { unfold pixelRange. change (2 ^ 51) with 2251799813685248. lia. }
  split.
  - apply (Hback 350 100 [JsNumber.ofZ 150; JsNumber.ofZ 900]); [lia|done].
  - etrans.
    { exact (Hlast 350 100 900 [JsNumber.ofZ 150] ltac:(lia) H1 H3). }
    exact (Hlast 350 100 150 [] ltac:(lia) H1 H2).
Defined.

Lemma scene_shows_each_piece_once_witness :
  session afterCapture ∧
  ∃ children,
    syncPieces true (Some (λ _, Some newGroup)) (Some [])
               (boardState afterCapture) = Some children ∧
    length children = 255%nat ∧
    Object3D.mk (pieceName 1 1 4) (Some (Piece.mk Pawn white 1 1 4 true))
      ∈ children ∧
    NoDup (Object3D.name <$> children).
Proof.
  split; [exact afterCapture_session|].
  destruct (scene_shows_each_piece_once afterCapture
              (λ _, Some newGroup) [] afterCapture_session)
    as (_ & children & Hsync & Hlen & Hmesh & _ & _ & Hnames & _).
  exists children. split; [exact Hsync|]. split.
  { rewrite Hlen. vm_compute. reflexivity. }
  split.
  { apply Hmesh. split; [vm_compute; reflexivity|]. by eexists. }
  apply Hnames. intros type. by eexists.
Defined.

Lemma legacy_click_agrees_witness :
  selectedPiece pawnSelected = Some startPawn ∧
  mkMove 0 1 3 false ∈ validMoves pawnSelected ∧
  handleSquareClick pawnSelected 0 1 3
  = Legacy.handleSquareClick pawnSelected 0 1 3 ∧
  ∃ s', Legacy.handleSquareClick pawnSelected 0 1 3 = Done s' ∧
        turn s' = black ∧
        at3 (boardState s') 0 1 1 = Some None ∧
        at3 (boardState s') 0 1 3 = Some (Some (movedTo startPawn 0 1 3)).
Proof.
  assert (validMoves pawnSelected = [mkMove 0 1 2 false; mkMove 0 1 3 false])
    as Hmoves.
  { vm_compute. reflexivity. }
  split; [vm_compute; reflexivity|].
  split.
  { rewrite Hmoves. apply elem_of_cons. right. apply elem_of_cons.
    left. reflexivity. }
  split.
  - apply (legacy_click_agrees pawnSelected 0 1 3).
    + reflexivity.
    + rewrite Hmoves. intros m Hm.
      apply elem_of_cons in Hm as [->|Hm]; [reflexivity|].
      apply elem_of_cons in Hm as [->|Hm]; [reflexivity|].
      apply elem_of_nil in Hm. destruct Hm.
    + intros sel Hsel [_ Hz]. vm_compute in Hsel.
      injection Hsel as <-. discriminate Hz.
  - eexists. split; [vm_compute; reflexivity|].
    split; [reflexivity|]. split; vm_compute; reflexivity.
Defined.
